(** * SolarSystem: the geometric pipeline of [src/components/SolarSystem.tsx]

    A shallow embedding of the scene construction, the per-frame label and
    distance publication, the camera flights and the camera snapshot taken
    on a data refresh; of what the component renders from the published
    ranking, of the fetch states, of the orbit rings, and of the click
    handler and render loop of the earlier revision kept in the same file.

    Numbers are JavaScript Numbers, i.e. IEEE-754 binary64 values: they are
    modelled by Rocq's primitive [float], whose operations are the
    round-to-nearest-even operations of the hardware, specified by
    [FloatAxioms] against [SpecFloat].

    The file has four parts: the model (definitions only), facts about
    binary64 arithmetic, the properties of the pipeline, and the model
    evaluated on concrete inputs. *)

From Stdlib Require Import ZArith Floats Lia List Sorted.
From stdpp Require Import gmap strings list.

Set Warnings "-inexact-float".

(* ================================================================= *)
(** * Part I: the model *)
(* ================================================================= *)

(** ** ECMAScript built-ins used by the component *)

Module JS.
Local Open Scope float_scope.

(** ToBoolean on a Number: [0], [-0] and [NaN] are falsy. *)
Definition truthy (x : float) : bool := negb (is_zero x || is_nan x).

(** [x || d] where [x] may be [undefined]. *)
Definition or_default (x : option float) (d : float) : float :=
  match x with
  | Some v => if truthy v then v else d
  | None => d
  end.

(** [Math.min(a, b)]: NaN if either argument is NaN, and [-0] below [+0]. *)
Definition Math_min (a b : float) : float :=
  if is_nan a || is_nan b then nan
  else if a <? b then a
  else if b <? a then b
  else if get_sign a then a else b.

(** [Number.prototype.toFixed(2)], step 11.a, for the positive real
    [m * 2^e]: "let n be an integer for which n / 10^2 - x is as close to
    zero as possible; if there are two such n, pick the larger n". *)
Definition toFixed_n (m : positive) (e : Z) : Z :=
  if (0 <=? e)%Z then (Z.pos m * 2 ^ e * 100)%Z
  else ((200 * Z.pos m + 2 ^ (- e)) / 2 ^ (1 - e))%Z.

(** [Number(s)] for the string [s] that [toFixed(2)] builds from the sign
    and the integer [n]: the digits of [n] with a point before the last two.
    Its mathematical value is [n / 100]; [Number] returns the nearest
    binary64 value, computed here by the correctly rounded division of
    [SpecFloat]. *)
Definition Number_of_hundredths (s : bool) (n : Z) : float :=
  match n with
  | Z0 => if s then neg_zero else zero
  | Zpos p => SF2Prim (SFdiv prec emax (S754_finite s p 0) (S754_finite false 100 0))
  | Zneg _ => nan
  end.

(** [Number(x.toFixed(2))].  [toFixed] prints NaN and the infinities by
    name, prints a zero as "0.00", and falls back to [ToString] (which
    [Number] reads back exactly) from [10^21] on. *)
Definition Number_toFixed2 (x : float) : float :=
  match Prim2SF x with
  | S754_nan => nan
  | S754_infinity _ => x
  | S754_zero _ => zero
  | S754_finite s m e =>
      if (10 ^ 21 <=? Z.pos m * 2 ^ e)%Z then x
      else Number_of_hundredths s (toFixed_n m e)
  end.

(** [Array.prototype.sort(cmp)].  ECMAScript requires the sort to be stable,
    and a comparator result [v] puts [a] after [b] exactly when [v > 0]
    ([NaN] counts as [0]).  For a consistent comparator the result is then
    unique; it is computed here by stable insertion.  For an inconsistent
    comparator the order is implementation-defined and this model is only
    one of the possible behaviours. *)
Fixpoint sort_insert {A : Type} (cmp : A -> A -> float) (x : A) (l : list A) : list A :=
  match l with
  | [] => [x]
  | y :: l' => if 0 <? cmp x y then y :: sort_insert cmp x l' else x :: y :: l'
  end.

Definition Array_sort {A : Type} (cmp : A -> A -> float) (l : list A) : list A :=
  foldr (sort_insert cmp) [] l.

End JS.

(** ** three.js: [Vector3] *)

Module Vector3.
Local Open Scope float_scope.

Record t := mk { x : float; y : float; z : float }.

(** [new THREE.Vector3()] *)
Definition zero : t := mk 0 0 0.

(** [a.add(b)] *)
Definition add (a b : t) : t := mk (x a + x b) (y a + y b) (z a + z b).

(** [a.distanceToSquared(v)] and [a.distanceTo(v)] *)
Definition distanceToSquared (a v : t) : float :=
  let dx := x a - x v in
  let dy := y a - y v in
  let dz := z a - z v in
  dx * dx + dy * dy + dz * dz.

Definition distanceTo (a v : t) : float := sqrt (distanceToSquared a v).

(** [this.lerpVectors(v1, v2, alpha)] *)
Definition lerpVectors (v1 v2 : t) (alpha : float) : t :=
  mk (x v1 + (x v2 - x v1) * alpha)
     (y v1 + (y v2 - y v1) * alpha)
     (z v1 + (z v2 - z v1) * alpha).

(** Componentwise numeric equality ([===] on each component). *)
Definition eqb (a b : t) : bool :=
  (x a =? x b) && (y a =? y b) && (z a =? z b).

(** Every component is a finite number. *)
Definition finite (v : t) : bool := is_finite (x v) && is_finite (y v) && is_finite (z v).

(** No component is NaN. *)
Definition no_nan (v : t) : bool := negb (is_nan (x v) || is_nan (y v) || is_nan (z v)).

End Vector3.

(** ** The interfaces of the component *)

Module PlanetData.
Record t := mk {
  id : string;
  name : string;
  size : float;                 (* in Earth radii *)
  color : Z;
  inclination : option float;   (* degrees *)
  textureMap : string
}.
End PlanetData.

Module PlanetPosition.
Record t := mk { x : float; y : float }.
End PlanetPosition.

Module CoordinateData.
Record t := mk {
  timestamp : string;
  x : float;                    (* astronomical units *)
  y : float;
  z : float
}.
End CoordinateData.

Module ApiResponse.
Record t := mk {
  data : gmap string CoordinateData.t;
  status : string
}.
End ApiResponse.

Module CameraState.
Record t := mk { position : Vector3.t; target : Vector3.t }.
End CameraState.

Module PlanetDistance.
Record t := mk {
  id : string;
  name : string;
  distance : float;
  position : PlanetPosition.t
}.
End PlanetDistance.

(** ** Constants *)

Definition PLANETS : list PlanetData.t :=
  [ PlanetData.mk "sun" "Sun" (109 / 50) 0xffff00 (Some 0%float) "/textures/2k_sun.jpg";
    PlanetData.mk "mercury" "Mercury" 0.383 0x808080 (Some 7.0%float) "/textures/2k_mercury.jpg";
    PlanetData.mk "venus" "Venus" 0.949 0xffd700 (Some 3.4%float) "/textures/2k_venus.jpg";
    PlanetData.mk "earth" "Earth" 1.0 0x0077be (Some 0.0%float) "/textures/2k_earth.jpg";
    PlanetData.mk "mars" "Mars" 0.532 0xff4500 (Some 1.9%float) "/textures/2k_mars.jpg";
    PlanetData.mk "jupiter" "Jupiter" 11.209 0xffa500 (Some 1.3%float) "/textures/2k_jupiter.jpg";
    PlanetData.mk "saturn" "Saturn" 9.449 0xffd700 (Some 2.5%float) "/textures/2k_saturn.jpg";
    PlanetData.mk "uranus" "Uranus" 4.007 0x40e0d0 (Some 0.8%float) "/textures/2k_uranus.jpg";
    PlanetData.mk "neptune" "Neptune" 3.883 0x0000ff (Some 1.8%float) "/textures/2k_neptune.jpg" ].

Definition SCALE_FACTOR : float := 10.
Definition SIZE_SCALE : float := 0.5.

(** [Math.PI] *)
Definition Math_PI : float := 3.141592653589793.

Definition ORBIT_INCLINATION : float := (Math_PI / 2) + (23 * Math_PI / 180).

(** Position of a body in the catalog. *)
Fixpoint index_of (i : string) (l : list string) : option nat :=
  match l with
  | [] => None
  | j :: l' => if String.eqb i j then Some 0 else S <$> index_of i l'
  end.

Definition catalog_index (i : string) : option nat :=
  index_of i (PlanetData.id <$> PLANETS).

(** [a] comes before [b] in [PLANETS]. *)
Definition catalog_before (a b : string) : Prop :=
  exists i j, catalog_index a = Some i /\ catalog_index b = Some j /\ i < j.

(** ** What the component calls but does not define *)

(** An [OrbitControls] object together with the camera it drives
    ([controls.object]): the camera position, the orbit target, and the
    private state of the controls (damping, pending deltas, camera
    orientation), of type [S]. *)
Module OrbitControls.
Record t (S : Type) := mk {
  object_position : Vector3.t;
  target : Vector3.t;
  state : S
}.
Arguments mk {S}.
Arguments object_position {S}.
Arguments target {S}.
Arguments state {S}.
End OrbitControls.

(** three.js and the host, as far as the component relies on them.
    [controls_init] is the private state with which the constructor of
    [OrbitControls] starts, [controls_configure] is
    [controls.enableDamping = true; controls.dampingFactor = 0.05], and
    [controls_update] is [controls.update()], which recomputes the camera
    position from its offset to the target and turns the camera to the
    target.  [Math.pow] is implementation-approximated in ECMAScript, and
    [Date.now()] is the wall clock: [Date_now n] is its [n]-th reading. *)
Class Host := {
  ControlsState : Type;
  controls_init : ControlsState;
  controls_configure : ControlsState -> ControlsState;
  controls_update : OrbitControls.t ControlsState -> OrbitControls.t ControlsState;
  project : OrbitControls.t ControlsState -> Vector3.t -> Vector3.t;
  Math_pow : float -> float -> float;
  Date_now : nat -> float
}.

(** ** The component *)

Section Model.
Context `{Host}.
Local Open Scope float_scope.

(** What the scene effect builds and the render loop reads.  A mesh is
    represented by its position; materials, textures, lights, orbit rings
    and rotations do not enter the published values. *)
Record Scene := mkScene {
  draggableCube : Vector3.t;
  planetMeshes : gmap string Vector3.t;
  controls : OrbitControls.t ControlsState
}.

(** The position given to the mesh of [planet] in the [forEach] of the
    scene effect. *)
Definition meshPosition (planetData : option ApiResponse.t) (planet : PlanetData.t) : Vector3.t :=
  match planetData ≫= (λ r, ApiResponse.data r !! PlanetData.id planet) with
  | Some coords =>
      Vector3.mk (CoordinateData.x coords * SCALE_FACTOR)
                 (CoordinateData.y coords * SCALE_FACTOR)
                 (CoordinateData.z coords * SCALE_FACTOR)
  | None => Vector3.mk 10 0 0
  end.

(** The scene effect ([useEffect] on [planetData] and [cameraState]), up to
    its call of [animate()].  [new OrbitControls(camera, ...)] starts with
    the target at the origin, and its constructor ends with [update()]; the
    effect then switches damping on and copies the target of the snapshot.
    (The [camera.lookAt(0, 0, 0)] of the branch without a snapshot turns the
    camera to the point to which that [update()] turns it anyway.) *)
Definition buildScene (planetData : option ApiResponse.t)
    (cameraState : option CameraState.t) : Scene :=
  let draggableCube := Vector3.mk 20 20 20 in
  let sun := Vector3.zero in
  let planetMeshes :=
    foldl (λ m planet, <[PlanetData.id planet := meshPosition planetData planet]> m)
          {["sun" := sun]} (drop 1 PLANETS) in
  let camera_position :=
    match cameraState with
    | Some cs => CameraState.position cs
    | None => Vector3.mk 0 50 100
    end in
  let controls :=
    controls_update (OrbitControls.mk camera_position Vector3.zero controls_init) in
  let controls_target :=
    match cameraState with
    | Some cs => CameraState.target cs
    | None => OrbitControls.target controls
    end in
  mkScene draggableCube planetMeshes
    (OrbitControls.mk (OrbitControls.object_position controls) controls_target
       (controls_configure (OrbitControls.state controls))).

(** A drag of the cube. *)
Definition dragCube (p : Vector3.t) (s : Scene) : Scene :=
  mkScene p (planetMeshes s) (controls s).

(** What one frame publishes: [setDistances] and [setPlanetPositions]. *)
Record Published := mkPublished {
  distances : list PlanetDistance.t;
  planetPositions : gmap string PlanetPosition.t
}.

(** The entry pushed for [planet] whose mesh is at [mesh]. *)
Definition rankEntry (s : Scene) (camera : OrbitControls.t ControlsState)
    (innerWidth innerHeight : float) (planet : PlanetData.t) (mesh : Vector3.t)
    : PlanetDistance.t :=
  let vector := project camera mesh in
  let x := (Vector3.x vector * 0.5 + 0.5) * innerWidth in
  let y := (- Vector3.y vector * 0.5 + 0.5) * innerHeight in
  let position := PlanetPosition.mk x y in
  let distance := Vector3.distanceTo (draggableCube s) mesh in
  PlanetDistance.mk (PlanetData.id planet) (PlanetData.name planet)
    (JS.Number_toFixed2 (distance / SCALE_FACTOR)) position.

(** One run of the render loop [animate].  [None] is the [TypeError] of
    reading a mesh that is not in [planetMeshes]. *)
Definition animate (s : Scene) (innerWidth innerHeight : float)
    : option (Scene * Published) :=
  let camera := controls_update (controls s) in
  newDistances ← mapM (λ planet,
      mesh ← planetMeshes s !! PlanetData.id planet;
      Some (rankEntry s camera innerWidth innerHeight planet mesh)) PLANETS;
  let sorted :=
    JS.Array_sort (λ a b, PlanetDistance.distance a - PlanetDistance.distance b)
      newDistances in
  let newPlanetPositions :=
    foldl (λ m planet, <[PlanetDistance.id planet := PlanetDistance.position planet]> m)
          ∅ sorted in
  Some (mkScene (draggableCube s) (planetMeshes s) camera,
        mkPublished sorted newPlanetPositions).

(** What a run of [animate] does to the scene: its [controls.update()]. *)
Definition animateScene (s : Scene) : Scene :=
  mkScene (draggableCube s) (planetMeshes s) (controls_update (controls s)).

(** *** Camera flights *)

(** The variables that one [animateCamera] closure captures. *)
Record Flight := mkFlight {
  startPosition : Vector3.t;
  cameraTargetPosition : Vector3.t;
  startTarget : Vector3.t;
  targetPosition : Vector3.t;
  startTime : float
}.

Definition duration : float := 1000.

Definition progress (f : Flight) (now : float) : float :=
  let elapsed := now - startTime f in
  JS.Math_min (elapsed / duration) 1.

Definition easeProgress (f : Flight) (now : float) : float :=
  1 - Math_pow (1 - progress f now) 3.

(** The camera position and target that the two [lerpVectors] calls of
    [animateCamera] write. *)
Definition flightState (f : Flight) (now : float) : CameraState.t :=
  CameraState.mk
    (Vector3.lerpVectors (startPosition f) (cameraTargetPosition f) (easeProgress f now))
    (Vector3.lerpVectors (startTarget f) (targetPosition f) (easeProgress f now)).

(** One run of [animateCamera] when the clock reads [now]; the boolean
    tells whether it asked for another animation frame. *)
Definition animateCamera (f : Flight) (now : float) (c : OrbitControls.t ControlsState)
    : OrbitControls.t ControlsState * bool :=
  let st := flightState f now in
  (controls_update
     (OrbitControls.mk (CameraState.position st) (CameraState.target st)
        (OrbitControls.state c)),
   progress f now <? 1).

(** The controls of the mounted scene, the [animateCamera] callbacks
    waiting for the next animation frame (oldest first), the focused
    planet, and the number of clock readings taken so far.  The flights of
    [raf] are the closures that captured this controls object: a rebuild of
    the scene creates a new controls object, and a closure started before
    it keeps writing to the old one. *)
Record World := mkWorld {
  controlsRef : option (OrbitControls.t ControlsState);
  raf : list Flight;
  focusedPlanet : option string;
  ticks : nat
}.

Definition focusOnPlanet (planetData : option ApiResponse.t) (planetId : string)
    (w : World) : World :=
  match planetData ≫= (λ r, ApiResponse.data r !! planetId), controlsRef w with
  | Some coords, Some controls =>
      let targetPosition :=
        Vector3.mk (CoordinateData.x coords * SCALE_FACTOR)
                   (CoordinateData.y coords * SCALE_FACTOR)
                   (CoordinateData.z coords * SCALE_FACTOR) in
      let planet := List.find (λ p, String.eqb (PlanetData.id p) planetId) PLANETS in
      let planetSize := JS.or_default (PlanetData.size <$> planet) 1 * SIZE_SCALE in
      let distance := planetSize * 3 in
      let offset := Vector3.mk distance (distance / 2) distance in
      let cameraTargetPosition := Vector3.add targetPosition offset in
      let f := mkFlight (OrbitControls.object_position controls) cameraTargetPosition
                 (OrbitControls.target controls) targetPosition (Date_now (ticks w)) in
      let '(controls', again) := animateCamera f (Date_now (S (ticks w))) controls in
      mkWorld (Some controls') (raf w ++ (if again then [f] else []))
        (Some planetId) (S (S (ticks w)))
  | _, _ => w
  end.

(** The callbacks of one animation frame run in the order in which they
    were requested; each reads the clock once. *)
Fixpoint runCallbacks (q : list Flight) (n : nat) (c : OrbitControls.t ControlsState)
    : list Flight * nat * OrbitControls.t ControlsState :=
  match q with
  | [] => ([], n, c)
  | f :: q' =>
      let '(c1, again) := animateCamera f (Date_now n) c in
      let '(rest, n', c2) := runCallbacks q' (S n) c1 in
      ((if again then [f] else []) ++ rest, n', c2)
  end.

(** One animation frame seen from the controls: the render loop, requested
    first, calls [controls.update()]; then the pending flights run. *)
Definition frame (w : World) : World :=
  match controlsRef w with
  | Some c =>
      let '(q, n, c') := runCallbacks (raf w) (ticks w) (controls_update c) in
      mkWorld (Some c') q (focusedPlanet w) n
  | None => w
  end.

(** *** Data refresh *)

(** The React state that the scene effect depends on, and the scene it
    built last ([controlsRef.current] is that scene's controls). *)
Record Component := mkComponent {
  planetData : option ApiResponse.t;
  cameraState : option CameraState.t;
  scene : option Scene
}.

(** [fetchPlanetData], before the request: "store current camera state". *)
Definition storeCameraState (c : Component) : Component :=
  match scene c with
  | Some s =>
      mkComponent (planetData c)
        (Some (CameraState.mk (OrbitControls.object_position (controls s))
                              (OrbitControls.target (controls s))))
        (scene c)
  | None => c
  end.

(** [fetchPlanetData], after the response: [setPlanetData(data)]. *)
Definition setPlanetData (data : ApiResponse.t) (c : Component) : Component :=
  mkComponent (Some data) (cameraState c) (scene c).

(** The scene effect, run again after a change of [planetData] or
    [cameraState]: it builds the scene and starts the render loop with a
    first [animate()], so the mounted scene has been through the
    [controls.update()] of that first run. *)
Definition sceneEffect (c : Component) : Component :=
  mkComponent (planetData c) (cameraState c)
    (Some (animateScene (buildScene (planetData c) (cameraState c)))).

(** The user (or a flight) moves the camera of the mounted scene. *)
Definition moveCamera (position target : Vector3.t) (c : Component) : Component :=
  match scene c with
  | Some s =>
      mkComponent (planetData c) (cameraState c)
        (Some (mkScene (draggableCube s) (planetMeshes s)
                 (OrbitControls.mk position target (OrbitControls.state (controls s)))))
  | None => c
  end.

(** A whole refresh: snapshot, rebuild on the new [cameraState], response,
    rebuild on the new [planetData]. *)
Definition refresh (data : ApiResponse.t) (c : Component) : Component :=
  sceneEffect (setPlanetData data (sceneEffect (storeCameraState c))).

End Model.

(** ** What the component renders from the published state *)

Module View.

(** A row of the distances panel:
    [distances.map(planet => <li key={planet.id}> name, distance </li>)]. *)
Definition panelRow (planet : PlanetDistance.t) : string * string * float :=
  (PlanetDistance.id planet, PlanetDistance.name planet, PlanetDistance.distance planet).

Definition distancesPanel (distances : list PlanetDistance.t)
    : list (string * string * float) :=
  panelRow <$> distances.

(** The labels: [distances.map(planet => planetPositions[planet.id] && ...)],
    each with the name it shows and the position it is drawn at. *)
Definition labels (distances : list PlanetDistance.t)
    (planetPositions : gmap string PlanetPosition.t) : list (string * PlanetPosition.t) :=
  omap (λ planet, (λ pos, (PlanetDistance.name planet, pos)) <$>
                    planetPositions !! PlanetDistance.id planet) distances.

(** The second line of the label of the focused body:
    [distances.filter(p => p.id !== planet.id && p.id !== 'sun').slice(0, 2)]. *)
Definition nearestOthers (distances : list PlanetDistance.t) (planetId : string)
    : list PlanetDistance.t :=
  take 2 (filter (λ p, PlanetDistance.id p ≠ planetId ∧ PlanetDistance.id p ≠ "sun")
            distances).

(** [distances.find(p => p.id === 'sun')] *)
Definition sunEntry (distances : list PlanetDistance.t) : option PlanetDistance.t :=
  List.find (λ p, String.eqb (PlanetDistance.id p) "sun") distances.

(** [distances.filter(p => p.id !== 'sun')] *)
Definition withoutSun (distances : list PlanetDistance.t) : list PlanetDistance.t :=
  filter (λ p, PlanetDistance.id p ≠ "sun") distances.

(** The bottom info bar, [distances.length > 1 && (...)]: the entries
    [[0]] and [[1]] of the ranking without the sun.  [Some None] is "not
    rendered"; [None] is the [TypeError] of reading [.name] of
    [undefined]. *)
Definition infoBar (distances : list PlanetDistance.t)
    : option (option (PlanetDistance.t * PlanetDistance.t)) :=
  if bool_decide (1 < length distances) then
    a ← withoutSun distances !! 0%nat;
    b ← withoutSun distances !! 1%nat;
    Some (Some (a, b))
  else Some None.

End View.

(** ** The page: fetch state and user input *)

Section PageModel.
Context `{Host}.

(** A drag of the cube of the mounted scene. *)
Definition dragMounted (p : Vector3.t) (c : Component) : Component :=
  match scene c with
  | Some s => mkComponent (planetData c) (cameraState c) (Some (dragCube p s))
  | None => c
  end.

(** The component together with the [loading] and [error] states. *)
Record Page := mkPage {
  component : Component;
  loading : bool;
  error : option string
}.

(** The state before the first effect has run. *)
Definition initialPage : Page := mkPage (mkComponent None None None) true None.

(** What happens to the page.  [FetchStarted] is [fetchPlanetData] up to
    its [await]: the snapshot and [setLoading(true)], followed by the run of
    the scene effect (on mount the scene effect runs for the first time,
    later because [cameraState] changed).  [FetchSucceeded] is the rest of
    the [try] block, [FetchFailed] the [catch] block. *)
Inductive PageEvent :=
  | FetchStarted
  | FetchSucceeded (data : ApiResponse.t)
  | FetchFailed
  | CubeDragged (p : Vector3.t)
  | CameraMoved (position target : Vector3.t).

Definition pageStep (ev : PageEvent) (p : Page) : Page :=
  match ev with
  | FetchStarted =>
      mkPage (sceneEffect (storeCameraState (component p))) true (error p)
  | FetchSucceeded data =>
      mkPage (sceneEffect (setPlanetData data (component p))) false (error p)
  | FetchFailed =>
      mkPage (component p) false (Some "Failed to fetch planet data")
  | CubeDragged q =>
      mkPage (dragMounted q (component p)) (loading p) (error p)
  | CameraMoved position target =>
      mkPage (moveCamera position target (component p)) (loading p) (error p)
  end.

Definition pageRun (evs : list PageEvent) (p : Page) : Page :=
  foldl (λ p ev, pageStep ev p) p evs.

Definition isFetchFailed (ev : PageEvent) : bool :=
  match ev with FetchFailed => true | _ => false end.

Definition isFetchEvent (ev : PageEvent) : bool :=
  match ev with FetchStarted | FetchSucceeded _ | FetchFailed => true | _ => false end.

Definition responseOf (ev : PageEvent) : option ApiResponse.t :=
  match ev with FetchSucceeded data => Some data | _ => None end.

End PageModel.

(** ** Orbit rings *)

Section OrbitModel.
Context `{Host}.
Local Open Scope float_scope.

(** The ring drawn for a body: the radii given to [RingGeometry] and the
    rotation about the x axis. *)
Record Orbit := mkOrbit {
  innerRadius : float;
  outerRadius : float;
  orbit_rotation_x : float
}.

Definition totalInclination (planet : PlanetData.t) : float :=
  ORBIT_INCLINATION + (JS.or_default (PlanetData.inclination planet) 0 * Math_PI / 180).

(** The rings that the scene effect adds, in the order in which it adds
    them.  The loop runs over [PLANETS.slice(1)], so the sun, whose mesh is
    created before the loop, never gets one; a body without a coordinate gets
    none either. *)
Definition orbits (planetData : option ApiResponse.t) : list (string * Orbit) :=
  omap (λ planet,
          match planetData ≫= (λ r, ApiResponse.data r !! PlanetData.id planet) with
          | Some coords =>
              let distance :=
                sqrt (Math_pow (CoordinateData.x coords * SCALE_FACTOR) 2 +
                      Math_pow (CoordinateData.y coords * SCALE_FACTOR) 2 +
                      Math_pow (CoordinateData.z coords * SCALE_FACTOR) 2) in
              Some (PlanetData.id planet,
                    mkOrbit (distance - 0.1) (distance + 0.1)
                      (Math_PI / 2 + totalInclination planet))
          | None => None
          end)
       (drop 1 PLANETS).

(** [rotation.x] of every mesh of the scene: it stays 0 for the sun and for
    a body without a coordinate, the one branch of the loop that sets it
    being the branch for a body with a coordinate. *)
Definition meshRotations (planetData : option ApiResponse.t) : gmap string float :=
  foldl (λ m planet,
           <[PlanetData.id planet :=
               match planetData ≫= (λ r, ApiResponse.data r !! PlanetData.id planet) with
               | Some _ => totalInclination planet
               | None => 0
               end]> m)
        {["sun" := 0]} (drop 1 PLANETS).

End OrbitModel.

(** ** The earlier revision of the component

    The first revision kept in [src/components/SolarSystem.tsx] has no
    reference cube and no flights: a click moves the camera at once, and the
    render loop merges each label position into the previous state. *)

Module Earlier.
Section Earlier.
Context `{Host}.
Local Open Scope float_scope.

Definition focusOnPlanet (planetData : option ApiResponse.t) (planetId : string)
    (controlsRef : option (OrbitControls.t ControlsState))
    : option (OrbitControls.t ControlsState) :=
  match planetData ≫= (λ r, ApiResponse.data r !! planetId), controlsRef with
  | Some coords, Some controls =>
      let targetPosition :=
        Vector3.mk (CoordinateData.x coords * SCALE_FACTOR)
                   (CoordinateData.y coords * SCALE_FACTOR)
                   (CoordinateData.z coords * SCALE_FACTOR) in
      let offset := Vector3.mk 15 10 15 in
      let cameraTargetPosition := Vector3.add targetPosition offset in
      Some (OrbitControls.mk cameraTargetPosition targetPosition
              (OrbitControls.state controls))
  | _, _ => controlsRef
  end.

(** The [forEach] of the render loop, with its
    [setPlanetPositions(prev => ({...prev, [planet.id]: { x, y }}))]; the
    boolean is [false] when the loop ended in the [TypeError] of a missing
    mesh, after the updates made so far. *)
Fixpoint publishLabels (camera : OrbitControls.t ControlsState)
    (meshes : gmap string Vector3.t) (innerWidth innerHeight : float)
    (l : list PlanetData.t) (prev : gmap string PlanetPosition.t)
    : gmap string PlanetPosition.t * bool :=
  match l with
  | [] => (prev, true)
  | planet :: l' =>
      match meshes !! PlanetData.id planet with
      | Some mesh =>
          let vector := project camera mesh in
          let x := (Vector3.x vector * 0.5 + 0.5) * innerWidth in
          let y := (- Vector3.y vector * 0.5 + 0.5) * innerHeight in
          publishLabels camera meshes innerWidth innerHeight l'
            (<[PlanetData.id planet := PlanetPosition.mk x y]> prev)
      | None => (prev, false)
      end
  end.

Definition animate (s : Scene) (innerWidth innerHeight : float)
    (prev : gmap string PlanetPosition.t)
    : Scene * (gmap string PlanetPosition.t * bool) :=
  let camera := controls_update (controls s) in
  (mkScene (draggableCube s) (planetMeshes s) camera,
   publishLabels camera (planetMeshes s) innerWidth innerHeight PLANETS prev).

End Earlier.
End Earlier.

(** ** The specification's words *)

(** The order of the ranking: ascending by published distance, and on equal
    distances in the order of the catalog. *)
Definition ascending_then_catalog (a b : PlanetDistance.t) : Prop :=
  (PlanetDistance.distance a <=? PlanetDistance.distance b)%float = true /\
  ((PlanetDistance.distance a =? PlanetDistance.distance b)%float = true ->
   catalog_before (PlanetDistance.id a) (PlanetDistance.id b)).

(** No coordinate of the response has a NaN component (JSON has no NaN
    literal, so this holds of every parsed response). *)
Definition data_no_nan (planetData : option ApiResponse.t) : Prop :=
  forall r i coords,
    planetData = Some r -> ApiResponse.data r !! i = Some coords ->
    is_nan (CoordinateData.x coords) = false /\
    is_nan (CoordinateData.y coords) = false /\
    is_nan (CoordinateData.z coords) = false.

(** The differences [v2 - v1] are finite numbers in every component. *)
Definition finite_span (v1 v2 : Vector3.t) : bool :=
  is_finite (Vector3.x v2 - Vector3.x v1) &&
  is_finite (Vector3.y v2 - Vector3.y v1) &&
  is_finite (Vector3.z v2 - Vector3.z v1).


(** A coordinate scaled to scene units. *)
Definition scaled (coords : CoordinateData.t) : Vector3.t :=
  Vector3.mk (CoordinateData.x coords * SCALE_FACTOR)
             (CoordinateData.y coords * SCALE_FACTOR)
             (CoordinateData.z coords * SCALE_FACTOR).

(** [n] is the integer nearest to [100 * m * 2^e], the larger one on a
    tie: [-1/2 < n - 100 * m * 2^e <= 1/2]. *)
Definition nearest_hundredth (m : positive) (e : Z) (n : Z) : Prop :=
  if (0 <=? e)%Z then n = (100 * Z.pos m * 2 ^ e)%Z
  else (- 2 ^ (- e) < 2 * (n * 2 ^ (- e) - 100 * Z.pos m) <= 2 ^ (- e))%Z.

(** "[q] rounded to 2 decimal places, half away from zero, is [r]": [r] is
    the Number that reads [n / 100] with the sign of [q], where [n] is the
    integer nearest to [100 * |q|], the larger one on a tie.  A [q] of
    magnitude [10^21] or more is an integer and is its own rounding; NaN
    and the infinities are left alone. *)
Definition rounded_to_2_decimals (q r : float) : Prop :=
  match Prim2SF q with
  | S754_nan => r = nan
  | S754_infinity _ => r = q
  | S754_zero _ => r = zero
  | S754_finite s m e =>
      if (10 ^ 21 <=? Z.pos m * 2 ^ e)%Z then r = q
      else exists n, nearest_hundredth m e n /\ r = JS.Number_of_hundredths s n
  end.

(** "[q] rounded to 2 decimal places is [r]" for the Number
    [q = Math.sqrt(a) / 10], read off the exact binary value [m * 2^e] of
    [q]: [q] is not negative, [n] is the integer nearest to [100 * m * 2^e]
    (the larger one on a tie), and [r] is the Number nearest to [n / 100].
    Below [2^53] the integer [n] is a Number, and [n / 100] in binary64,
    which is correctly rounded, is that Number.  From [2^53] on ([q] of
    about [9 * 10^13] or more) Numbers lie more than a hundredth apart, and
    the Number nearest to [n / 100] is [q] itself. *)
Definition rounded_in_binary64 (q r : float) : Prop :=
  match Prim2SF q with
  | S754_nan => r = nan
  | S754_infinity _ => r = infinity
  | S754_zero _ => r = 0%float
  | S754_finite sign m e =>
      sign = false /\
      exists n, nearest_hundredth m e n /\
        r = if (n <? 2 ^ 53)%Z then (of_uint63 (Uint63.of_Z n) / 100)%float else q
  end.

(** The rounding read over the reals: the exact value of the norm, divided
    by 10 and rounded to hundredths half away from zero, as a number of
    hundredths.  For a norm [m * 2^e] that is [floor (10 * m * 2^e + 1/2)]. *)
Definition exact_hundredths (norm : float) : option Z :=
  match Prim2SF norm with
  | S754_zero _ => Some 0%Z
  | S754_finite false m e =>
      Some (if (0 <=? e)%Z then (10 * Z.pos m * 2 ^ e)%Z
            else ((20 * Z.pos m + 2 ^ (- e)) / 2 ^ (1 - e))%Z)
  | _ => None
  end.

(** ** Sample host and data, used to evaluate the model *)

(** A host in which [controls.update()] leaves the camera alone, the
    projection is the identity, [Math.pow(b, 3)] is [b * b * b] and the clock
    advances 16 ms per reading. *)
Definition sampleHost : Host := {|
  ControlsState := unit;
  controls_init := tt;
  controls_configure := λ s, s;
  controls_update := λ c, c;
  project := λ _ v, v;
  Math_pow := λ b _, (b * b * b)%float;
  Date_now := λ n, (1700000000000 + 16 * of_uint63 (Uint63.of_Z (Z.of_nat n)))%float
|}.

Definition earthCoords : CoordinateData.t :=
  CoordinateData.mk "2024-03-01T12:00:00.000Z" (-0.9) 0.3 0.01.

Definition marsCoords : CoordinateData.t :=
  CoordinateData.mk "2024-03-01T12:00:00.000Z" 1.2 (-0.8) (-0.05).

(** A response with coordinates for two bodies only. *)
Definition sampleData : ApiResponse.t :=
  ApiResponse.mk {[ "earth" := earthCoords; "mars" := marsCoords ]} "success".

(** A response whose coordinate for Mercury is not finite. *)
Definition brokenCoords : CoordinateData.t :=
  CoordinateData.mk "2024-03-01T12:00:00.000Z" nan 0.1 infinity.

Definition brokenData : ApiResponse.t :=
  ApiResponse.mk {[ "mercury" := brokenCoords ]} "success".

(** A response that puts Earth at a distance of 0.75 from the cube. *)
Definition tieData : ApiResponse.t :=
  ApiResponse.mk {[ "earth" := CoordinateData.mk "2024-03-01T12:00:00.000Z" 2.075 2 2 ]}
    "success".

(** A response that also places the sun. *)
Definition sunData : ApiResponse.t :=
  ApiResponse.mk {[ "sun" := CoordinateData.mk "2024-03-01T12:00:00.000Z" 0.5 0.25 0 ]}
    "success".

Definition mercury : PlanetData.t :=
  PlanetData.mk "mercury" "Mercury" 0.383 0x808080 (Some 7.0%float) "/textures/2k_mercury.jpg".

Definition earth : PlanetData.t :=
  PlanetData.mk "earth" "Earth" 1.0 0x0077be (Some 0.0%float) "/textures/2k_earth.jpg".

(** The scene built from [sampleData] on first mount. *)
Definition sampleScene : Scene (H := sampleHost) := buildScene (Some sampleData) None.

Definition tieScene : Scene (H := sampleHost) := buildScene (Some tieData) None.

(** What a frame returns, with a dummy value for the [TypeError] case. *)
Definition frameResult `{Host} (s : Scene) (W Ht : float) : Scene * Published :=
  default (s, mkPublished [] ∅) (animate s W Ht).

(** The ids and distances that a frame publishes, in ranking order. *)
Definition ranking `{Host} (s : Scene) (W Ht : float) : option (list (string * float)) :=
  (λ r, (λ e, (PlanetDistance.id e, PlanetDistance.distance e)) <$> distances r.2)
    <$> animate s W Ht.

(** The mounted scene before any focus command, after a click on Earth,
    and after a later click on Mars. *)
Definition sampleWorld : World (H := sampleHost) :=
  mkWorld (Some (controls sampleScene)) [] None 0.

Definition afterEarth : World (H := sampleHost) :=
  focusOnPlanet (Some sampleData) "earth" sampleWorld.


(** The flight that the click on Earth starts. *)
Definition earthFlight : Flight :=
  mkFlight (Vector3.mk 0 50 100) (Vector3.mk (-7.5) 3.75 1.6)
           (Vector3.mk 0 0 0) (Vector3.mk (-9) 3 0.1) 1700000000000.

(** A host like [sampleHost] in which [Math.pow(b, 2)] is [b * b]. *)
Definition squareHost : Host := {|
  ControlsState := unit;
  controls_init := tt;
  controls_configure := λ s, s;
  controls_update := λ c, c;
  project := λ _ v, v;
  Math_pow := λ b e, if (e =? 2)%float then (b * b)%float else (b * b * b)%float;
  Date_now := λ n, (1700000000000 + 16 * of_uint63 (Uint63.of_Z (Z.of_nat n)))%float
|}.

(** A response that puts Mercury infinitely far away (the JSON number
    [1e999] is read as [Infinity]). *)
Definition farCoords : CoordinateData.t :=
  CoordinateData.mk "2024-03-01T12:00:00.000Z" infinity 0.1 0.2.

Definition farData : ApiResponse.t :=
  ApiResponse.mk {[ "mercury" := farCoords ]} "success".

Definition farScene : Scene (H := sampleHost) := buildScene (Some farData) None.

(** [sampleScene] with the cube dragged onto Earth. *)
Definition cubeOnEarth : Scene (H := sampleHost) :=
  dragCube (Vector3.mk (-9) 3 0.1) sampleScene.

(** The flight to Earth still queued 1.6 s after its start. *)
Definition dueWorld : World (H := sampleHost) :=
  mkWorld (Some (controls sampleScene)) [earthFlight] (Some "earth") 100.

(** The mounted component showing [sampleData]. *)
Definition sampleComponent : Component (H := sampleHost) :=
  mkComponent (Some sampleData) None (Some sampleScene).

(** A host whose [controls.update()] puts the camera at the target plus
    the offset [position - target], as [OrbitControls.update] does with the
    offset that it has taken through spherical coordinates (a step taken to
    be exact here), and a mounted component in it whose camera the user has
    moved to (0.1, 0, 0), looking at (3, 0, 0). *)
Definition driftHost : Host := {|
  ControlsState := unit;
  controls_init := tt;
  controls_configure := λ s, s;
  controls_update := λ c,
    let p := OrbitControls.object_position c in
    let t := OrbitControls.target c in
    OrbitControls.mk
      (Vector3.mk (Vector3.x t + (Vector3.x p - Vector3.x t))
                  (Vector3.y t + (Vector3.y p - Vector3.y t))
                  (Vector3.z t + (Vector3.z p - Vector3.z t)))%float
      t (OrbitControls.state c);
  project := λ _ v, v;
  Math_pow := λ b _, (b * b * b)%float;
  Date_now := λ n, (1700000000000 + 16 * of_uint63 (Uint63.of_Z (Z.of_nat n)))%float
|}.

Definition driftComponent : Component (H := driftHost) :=
  moveCamera (Vector3.mk 0.1 0 0) (Vector3.mk 3 0 0)
    (sceneEffect (mkComponent (Some sampleData) None None)).

(** A host like [sampleHost] whose clock stands still, and a mounted scene
    in it. *)
Definition frozenHost : Host := {|
  ControlsState := unit;
  controls_init := tt;
  controls_configure := λ s, s;
  controls_update := λ c, c;
  project := λ _ v, v;
  Math_pow := λ b _, (b * b * b)%float;
  Date_now := λ _, 1700000000000%float
|}.

Definition frozenControls : OrbitControls.t (ControlsState (Host := frozenHost)) :=
  OrbitControls.mk (Vector3.mk 0 50 100) Vector3.zero tt.

Definition frozenWorld : World (H := frozenHost) :=
  mkWorld (Some frozenControls) [] None 0.

(* ================================================================= *)
(** * Part II: facts about binary64 arithmetic *)
(* ================================================================= *)

Module IEEE.
Local Open Scope Z_scope.

Lemma digits2_pos_lower (m : positive) : 2 ^ (Z.pos (digits2_pos m) - 1) <= Z.pos m.
Proof.
  induction m as [m IH|m IH|]; simpl digits2_pos.
  - rewrite Pos2Z.inj_succ.
    replace (Z.succ (Z.pos (digits2_pos m)) - 1) with (Z.succ (Z.pos (digits2_pos m) - 1)) by lia.
    rewrite Z.pow_succ_r by lia. lia.
  - rewrite Pos2Z.inj_succ.
    replace (Z.succ (Z.pos (digits2_pos m)) - 1) with (Z.succ (Z.pos (digits2_pos m) - 1)) by lia.
    rewrite Z.pow_succ_r by lia. lia.
  - simpl. lia.
Qed.

Lemma digits2_pos_upper (m : positive) : Z.pos m < 2 ^ Z.pos (digits2_pos m).
Proof.
  induction m as [m IH|m IH|]; simpl digits2_pos.
  - rewrite Pos2Z.inj_succ, Z.pow_succ_r by lia. lia.
  - rewrite Pos2Z.inj_succ, Z.pow_succ_r by lia. lia.
  - simpl. lia.
Qed.

(** One right shift halves a non-negative mantissa. *)
Lemma shr_1_m (mrs : shr_record) :
  0 <= shr_m mrs -> shr_m (shr_1 mrs) = shr_m mrs / 2.
Proof.
  destruct mrs as [m r s]; simpl. intros Hm.
  destruct m as [|p|p]; [reflexivity| |lia].
  destruct p as [p|p|]; simpl.
  - rewrite Pos2Z.inj_xI. apply Z.div_unique with 1; lia.
  - rewrite Pos2Z.inj_xO. apply Z.div_unique with 0; lia.
  - reflexivity.
Qed.

Lemma pow2_xO (p : positive) : 2 ^ Z.pos p~0 = 2 ^ Z.pos p * 2 ^ Z.pos p.
Proof.
  rewrite (Pos2Z.inj_xO p). replace (2 * Z.pos p) with (Z.pos p + Z.pos p) by lia.
  apply Z.pow_add_r; lia.
Qed.

Lemma pow2_xI (p : positive) : 2 ^ Z.pos p~1 = 2 * (2 ^ Z.pos p * 2 ^ Z.pos p).
Proof.
  rewrite (Pos2Z.inj_xI p). replace (2 * Z.pos p + 1) with (Z.succ (Z.pos p + Z.pos p)) by lia.
  rewrite Z.pow_succ_r, Z.pow_add_r by lia. reflexivity.
Qed.

Lemma iter_pos_shr_1_m (p : positive) : forall mrs,
  0 <= shr_m mrs -> shr_m (SpecFloat.iter_pos shr_1 p mrs) = shr_m mrs / 2 ^ Z.pos p.
Proof.
  induction p as [p IH|p IH|]; intros mrs Hm; simpl SpecFloat.iter_pos.
  - assert (Hp : 0 < 2 ^ Z.pos p) by (apply Z.pow_pos_nonneg; lia).
    assert (H1 : 0 <= shr_m (shr_1 mrs)) by (rewrite shr_1_m by done; apply Z.div_pos; lia).
    assert (H2 : 0 <= shr_m (SpecFloat.iter_pos shr_1 p (shr_1 mrs))) by (rewrite IH by done; apply Z.div_pos; lia).
    rewrite IH, IH, shr_1_m by done.
    rewrite !Z.div_div by lia. by rewrite pow2_xI.
  - assert (Hp : 0 < 2 ^ Z.pos p) by (apply Z.pow_pos_nonneg; lia).
    assert (H2 : 0 <= shr_m (SpecFloat.iter_pos shr_1 p mrs)) by (rewrite IH by done; apply Z.div_pos; lia).
    rewrite IH, IH by done.
    rewrite !Z.div_div by lia. by rewrite pow2_xO.
  - rewrite shr_1_m by done. reflexivity.
Qed.

Lemma shr_record_of_loc_m (m : Z) (l : location) : shr_m (shr_record_of_loc m l) = m.
Proof. by destruct l as [|[]]. Qed.

Lemma fexp_eq (k : Z) : fexp prec emax k = Z.max (k - 53) (-1074).
Proof. reflexivity. Qed.

(** Shifting a positive mantissa to its target exponent never loses all of
    its bits, provided the exponent is not below [emin]. *)
Lemma shr_fexp_pos (q : positive) (e : Z) (l : location) :
  -1074 <= e ->
  0 < shr_m (fst (shr_fexp prec emax (Z.pos q) e l)) /\
  -1074 <= snd (shr_fexp prec emax (Z.pos q) e l).
Proof.
  intros He. unfold shr_fexp, shr. rewrite fexp_eq. simpl Zdigits2.
  pose proof (digits2_pos_lower q) as Hlo.
  destruct (Z.max (Z.pos (digits2_pos q) + e - 53) (-1074) - e) as [|p|p] eqn:Hn; simpl fst; simpl snd.
  - rewrite shr_record_of_loc_m. lia.
  - rewrite iter_pos_shr_1_m by (rewrite shr_record_of_loc_m; lia).
    rewrite shr_record_of_loc_m. split; [|lia].
    apply Z.div_str_pos. split; [apply Z.pow_pos_nonneg; lia|].
    etransitivity; [|exact Hlo]. apply Z.pow_le_mono_r; lia.
  - rewrite shr_record_of_loc_m. lia.
Qed.

Lemma round_nearest_even_ge (m : Z) (l : location) : m <= round_nearest_even m l.
Proof. destruct l as [|[]]; simpl; try lia. destruct (Z.even m); lia. Qed.

(** Rounding a positive mantissa at an exponent above [emin] yields a finite
    number or an infinity carrying the given sign: never a zero, never NaN. *)
Lemma binary_round_aux_sign (sx : bool) (q : positive) (e : Z) (l : location) :
  -1074 <= e ->
  (exists m' e', binary_round_aux prec emax sx (Z.pos q) e l = S754_finite sx m' e') \/
  binary_round_aux prec emax sx (Z.pos q) e l = S754_infinity sx.
Proof.
  intros He. unfold binary_round_aux.
  destruct (shr_fexp_pos q e l He) as [Hm He'].
  destruct (shr_fexp prec emax (Z.pos q) e l) as [mrs' e'] eqn:H1. simpl in Hm, He'.
  pose proof (round_nearest_even_ge (shr_m mrs') (loc_of_shr_record mrs')) as Hr.
  destruct (round_nearest_even (shr_m mrs') (loc_of_shr_record mrs')) as [|r|r] eqn:Hre; try lia.
  destruct (shr_fexp_pos r e' loc_Exact He') as [Hm2 _].
  destruct (shr_fexp prec emax (Z.pos r) e' loc_Exact) as [mrs'' e''] eqn:H2. simpl in Hm2.
  destruct (shr_m mrs'') as [|m''|m'']; try lia.
  destruct (e'' <=? emax - prec); eauto.
Qed.

Lemma shl_align_fst (mx : positive) (ex ez : Z) :
  ez <= ex -> Z.pos (fst (shl_align mx ex ez)) = Z.pos mx * 2 ^ (ex - ez).
Proof.
  intros H. unfold shl_align.
  destruct (ez - ex) as [|d|d] eqn:Hd; simpl fst.
  - replace (ex - ez) with 0 by lia. simpl. lia.
  - lia.
  - replace (ex - ez) with (Z.pos d) by lia.
    rewrite (Pos.iter_swap_gen _ _ Z.pos xO (Z.mul 2)) by reflexivity.
    clear. revert mx. induction d using Pos.peano_ind; intros mx.
    + simpl. lia.
    + rewrite Pos.iter_succ, Pos2Z.inj_succ, Z.pow_succ_r, IHd by lia. lia.
Qed.

Lemma binary_round_sign (sx : bool) (q : positive) (e : Z) :
  -1074 <= e ->
  (exists m' e', binary_round prec emax sx q e = S754_finite sx m' e') \/
  binary_round prec emax sx q e = S754_infinity sx.
Proof.
  intros He. unfold binary_round.
  destruct (shl_align q e (fexp prec emax (Z.pos (digits2_pos q) + e))) as [mz ez] eqn:Hs.
  apply binary_round_aux_sign.
  assert (ez = snd (shl_align q e (fexp prec emax (Z.pos (digits2_pos q) + e)))) as -> by (by rewrite Hs).
  unfold shl_align. rewrite fexp_eq.
  destruct (Z.max (Z.pos (digits2_pos q) + e - 53) (-1074) - e) eqn:Hd; simpl snd; lia.
Qed.

Lemma valid_finite (s : bool) (m : positive) (e : Z) :
  valid_binary (S754_finite s m e) = true ->
  -1074 <= e <= 971 /\ Z.pos (digits2_pos m) <= 53 /\
  (-1074 < e -> Z.pos (digits2_pos m) = 53).
Proof.
  unfold SpecFloat.valid_binary, bounded, canonical_mantissa. rewrite fexp_eq.
  intros H. apply andb_prop in H as [H1 H2].
  apply Z.eqb_eq in H1. apply Z.leb_le in H2.
  change (emax - prec) with 971 in H2. lia.
Qed.

Lemma valid_finite_lt (s : bool) (m : positive) (e : Z) :
  valid_binary (S754_finite s m e) = true -> Z.pos m < 2 ^ 53.
Proof.
  intros H. apply valid_finite in H as (_ & Hd & _).
  eapply Z.lt_le_trans; [apply digits2_pos_upper|]. apply Z.pow_le_mono_r; lia.
Qed.

Lemma valid_normal_ge (s : bool) (m : positive) (e : Z) :
  valid_binary (S754_finite s m e) = true -> -1074 < e -> 2 ^ 52 <= Z.pos m.
Proof.
  intros H He. apply valid_finite in H as (_ & _ & Hd).
  pose proof (digits2_pos_lower m) as Hlo. rewrite Hd in Hlo by done. exact Hlo.
Qed.

(** The mantissa of a finite number aligned to exponent [ez], with its sign. *)
Definition aligned (s : bool) (m : positive) (e ez : Z) : Z :=
  cond_Zopp s (Z.pos (fst (shl_align m e ez))).

Lemma aligned_eq (s : bool) (m : positive) (e ez : Z) :
  ez <= e -> aligned s m e ez = cond_Zopp s (Z.pos m * 2 ^ (e - ez)).
Proof. intros H. unfold aligned. by rewrite shl_align_fst. Qed.

Lemma scaled_lt (m1 m2 : positive) (k : Z) :
  Z.pos m1 < 2 ^ 53 -> 2 ^ 52 <= Z.pos m2 -> 0 < k ->
  Z.pos m1 < Z.pos m2 * 2 ^ k.
Proof.
  intros H1 H2 Hk.
  assert (2 ^ 1 <= 2 ^ k) as Hp by (apply Z.pow_le_mono_r; lia).
  change (2 ^ 1) with 2 in Hp. change (2 ^ 53) with (2 ^ 52 * 2) in H1. nia.
Qed.

(** On valid finite numbers, [SFcompare] is the comparison of the aligned
    signed mantissas, i.e. of the real values. *)
Lemma SFcompare_finite (sx sy : bool) (mx my : positive) (ex ey : Z) :
  valid_binary (S754_finite sx mx ex) = true ->
  valid_binary (S754_finite sy my ey) = true ->
  SFcompare (S754_finite sx mx ex) (S754_finite sy my ey) =
  Some (aligned sx mx ex (Z.min ex ey) ?= aligned sy my ey (Z.min ex ey)).
Proof.
  intros Hx Hy.
  pose proof (valid_finite_lt _ _ _ Hx) as Hxu.
  pose proof (valid_finite_lt _ _ _ Hy) as Hyu.
  pose proof (valid_normal_ge _ _ _ Hx) as Hxl.
  pose proof (valid_normal_ge _ _ _ Hy) as Hyl.
  apply valid_finite in Hx as (Hex & _). apply valid_finite in Hy as (Hey & _).
  rewrite !aligned_eq by lia. simpl SFcompare. f_equal.
  destruct (Z.compare_spec ex ey) as [He|He|He].
  - subst ey. rewrite Z.min_id, Z.sub_diag. change (2 ^ 0) with 1. rewrite !Z.mul_1_r.
    by destruct sx, sy.
  - rewrite Z.min_l by lia. rewrite Z.sub_diag. change (2 ^ 0) with 1. rewrite Z.mul_1_r.
    assert (Z.pos mx < Z.pos my * 2 ^ (ey - ex)) as Hlt by (apply scaled_lt; [done|apply Hyl; lia|lia]).
    destruct sx, sy; unfold cond_Zopp; cbv beta iota; symmetry.
    + apply Z.compare_gt_iff. lia.
    + apply Z.compare_lt_iff. lia.
    + apply Z.compare_gt_iff. lia.
    + apply Z.compare_lt_iff. lia.
  - rewrite Z.min_r by lia. rewrite Z.sub_diag. change (2 ^ 0) with 1. rewrite Z.mul_1_r.
    assert (Z.pos my < Z.pos mx * 2 ^ (ex - ey)) as Hlt by (apply scaled_lt; [done|apply Hxl; lia|lia]).
    destruct sx, sy; unfold cond_Zopp; cbv beta iota; symmetry.
    + apply Z.compare_lt_iff. lia.
    + apply Z.compare_lt_iff. lia.
    + apply Z.compare_gt_iff. lia.
    + apply Z.compare_gt_iff. lia.
Qed.

Lemma binary_normalize_sign (D e : Z) :
  -1074 <= e ->
  SFcompare (binary_normalize prec emax D e false) (S754_zero false) = Some (D ?= 0).
Proof.
  intros He. destruct D as [|d|d]; simpl binary_normalize.
  - reflexivity.
  - destruct (binary_round_sign false d e He) as [(m' & e' & ->)| ->]; reflexivity.
  - destruct (binary_round_sign true d e He) as [(m' & e' & ->)| ->]; reflexivity.
Qed.

Lemma SFcompare_antisym (x y : spec_float) :
  SFcompare y x = option_map CompOpp (SFcompare x y).
Proof.
  destruct x as [sx|sx| |sx mx ex], y as [sy|sy| |sy my ey]; simpl;
    try reflexivity; try (by destruct sx); try (by destruct sy); try (by destruct sx, sy).
  f_equal. rewrite (Z.compare_antisym ex ey).
  change (Pos.compare_cont Eq my mx) with (my ?= mx)%positive.
  change (Pos.compare_cont Eq mx my) with (mx ?= my)%positive.
  rewrite (Pos.compare_antisym mx my).
  destruct sx, sy, (ex ?= ey), (mx ?= my)%positive; reflexivity.
Qed.

(** The sign of a floating-point difference is the sign of the exact
    difference: subtraction never rounds a non-zero difference to zero. *)
Lemma SFsub_compare (x y : spec_float) :
  valid_binary x = true -> valid_binary y = true ->
  SFcompare (SF64sub x y) (S754_zero false) =
  match SFcompare x y with
  | Some c => Some c
  | None => None
  end \/ (SF64sub x y = S754_nan /\ SFcompare x y = Some Eq).
Proof.
  intros Hx Hy.
  destruct x as [sx|sx| |sx mx ex], y as [sy|sy| |sy my ey];
    try (left; reflexivity);
    try (left; by destruct sx); try (left; by destruct sy);
    try (left; by destruct sx, sy).
  - destruct sx, sy; simpl; auto.
  - left. unfold SF64sub, SFsub.
    rewrite binary_normalize_sign.
    2:{ apply valid_finite in Hx as (? & _). apply valid_finite in Hy as (? & _). lia. }
    rewrite (SFcompare_finite _ _ _ _ _ _ Hx Hy). unfold aligned.
    f_equal. symmetry. apply Z.compare_sub.
Qed.

Lemma Prim2SF_zero : Prim2SF 0%float = S754_zero false.
Proof. reflexivity. Qed.

Lemma sub_pos (a b : float) : (0 <? a - b)%float = (b <? a)%float.
Proof.
  rewrite !FloatAxioms.ltb_spec, sub_spec, Prim2SF_zero. unfold SFltb.
  rewrite (SFcompare_antisym (SF64sub _ _)), (SFcompare_antisym (Prim2SF a) (Prim2SF b)).
  destruct (SFsub_compare _ _ (Prim2SF_valid a) (Prim2SF_valid b)) as [->|[-> ->]].
  - by destruct (SFcompare (Prim2SF a) (Prim2SF b)) as [[]|].
  - reflexivity.
Qed.

Lemma sub_neg (a b : float) : (a - b <? 0)%float = (a <? b)%float.
Proof.
  rewrite !FloatAxioms.ltb_spec, sub_spec, Prim2SF_zero. unfold SFltb.
  destruct (SFsub_compare _ _ (Prim2SF_valid a) (Prim2SF_valid b)) as [->|[-> ->]].
  - by destruct (SFcompare (Prim2SF a) (Prim2SF b)) as [[]|].
  - reflexivity.
Qed.

(** An order embedding of the non-NaN binary64 numbers into [Z]: the usual
    reading of sign, exponent and mantissa as one integer. *)
Definition SFord (x : spec_float) : Z :=
  match x with
  | S754_zero _ => 0
  | S754_finite s m e => cond_Zopp s ((e + 1075) * 9007199254740992 + Z.pos m)
  | S754_infinity s => cond_Zopp s (3000 * 9007199254740992)
  | S754_nan => 0
  end.

Ltac zcmp :=
  first [ apply Z.compare_eq_iff; lia
        | apply Z.compare_lt_iff; lia
        | apply Z.compare_gt_iff; lia ].

Lemma SFcompare_ord (x y : spec_float) :
  valid_binary x = true -> valid_binary y = true ->
  x <> S754_nan -> y <> S754_nan ->
  SFcompare x y = Some (SFord x ?= SFord y).
Proof.
  intros Hx Hy Nx Ny.
  assert (forall s m e, valid_binary (S754_finite s m e) = true ->
            -1074 <= e <= 971 /\ Z.pos m < 9007199254740992) as Hv.
  { intros s m e H. split; [by apply valid_finite in H as (? & _)|].
    by apply valid_finite_lt in H. }
  destruct x as [sx|sx| |sx mx ex], y as [sy|sy| |sy my ey]; try done;
    try apply Hv in Hx; try apply Hv in Hy;
    cbn [SFcompare SFord]; f_equal; symmetry.
  all: try (destruct sx; try destruct sy; cbn [cond_Zopp]; zcmp).
  change (Pos.compare_cont Eq mx my) with (mx ?= my)%positive.
  destruct (Z.compare_spec ex ey) as [He|He|He];
    destruct (Pos.compare_spec mx my) as [Hm|Hm|Hm];
    destruct sx, sy; cbn [cond_Zopp CompOpp]; zcmp.
Qed.

Definition float_key (a : float) : Z := SFord (Prim2SF a).

Lemma SFcompare_refl (x : spec_float) : x <> S754_nan -> SFcompare x x = Some Eq.
Proof.
  destruct x as [s|s| |s m e]; try done; intros _; simpl; try (by destruct s).
  rewrite Z.compare_refl. change (Pos.compare_cont Eq m m) with (m ?= m)%positive.
  rewrite Pos.compare_refl. by destruct s.
Qed.

Lemma is_nan_Prim2SF (a : float) : is_nan a = true <-> Prim2SF a = S754_nan.
Proof.
  unfold is_nan. rewrite FloatAxioms.eqb_spec. unfold SFeqb. split.
  - intros H. destruct (Prim2SF a) as [s|s| |s m e] eqn:E; try done;
      rewrite SFcompare_refl in H; done.
  - by intros ->.
Qed.

Lemma not_nan_Prim2SF (a : float) : is_nan a = false <-> Prim2SF a <> S754_nan.
Proof.
  rewrite <- is_nan_Prim2SF. destruct (is_nan a); split; try done; intros H; by destruct H.

Qed.

Lemma compare_key (a b : float) :
  is_nan a = false -> is_nan b = false ->
  SFcompare (Prim2SF a) (Prim2SF b) = Some (float_key a ?= float_key b).
Proof.
  intros Ha Hb. apply SFcompare_ord; auto using Prim2SF_valid; by apply not_nan_Prim2SF.
Qed.

Lemma ltb_key (a b : float) :
  is_nan a = false -> is_nan b = false -> (a <? b)%float = (float_key a <? float_key b).
Proof. intros Ha Hb. rewrite FloatAxioms.ltb_spec. unfold SFltb, Z.ltb. by rewrite compare_key. Qed.

Lemma leb_key (a b : float) :
  is_nan a = false -> is_nan b = false -> (a <=? b)%float = (float_key a <=? float_key b).
Proof.
  intros Ha Hb. rewrite FloatAxioms.leb_spec. unfold SFleb, Z.leb. rewrite compare_key by done.
  by destruct (float_key a ?= float_key b).
Qed.

Lemma eqb_key (a b : float) :
  is_nan a = false -> is_nan b = false -> (a =? b)%float = (float_key a =? float_key b).
Proof.
  intros Ha Hb. rewrite FloatAxioms.eqb_spec. unfold SFeqb. rewrite compare_key by done.
  destruct (Z.compare_spec (float_key a) (float_key b)) as [E|E|E]; symmetry.
  - by apply Z.eqb_eq.
  - apply Z.eqb_neq. lia.
  - apply Z.eqb_neq. lia.
Qed.

(** *** Classification through [Prim2SF] *)

Lemma is_zero_Prim2SF (a : float) :
  is_zero a = true <-> exists s, Prim2SF a = S754_zero s.
Proof.
  unfold is_zero. rewrite FloatAxioms.eqb_spec. change (Prim2SF zero) with (S754_zero false).
  unfold SFeqb. split.
  - destruct (Prim2SF a) as [s|s| |s m e]; simpl; try done; eauto; by destruct s.
  - by intros [s ->].
Qed.

Lemma is_infinity_Prim2SF (a : float) :
  is_infinity a = true <-> exists s, Prim2SF a = S754_infinity s.
Proof.
  unfold is_infinity. rewrite FloatAxioms.eqb_spec, abs_spec.
  change (Prim2SF infinity) with (S754_infinity false).
  unfold SFeqb. split.
  - destruct (Prim2SF a) as [s|s| |s m e]; simpl; try done; eauto.
  - by intros [s ->].
Qed.

Lemma is_finite_Prim2SF (a : float) :
  is_finite a = true <->
  (exists s, Prim2SF a = S754_zero s) \/ (exists s m e, Prim2SF a = S754_finite s m e).
Proof.
  unfold is_finite. rewrite negb_true_iff, orb_false_iff.
  rewrite not_nan_Prim2SF, <- not_true_iff_false, is_infinity_Prim2SF.
  destruct (Prim2SF a) as [s|s| |s m e].
  - split; [eauto|intros _; split; [done|intros [? ?]; done]].
  - split; [intros [_ Hn]; destruct Hn; eauto|intros [[? ?]|(? & ? & ? & ?)]; done].
  - split; [intros [Hn _]; done|intros [[? ?]|(? & ? & ? & ?)]; done].
  - split; [eauto 6|intros _; split; [done|intros [? ?]; done]].
Qed.

Lemma is_finite_not_nan (a : float) : is_finite a = true -> is_nan a = false.
Proof. unfold is_finite. rewrite negb_true_iff, orb_false_iff. tauto. Qed.

(** *** Multiplication by the scale factor *)

Lemma mul_nan_l (a b : float) : is_nan a = true -> is_nan (a * b) = true.
Proof.
  rewrite !is_nan_Prim2SF, mul_spec. by intros ->.
Qed.

Lemma mul_infinity_10 (a : float) : is_infinity a = true -> (a * 10)%float = a.
Proof.
  rewrite is_infinity_Prim2SF. intros [s Ha]. apply Prim2SF_inj.
  rewrite mul_spec, Ha.
  change (Prim2SF 10) with (S754_finite false 5629499534213120 (-49)).
  by destruct s.
Qed.

(** *** Zero as a neutral element, up to the sign of zero *)

Lemma mul_zero_r (d : float) : is_finite d = true -> is_zero (d * 0) = true.
Proof.
  rewrite is_finite_Prim2SF, is_zero_Prim2SF, mul_spec, Prim2SF_zero.
  intros [[s ->]|(s & m & e & ->)]; simpl; eauto.
Qed.

Lemma add_zero_r (a z : float) :
  is_nan a = false -> is_zero z = true -> (a + z =? a)%float = true.
Proof.
  rewrite not_nan_Prim2SF, is_zero_Prim2SF. intros Ha [s Hz].
  rewrite FloatAxioms.eqb_spec, add_spec, Hz. unfold SFeqb.
  destruct (Prim2SF a) as [sa|sa| |sa m e] eqn:E; try done.
  - by destruct sa, s.
  - simpl. by destruct sa.
  - unfold SF64add, SFadd. by rewrite SFcompare_refl.
Qed.

Lemma sub_zero_r (a p : float) :
  is_finite a = true -> is_zero a = false -> is_zero p = true -> (a - p)%float = a.
Proof.
  rewrite is_finite_Prim2SF, <- not_true_iff_false, !is_zero_Prim2SF.
  intros [[s Ha]|(s & m & e & Ha)] Hnz [sp Hp]; [destruct Hnz; eauto|].
  apply Prim2SF_inj. by rewrite sub_spec, Ha, Hp.
Qed.

Lemma sub_finite_operands (a b : float) :
  is_finite (a - b) = true -> is_finite a = true /\ is_finite b = true.
Proof.
  rewrite !is_finite_Prim2SF, sub_spec.
  destruct (Prim2SF a) as [sa|sa| |sa ma ea], (Prim2SF b) as [sb|sb| |sb mb eb];
    simpl; intros [[? ?]|(? & ? & ? & ?)]; try done; eauto 10;
    destruct sa, sb; done.
Qed.

Lemma sub_diag (a : float) : is_finite a = true -> (a - a)%float = 0%float.
Proof.
  rewrite is_finite_Prim2SF. intros Ha. apply Prim2SF_inj.
  rewrite sub_spec, Prim2SF_zero.
  destruct Ha as [[s ->]|(s & m & e & ->)]; [by destruct s|].
  unfold SF64sub, SFsub. by rewrite Z.sub_diag.
Qed.

(** *** Operations that never produce NaN *)

(** "Not NaN and not negative": a zero of either sign, a positive finite
    number or [+infinity]. *)
Definition SFnonneg (x : spec_float) : Prop :=
  match x with
  | S754_zero _ | S754_finite false _ _ | S754_infinity false => True
  | _ => False
  end.

Lemma shr_fexp_nonneg (m e : Z) (l : location) :
  0 <= m -> 0 <= shr_m (fst (shr_fexp prec emax m e l)).
Proof.
  intros Hm. unfold shr_fexp, shr.
  destruct (fexp prec emax (Zdigits2 m + e) - e) as [|p|p]; simpl fst;
    rewrite ?shr_record_of_loc_m; try done.
  rewrite iter_pos_shr_1_m by (by rewrite shr_record_of_loc_m).
  rewrite shr_record_of_loc_m. apply Z.div_pos; [done|]. apply Z.pow_pos_nonneg; lia.
Qed.

(** Rounding a non-negative mantissa gives a zero, a finite number or an
    infinity of the requested sign. *)
Lemma binary_round_aux_cases (sx : bool) (mx ex : Z) (lx : location) :
  0 <= mx ->
  binary_round_aux prec emax sx mx ex lx = S754_zero sx \/
  (exists m e, binary_round_aux prec emax sx mx ex lx = S754_finite sx m e) \/
  binary_round_aux prec emax sx mx ex lx = S754_infinity sx.
Proof.
  intros Hm. unfold binary_round_aux.
  pose proof (shr_fexp_nonneg mx ex lx Hm) as H1.
  destruct (shr_fexp prec emax mx ex lx) as [mrs' e']. simpl in H1.
  pose proof (round_nearest_even_ge (shr_m mrs') (loc_of_shr_record mrs')) as Hr.
  pose proof (shr_fexp_nonneg (round_nearest_even (shr_m mrs') (loc_of_shr_record mrs'))
                e' loc_Exact ltac:(lia)) as H2.
  destruct (shr_fexp prec emax _ e' loc_Exact) as [mrs'' e'']. simpl in H2.
  destruct (shr_m mrs'') as [|m''|m'']; [auto| |lia].
  destruct (e'' <=? emax - prec); eauto.
Qed.

Lemma binary_round_cases (sx : bool) (mx : positive) (ex : Z) :
  binary_round prec emax sx mx ex = S754_zero sx \/
  (exists m e, binary_round prec emax sx mx ex = S754_finite sx m e) \/
  binary_round prec emax sx mx ex = S754_infinity sx.
Proof.
  unfold binary_round. destruct (shl_align mx ex _) as [mz ez].
  by apply binary_round_aux_cases.
Qed.

Lemma binary_round_not_nan (sx : bool) (mx : positive) (ex : Z) :
  binary_round prec emax sx mx ex <> S754_nan.
Proof.
  destruct (binary_round_cases sx mx ex) as [->|[(m & e & ->)| ->]]; done.
Qed.

Lemma binary_normalize_not_nan (m e : Z) (s : bool) :
  binary_normalize prec emax m e s <> S754_nan.
Proof. destruct m; simpl; [done|apply binary_round_not_nan..]. Qed.

Lemma binary_round_aux_nonneg (mx ex : Z) (lx : location) :
  0 <= mx -> SFnonneg (binary_round_aux prec emax false mx ex lx).
Proof.
  intros Hm.
  destruct (binary_round_aux_cases false mx ex lx Hm) as [->|[(m & e & ->)| ->]]; done.
Qed.

Lemma nonneg_Prim2SF (a : float) : (0 <=? a)%float = true <-> SFnonneg (Prim2SF a).
Proof.
  rewrite FloatAxioms.leb_spec, Prim2SF_zero. unfold SFleb.
  destruct (Prim2SF a) as [s|[]| |[] m e]; simpl; split; done.
Qed.

Lemma nonneg_not_nan (a : float) : (0 <=? a)%float = true -> is_nan a = false.
Proof.
  rewrite nonneg_Prim2SF, not_nan_Prim2SF. by destruct (Prim2SF a).
Qed.

(** [finite - b] is NaN only if [b] is. *)
Lemma sub_not_nan (a b : float) :
  is_finite a = true -> is_nan b = false -> is_nan (a - b) = false.
Proof.
  rewrite is_finite_Prim2SF, !not_nan_Prim2SF, sub_spec. intros Ha Hb.
  destruct Ha as [[sa ->]|(sa & ma & ea & ->)];
    destruct (Prim2SF b) as [sb|sb| |sb mb eb]; try done; simpl;
    try (by destruct sa, sb).
  apply binary_normalize_not_nan.
Qed.

(** A square is never NaN, and never negative, unless its argument is NaN. *)
Lemma square_nonneg (d : float) : is_nan d = false -> (0 <=? d * d)%float = true.
Proof.
  rewrite not_nan_Prim2SF, nonneg_Prim2SF, mul_spec. intros Hd.
  destruct (Prim2SF d) as [s|s| |s m e]; try done; simpl.
  - by destruct s.
  - unfold SF64mul, SFmul. rewrite xorb_nilpotent. by apply binary_round_aux_nonneg.
Qed.

Lemma add_nonneg (a b : float) :
  (0 <=? a)%float = true -> (0 <=? b)%float = true -> (0 <=? a + b)%float = true.
Proof.
  rewrite !nonneg_Prim2SF, add_spec.
  destruct (Prim2SF a) as [sa|[]| |[] ma ea], (Prim2SF b) as [sb|[]| |[] mb eb];
    try done; simpl; intros _ _; try (by destruct sa); try (by destruct sa, sb).
  unfold binary_normalize. simpl.
  destruct (binary_round_cases false
    (fst (shl_align ma ea (Z.min ea eb)) + fst (shl_align mb eb (Z.min ea eb))) (Z.min ea eb))
    as [->|[(m & e & ->)| ->]]; done.
Qed.

Lemma sqrt_nonneg (a : float) : (0 <=? a)%float = true -> (0 <=? sqrt a)%float = true.
Proof.
  rewrite !nonneg_Prim2SF, sqrt_spec.
  destruct (Prim2SF a) as [sa|[]| |[] ma ea]; try done; intros _.
  unfold SF64sqrt, SFsqrt.
  destruct (SFsqrt_core_binary prec emax (Z.pos ma) ea) as [[mz ez] lz] eqn:E.
  apply binary_round_aux_nonneg.
  unfold SFsqrt_core_binary in E.
  destruct (Z.sqrtrem _) as [q r] eqn:Hq in E. injection E as <- _ _.
  assert (q = fst (Z.sqrtrem
    match ea - 2 * Z.min (fexp prec emax (Z.div2 (Zdigits2 (Z.pos ma) + ea + 1))) (Z.div2 ea) with
    | 0 => Z.pos ma
    | Z.pos _ => Z.shiftl (Z.pos ma)
        (ea - 2 * Z.min (fexp prec emax (Z.div2 (Zdigits2 (Z.pos ma) + ea + 1))) (Z.div2 ea))
    | Z.neg _ => 0
    end)) as -> by (by rewrite Hq).
  rewrite Z.sqrtrem_sqrt. apply Z.sqrt_nonneg.
Qed.

Lemma div_10_nonneg (a : float) : (0 <=? a)%float = true -> (0 <=? a / 10)%float = true.
Proof.
  rewrite !nonneg_Prim2SF, div_spec.
  change (Prim2SF 10) with (S754_finite false 5629499534213120 (-49)).
  destruct (Prim2SF a) as [sa|[]| |[] ma ea]; try done; intros _; try (by simpl).
  unfold SF64div, SFdiv.
  destruct (SFdiv_core_binary prec emax (Z.pos ma) ea 5629499534213120 (-49))
    as [[mz ez] lz] eqn:E.
  apply binary_round_aux_nonneg.
  unfold SFdiv_core_binary in E.
  destruct (Z.div_eucl _ _) as [q r] eqn:Hq in E. injection E as <- _ _.
  match type of Hq with Z.div_eucl ?n ?d = _ =>
    assert (q = n / d) as -> by (unfold Z.div; by rewrite Hq);
    apply Z.div_pos; [|lia];
    destruct (ea - -49 - _); [lia| |lia]
  end.
  apply Z.shiftl_nonneg. lia.
Qed.

(** Reading a sign, a mantissa and an exponent back as a Number never
    gives NaN. *)
Lemma SF2Prim_finite_not_nan (s : bool) (m : positive) (e : Z) :
  is_nan (SF2Prim (S754_finite s m e)) = false.
Proof.
  assert (forall f, Prim2SF f <> S754_nan -> Prim2SF (Z.ldexp f e) <> S754_nan) as Hld.
  { intros f Hf. rewrite Z_ldexp_spec. unfold SFldexp.
    destruct (Prim2SF f); try done. apply binary_round_not_nan. }
  assert (Prim2SF (of_uint63 (Uint63.of_Z (Z.pos m))) <> S754_nan) as Hm.
  { rewrite of_uint63_spec. apply binary_normalize_not_nan. }
  unfold SF2Prim. apply not_nan_Prim2SF.
  destruct s; [rewrite opp_spec|]; specialize (Hld _ Hm);
    destruct (Prim2SF (Z.ldexp _ e)); done.
Qed.

Lemma toFixed_n_nonneg (m : positive) (e : Z) : 0 <= JS.toFixed_n m e.
Proof.
  unfold JS.toFixed_n. destruct (0 <=? e) eqn:He.
  - apply Z.leb_le in He. assert (0 < 2 ^ e) by (apply Z.pow_pos_nonneg; lia). nia.
  - apply Z.leb_gt in He.
    assert (0 < 2 ^ (- e)) by (apply Z.pow_pos_nonneg; lia).
    assert (0 < 2 ^ (1 - e)) by (apply Z.pow_pos_nonneg; lia).
    apply Z.div_pos; lia.
Qed.

Lemma Number_of_hundredths_not_nan (s : bool) (n : Z) :
  0 <= n -> is_nan (JS.Number_of_hundredths s n) = false.
Proof.
  intros Hn. unfold JS.Number_of_hundredths.
  destruct n as [|p|p]; [by destruct s| |lia].
  unfold SFdiv.
  destruct (SFdiv_core_binary prec emax (Z.pos p) 0 100 0) as [[mz ez] lz] eqn:E.
  assert (0 <= mz) as Hmz.
  { unfold SFdiv_core_binary in E.
    destruct (Z.div_eucl _ _) as [q r] eqn:Hq in E. injection E as <- _ _.
    match type of Hq with Z.div_eucl ?a ?d = _ =>
      assert (q = a / d) as -> by (unfold Z.div; by rewrite Hq);
      apply Z.div_pos; [|lia];
      destruct (0 - 0 - _); [lia| |lia]
    end.
    apply Z.shiftl_nonneg. lia. }
  destruct (binary_round_aux_cases (xorb s false) mz ez lz Hmz) as [->|[(m' & e' & ->)| ->]].
  - by destruct s.
  - apply SF2Prim_finite_not_nan.
  - by destruct s.
Qed.

Lemma Number_toFixed2_not_nan (q : float) :
  is_nan q = false -> is_nan (JS.Number_toFixed2 q) = false.
Proof.
  intros Hq. unfold JS.Number_toFixed2.
  destruct (Prim2SF q) as [s|s| |s m e] eqn:E; try done.
  - by apply not_nan_Prim2SF in Hq.
  - destruct (10 ^ 21 <=? Z.pos m * 2 ^ e); [done|].
    apply Number_of_hundredths_not_nan, toFixed_n_nonneg.
Qed.

(** Scaling by 10 never introduces a NaN. *)
Lemma mul_10_not_nan (a : float) : is_nan a = false -> is_nan (a * 10) = false.
Proof.
  rewrite !not_nan_Prim2SF, mul_spec.
  change (Prim2SF 10) with (S754_finite false 5629499534213120 (-49)).
  destruct (Prim2SF a) as [s|s| |s m e]; try done. intros _.
  unfold SF64mul, SFmul.
  destruct (binary_round_aux_cases (xorb s false) (Z.pos (m * 5629499534213120)) (e + -49)
              loc_Exact ltac:(lia)) as [->|[(m' & e' & ->)| ->]]; done.
Qed.

(** *** Signs *)

Lemma binary_normalize_nonneg (m e : Z) :
  0 <= m -> SFnonneg (binary_normalize prec emax m e false).
Proof.
  intros Hm. destruct m as [|p|p]; simpl; [done| |lia].
  destruct (binary_round_cases false p e) as [->|[(m' & e' & ->)| ->]]; done.
Qed.

Lemma SFldexp_nonneg (x : spec_float) (e : Z) :
  SFnonneg x -> SFnonneg (SFldexp prec emax x e).
Proof.
  destruct x as [s|[]| |[] m ex]; try done; intros _; simpl.
  destruct (binary_round_cases false m (ex + e)) as [->|[(m' & e' & ->)| ->]]; done.
Qed.

Lemma SF2Prim_nonneg (x : spec_float) : SFnonneg x -> (0 <=? SF2Prim x)%float = true.
Proof.
  intros Hx. apply nonneg_Prim2SF.
  destruct x as [s|[]| |[] m e]; try done.
  - by destruct s.
  - unfold SF2Prim. rewrite Z_ldexp_spec. apply SFldexp_nonneg.
    rewrite of_uint63_spec. apply binary_normalize_nonneg.
    apply Uint63.to_Z_bounded.
Qed.

Lemma Number_of_hundredths_nonneg (n : Z) :
  0 <= n -> (0 <=? JS.Number_of_hundredths false n)%float = true.
Proof.
  intros Hn. unfold JS.Number_of_hundredths.
  destruct n as [|p|p]; [done| |lia].
  apply SF2Prim_nonneg. unfold SFdiv.
  destruct (SFdiv_core_binary prec emax (Z.pos p) 0 100 0) as [[mz ez] lz] eqn:E.
  apply binary_round_aux_nonneg.
  unfold SFdiv_core_binary in E.
  destruct (Z.div_eucl _ _) as [q r] eqn:Hq in E. injection E as <- _ _.
  match type of Hq with Z.div_eucl ?a ?d = _ =>
    assert (q = a / d) as -> by (unfold Z.div; by rewrite Hq);
    apply Z.div_pos; [|lia];
    destruct (0 - 0 - _); [lia| |lia]
  end.
  apply Z.shiftl_nonneg. lia.
Qed.

(** [Number(q.toFixed(2))] of a non-negative number is a non-negative
    number. *)
Lemma Number_toFixed2_nonneg (q : float) :
  (0 <=? q)%float = true -> (0 <=? JS.Number_toFixed2 q)%float = true.
Proof.
  intros Hq. pose proof Hq as Hs. rewrite nonneg_Prim2SF in Hs.
  unfold JS.Number_toFixed2.
  destruct (Prim2SF q) as [s|[]| |[] m e] eqn:E; try done.
  destruct (10 ^ 21 <=? Z.pos m * 2 ^ e); [done|].
  apply Number_of_hundredths_nonneg, toFixed_n_nonneg.
Qed.

(** *** Infinities *)

Lemma plus_infinity_Prim2SF (a : float) :
  a = infinity <-> Prim2SF a = S754_infinity false.
Proof.
  split; [by intros ->|]. intros Ha. apply Prim2SF_inj. by rewrite Ha.
Qed.

Lemma not_finite_cases (a : float) :
  is_nan a = false -> is_finite a = false -> exists s, Prim2SF a = S754_infinity s.
Proof.
  unfold is_finite. intros -> Hf. rewrite negb_false_iff in Hf. simpl in Hf.
  by apply is_infinity_Prim2SF.
Qed.

(** [finite - infinite] is infinite. *)
Lemma sub_infinite (a b : float) (s : bool) :
  is_finite a = true -> Prim2SF b = S754_infinity s ->
  Prim2SF (a - b) = S754_infinity (negb s).
Proof.
  rewrite is_finite_Prim2SF, sub_spec. intros Ha ->.
  by destruct Ha as [[sa ->]|(sa & ma & ea & ->)].
Qed.

Lemma square_infinite (d : float) (s : bool) :
  Prim2SF d = S754_infinity s -> (d * d)%float = infinity.
Proof.
  intros Hd. apply plus_infinity_Prim2SF. rewrite mul_spec, Hd. simpl. by destruct s.
Qed.

Lemma add_infinity_l (b : float) :
  (0 <=? b)%float = true -> (infinity + b)%float = infinity.
Proof.
  rewrite nonneg_Prim2SF. intros Hb. apply plus_infinity_Prim2SF.
  rewrite add_spec. change (Prim2SF infinity) with (S754_infinity false).
  by destruct (Prim2SF b) as [sb|[]| |[] mb eb].
Qed.

Lemma add_infinity_r (a : float) :
  (0 <=? a)%float = true -> (a + infinity)%float = infinity.
Proof.
  rewrite nonneg_Prim2SF. intros Ha. apply plus_infinity_Prim2SF.
  rewrite add_spec. change (Prim2SF infinity) with (S754_infinity false).
  by destruct (Prim2SF a) as [sb|[]| |[] mb eb].
Qed.

(** *** Subtracting zero *)

Lemma sub_zero_exact (a : float) : (a - 0)%float = a.
Proof.
  apply Prim2SF_inj. rewrite sub_spec, Prim2SF_zero.
  by destruct (Prim2SF a) as [[]|s| |s m e].
Qed.

(** *** Division by 100 *)

Lemma digits2_pos_unique (m : positive) (d : Z) :
  2 ^ (d - 1) <= Z.pos m < 2 ^ d -> Z.pos (digits2_pos m) = d.
Proof.
  intros [Hlo Hhi].
  pose proof (digits2_pos_lower m) as Hl. pose proof (digits2_pos_upper m) as Hu.
  set (D := Z.pos (digits2_pos m)) in *.
  assert (0 < D) as HD by done.
  assert (0 < d) as Hd.
  { destruct (Z.lt_ge_cases 0 d) as [|Hn]; [done|].
    assert (2 ^ d <= 2 ^ 0) by (destruct (Z.lt_ge_cases d 0);
      [rewrite Z.pow_neg_r by done; done|apply Z.pow_le_mono_r; lia]).
    change (2 ^ 0) with 1 in *. lia. }
  destruct (Z.lt_trichotomy D d) as [Hlt|[Heq|Hgt]]; [|done|].
  - assert (2 ^ D <= 2 ^ (d - 1)) by (apply Z.pow_le_mono_r; lia). lia.
  - assert (2 ^ d <= 2 ^ (D - 1)) by (apply Z.pow_le_mono_r; lia). lia.
Qed.

(** A mantissa of 53 digits with an exponent in range is not rounded. *)
Lemma binary_round_aux_exact (s : bool) (m : positive) (e : Z) :
  Z.pos (digits2_pos m) = 53 -> -1074 <= e <= 971 ->
  binary_round_aux prec emax s (Z.pos m) e loc_Exact = S754_finite s m e.
Proof.
  intros Hd He. unfold binary_round_aux, shr_fexp. cbn [Zdigits2].
  rewrite Hd, fexp_eq.
  replace (Z.max (53 + e - 53) (-1074) - e) with 0 by lia.
  cbn [shr shr_record_of_loc shr_m loc_of_shr_record round_nearest_even Zdigits2].
  rewrite Hd, fexp_eq.
  replace (Z.max (53 + e - 53) (-1074) - e) with 0 by lia.
  cbn [shr shr_record_of_loc shr_m].
  replace (e <=? emax - prec) with true; [done|].
  symmetry. apply Z.leb_le. change (emax - prec) with 971. lia.
Qed.

Lemma shl_align_snd (mx : positive) (ex ez : Z) :
  ez <= ex -> snd (shl_align mx ex ez) = ez.
Proof.
  intros He. unfold shl_align. destruct (ez - ex) eqn:E; cbn [snd]; lia.
Qed.

(** The binary64 value of an integer below [2^53] is the integer itself,
    with its mantissa shifted to 53 digits. *)
Lemma binary_round_small (p : positive) :
  Z.pos p < 2 ^ 53 ->
  exists mz : positive,
    Z.pos mz = Z.pos p * 2 ^ (53 - Z.pos (digits2_pos p)) /\
    Z.pos (digits2_pos mz) = 53 /\
    binary_round prec emax false p 0 =
      S754_finite false mz (Z.pos (digits2_pos p) - 53).
Proof.
  intros Hp.
  pose proof (digits2_pos_lower p) as Hl. pose proof (digits2_pos_upper p) as Hu.
  set (D := Z.pos (digits2_pos p)) in *.
  assert (0 < D) as HD0 by done.
  assert (D <= 53) as HD.
  { destruct (Z.le_gt_cases D 53) as [|Hgt]; [done|].
    assert (2 ^ 53 <= 2 ^ (D - 1)) by (apply Z.pow_le_mono_r; lia). lia. }
  unfold binary_round. fold D. rewrite fexp_eq.
  replace (Z.max (D + 0 - 53) (-1074)) with (D - 53) by lia.
  pose proof (shl_align_fst p 0 (D - 53) ltac:(lia)) as Hf.
  pose proof (shl_align_snd p 0 (D - 53) ltac:(lia)) as Hs.
  destruct (shl_align p 0 (D - 53)) as [mz ez]. cbn [fst snd] in Hf, Hs. subst ez.
  replace (0 - (D - 53)) with (53 - D) in Hf by lia.
  assert (Z.pos (digits2_pos mz) = 53) as Hd.
  { apply digits2_pos_unique. rewrite Hf.
    assert (0 < 2 ^ (53 - D)) as Hpos by (apply Z.pow_pos_nonneg; lia).
    assert (2 ^ (53 - 1) = 2 ^ (D - 1) * 2 ^ (53 - D)) as ->
      by (rewrite <- Z.pow_add_r by lia; f_equal; lia).
    assert (2 ^ 53 = 2 ^ D * 2 ^ (53 - D)) as ->
      by (rewrite <- Z.pow_add_r by lia; f_equal; lia).
    split; [apply Z.mul_le_mono_nonneg_r; lia|apply Z.mul_lt_mono_pos_r; lia]. }
  exists mz. split; [exact Hf|]. split; [exact Hd|].
  apply binary_round_aux_exact; [exact Hd|lia].
Qed.

Lemma div_eucl_div_mod (a b : Z) : Z.div_eucl a b = (a / b, a mod b).
Proof. unfold Z.div, Z.modulo. by destruct (Z.div_eucl a b). Qed.

Lemma Prim2SF_100 : Prim2SF 100%float = S754_finite false 7036874417766400 (-46).
Proof. reflexivity. Qed.

(** Dividing by 100 gives the same quotient, exponent and location whether
    the operands are given as integers or with mantissas of 53 digits. *)
Lemma SFdiv_core_normalized (p mz : positive) :
  Z.pos p < 2 ^ 53 ->
  Z.pos mz = Z.pos p * 2 ^ (53 - Z.pos (digits2_pos p)) ->
  Z.pos (digits2_pos mz) = 53 ->
  SFdiv_core_binary prec emax (Z.pos mz) (Z.pos (digits2_pos p) - 53) 7036874417766400 (-46) =
  SFdiv_core_binary prec emax (Z.pos p) 0 100 0.
Proof.
  intros Hp Hmz Hd.
  pose proof (digits2_pos_lower p) as Hl.
  set (D := Z.pos (digits2_pos p)) in *.
  assert (0 < D) as HD0 by done.
  assert (D <= 53) as HD.
  { destruct (Z.le_gt_cases D 53) as [|Hgt]; [done|].
    assert (2 ^ 53 <= 2 ^ (D - 1)) by (apply Z.pow_le_mono_r; lia). lia. }
  unfold SFdiv_core_binary. cbn [Zdigits2]. fold D. rewrite Hd.
  change (Z.pos (digits2_pos 7036874417766400)) with 53.
  change (Z.pos (digits2_pos 100)) with 7.
  rewrite !fexp_eq.
  replace (Z.min (Z.max (53 + (D - 53) - (53 + -46) - 53) (-1074)) (D - 53 - -46))
    with (D - 60) by lia.
  replace (Z.min (Z.max (D + 0 - (7 + 0) - 53) (-1074)) (0 - 0)) with (D - 60) by lia.
  replace (D - 53 - -46 - (D - 60)) with 53 by lia.
  remember (0 - 0 - (D - 60)) as s eqn:Hs.
  assert (match s with Z.pos _ => Z.shiftl (Z.pos p) s | 0 => Z.pos p | Z.neg _ => 0 end
          = Z.pos p * 2 ^ (60 - D)) as ->.
  { destruct s as [|s'|s']; [lia| |lia]. rewrite Z.shiftl_mul_pow2 by lia.
    f_equal. f_equal. lia. }
  rewrite Z.shiftl_mul_pow2 by lia. rewrite Hmz.
  set (A := Z.pos p * 2 ^ (60 - D)).
  assert (Z.pos p * 2 ^ (53 - D) * 2 ^ 53 = A * 2 ^ 46) as ->.
  { unfold A. rewrite <- !Z.mul_assoc, <- !Z.pow_add_r by lia. f_equal. f_equal. lia. }
  change (Z.pos 7036874417766400) with (100 * 2 ^ 46).
  rewrite !div_eucl_div_mod.
  assert (0 < 2 ^ 46) as Hc by done.
  rewrite Z.div_mul_cancel_r by lia.
  rewrite Z.mul_mod_distr_r by lia.
  f_equal. unfold new_location.
  change (Z.even (100 * 2 ^ 46)) with true. change (Z.even 100) with true.
  unfold new_location_even.
  pose proof (Z.mod_pos_bound A 100 ltac:(lia)) as Hr.
  set (r := A mod 100) in *.
  destruct (Z.eqb_spec r 0) as [->|Hne]; [done|].
  destruct (Z.eqb_spec (r * 2 ^ 46) 0) as [E|_]; [lia|].
  f_equal. rewrite Z.mul_assoc.
  rewrite (Zmult_compare_compat_r (2 * r) 100 (2 ^ 46)) by lia. reflexivity.
Qed.

(** The Number read from [n / 100], for [n] below [2^53], is the result of
    the binary64 division of [n] by 100. *)
Lemma Number_of_hundredths_div (p : positive) :
  Z.pos p < 2 ^ 53 ->
  JS.Number_of_hundredths false (Z.pos p) =
  (of_uint63 (Uint63.of_Z (Z.pos p)) / 100)%float.
Proof.
  intros Hp. unfold JS.Number_of_hundredths.
  rewrite <- (SF2Prim_Prim2SF (of_uint63 _ / 100)). f_equal.
  rewrite div_spec, of_uint63_spec, Prim2SF_100.
  rewrite Uint63.of_Z_spec, Z.mod_small
    by (split; [done|]; eapply Z.lt_trans; [exact Hp|done]).
  cbn [binary_normalize].
  destruct (binary_round_small p Hp) as (mz & Hmz & Hd & ->).
  unfold SF64div, SFdiv. by rewrite (SFdiv_core_normalized p mz Hp Hmz Hd).
Qed.

(** [Math.sqrt(a) / 10] is never a negative number. *)
Lemma sqrt_div_10_sign (a : float) (s : bool) (m : positive) (e : Z) :
  Prim2SF (sqrt a / 10) = S754_finite s m e -> s = false.
Proof.
  intros Hq.
  assert (SFnonneg (Prim2SF (sqrt a)) \/ Prim2SF (sqrt a) = S754_nan) as [Hn|Hn].
  { pose proof (sqrt_nonneg a) as Hs. rewrite !nonneg_Prim2SF in Hs.
    rewrite sqrt_spec in *.
    destruct (Prim2SF a) as [sa|[]| |[] ma ea]; try (left; by apply Hs); by right. }
  - apply nonneg_Prim2SF, div_10_nonneg, nonneg_Prim2SF in Hn.
    rewrite Hq in Hn. by destruct s.
  - rewrite div_spec, Hn in Hq. done.
Qed.

Lemma sqrt_div_10_infinity (a : float) (s : bool) :
  Prim2SF (sqrt a / 10) = S754_infinity s -> (sqrt a / 10)%float = infinity.
Proof.
  intros Hq.
  assert (SFnonneg (Prim2SF (sqrt a)) \/ Prim2SF (sqrt a) = S754_nan) as [Hn|Hn].
  { pose proof (sqrt_nonneg a) as Hs. rewrite !nonneg_Prim2SF in Hs.
    rewrite sqrt_spec in *.
    destruct (Prim2SF a) as [sa|[]| |[] ma ea]; try (left; by apply Hs); by right. }
  - apply nonneg_Prim2SF, div_10_nonneg, nonneg_Prim2SF in Hn.
    apply plus_infinity_Prim2SF. rewrite Hq in *. by destruct s.
  - rewrite div_spec, Hn in Hq. done.
Qed.

(** *** Hundredths from [2^53] on *)

Lemma shr_1_div2 (M : Z) (r s : bool) :
  0 <= M -> shr_1 (Build_shr_record M r s) = Build_shr_record (Z.div2 M) (Z.odd M) (r || s).
Proof. intros HM. by destruct M as [|[p|p|]|p]. Qed.

(** Shifting out zeros leaves an exact mantissa. *)
Lemma iter_pos_shr_1_exact (p : positive) : forall M,
  0 <= M ->
  SpecFloat.iter_pos shr_1 p (Build_shr_record (M * 2 ^ Z.pos p) false false) =
  Build_shr_record M false false.
Proof.
  assert (forall M X, 0 <= M -> 0 <= X ->
    shr_1 (Build_shr_record (M * (2 * X)) false false) = Build_shr_record (M * X) false false)
    as Hstep.
  { intros M X HM HX. rewrite shr_1_div2 by lia. f_equal.
    - rewrite Z.div2_div. symmetry. apply Z.div_unique with 0; lia.
    - replace (M * (2 * X)) with (2 * (M * X)) by lia.
      rewrite Z.odd_mul. reflexivity. }
  induction p as [p IH|p IH|]; intros M HM; cbn [SpecFloat.iter_pos].
  - assert (0 < 2 ^ Z.pos p) as Hp by (apply Z.pow_pos_nonneg; lia).
    rewrite pow2_xI, Hstep by lia.
    rewrite Z.mul_assoc, IH by lia. by apply IH.
  - assert (0 < 2 ^ Z.pos p) as Hp by (apply Z.pow_pos_nonneg; lia).
    rewrite pow2_xO, Z.mul_assoc, IH by lia. by apply IH.
  - change (2 ^ 1) with (2 * 1). rewrite Hstep by lia. f_equal. lia.
Qed.

Lemma digits_53_bounds (m : positive) :
  Z.pos (digits2_pos m) = 53 -> 2 ^ 52 <= Z.pos m < 2 ^ 53.
Proof.
  intros Hd. pose proof (digits2_pos_lower m) as Hl. pose proof (digits2_pos_upper m) as Hu.
  rewrite Hd in Hl, Hu. done.
Qed.

(** The second half of [binary_round_aux] on a mantissa of 53 digits. *)
Lemma binary_round_aux_tail (sx : bool) (m : positive) (e : Z) :
  Z.pos (digits2_pos m) = 53 -> -1074 <= e <= 971 ->
  (let '(mrs'', e'') := shr_fexp prec emax (Z.pos m) e loc_Exact in
   match shr_m mrs'' with
   | 0 => S754_zero sx
   | Z.pos m0 => if e'' <=? emax - prec then S754_finite sx m0 e'' else S754_infinity sx
   | Z.neg _ => S754_nan
   end) = S754_finite sx m e.
Proof.
  intros Hd He. unfold shr_fexp. cbn [Zdigits2]. rewrite Hd, fexp_eq.
  replace (Z.max (53 + e - 53) (-1074) - e) with 0 by lia.
  cbn [shr shr_record_of_loc shr_m].
  replace (e <=? emax - prec) with true; [done|].
  symmetry. apply Z.leb_le. change (emax - prec) with 971. lia.
Qed.

(** A mantissa of 53 digits followed by zeros is not rounded. *)
Lemma binary_round_aux_exact_shift (sx : bool) (m : positive) (e j : Z) :
  Z.pos (digits2_pos m) = 53 -> 0 <= j -> -1074 <= e - j -> e <= 971 ->
  binary_round_aux prec emax sx (Z.pos m * 2 ^ j) (e - j) loc_Exact = S754_finite sx m e.
Proof.
  intros Hd Hj He1 He2. pose proof (digits_53_bounds m Hd) as Hm.
  destruct j as [|p|p]; [|clear Hj|lia].
  - rewrite Z.mul_1_r, Z.sub_0_r. apply binary_round_aux_exact; [done|lia].
  - assert (0 < 2 ^ Z.pos p) as Hp by (apply Z.pow_pos_nonneg; lia).
    destruct (Z.pos m * 2 ^ Z.pos p) as [|Q|Q] eqn:EQ; [lia| |lia].
    assert (Z.pos (digits2_pos Q) = 53 + Z.pos p) as HdQ.
    { apply digits2_pos_unique. rewrite <- EQ.
      replace (53 + Z.pos p - 1) with (52 + Z.pos p) by lia.
      rewrite !Z.pow_add_r by lia. nia. }
    unfold binary_round_aux, shr_fexp at 1. cbn [Zdigits2]. rewrite HdQ, fexp_eq.
    replace (Z.max (53 + Z.pos p + (e - Z.pos p) - 53) (-1074) - (e - Z.pos p))
      with (Z.pos p) by lia.
    cbn [shr shr_record_of_loc]. rewrite <- EQ, iter_pos_shr_1_exact by lia.
    cbn [shr_m loc_of_shr_record round_nearest_even].
    replace (e - Z.pos p + Z.pos p) with e by lia.
    apply binary_round_aux_tail; [done|lia].
Qed.

Lemma shr_no_shift (mrs : shr_record) (e n : Z) : n <= 0 -> shr mrs e n = (mrs, e).
Proof. intros Hn. destruct n; [done|lia|done]. Qed.

Lemma loc_of_shr_record_of_loc (m : Z) (l : location) :
  loc_of_shr_record (shr_record_of_loc m l) = l.
Proof. by destruct l as [|[]]. Qed.

(** The quotient [Q + R/100] at exponent [e - k], for [k] 0 or 1, is rounded
    to the mantissa [m] at exponent [e] when it lies within half a unit of
    it. *)
Lemma binary_round_aux_near (sx : bool) (m : positive) (e k Q R : Z) :
  Z.pos (digits2_pos m) = 53 -> -1074 <= e - k -> e <= 971 ->
  0 <= R < 100 -> 0 < Q ->
  (k = 0 /\ 100 * Z.pos m - 50 < 100 * Q + R < 100 * Z.pos m + 50) \/
  (k = 1 /\ 200 * Z.pos m - 100 < 100 * Q + R < 200 * Z.pos m + 100 /\
   (Q = 2 * Z.pos m - 1 -> 2 ^ 52 < Z.pos m)) ->
  binary_round_aux prec emax sx Q (e - k) (new_location 100 R) = S754_finite sx m e.
Proof.
  intros Hd He1 He2 HR HQ Hnear. pose proof (digits_53_bounds m Hd) as Hm.
  unfold new_location. change (Z.even 100) with true. unfold new_location_even.
  destruct Q as [|Q|Q]; [lia| |lia].
  pose proof (digits2_pos_lower Q) as HlQ. pose proof (digits2_pos_upper Q) as HuQ.
  destruct Hnear as [[-> Hn]|(-> & Hn & Hlow)].
  - rewrite Z.sub_0_r in *.
    assert (Z.pos (digits2_pos Q) <= 53) as HdQ.
    { destruct (Z.le_gt_cases (Z.pos (digits2_pos Q)) 53) as [|Hgt]; [done|].
      assert (2 ^ 53 <= 2 ^ (Z.pos (digits2_pos Q) - 1)) by (apply Z.pow_le_mono_r; lia).
      lia. }
    unfold binary_round_aux, shr_fexp at 1. cbn [Zdigits2]. rewrite fexp_eq.
    rewrite shr_no_shift by lia. rewrite shr_record_of_loc_m, loc_of_shr_record_of_loc.
    assert (round_nearest_even (Z.pos Q)
              (if R =? 0 then loc_Exact else loc_Inexact (2 * R ?= 100)) = Z.pos m) as ->.
    { destruct (Z.eqb_spec R 0) as [->|HR0]; [simpl; lia|].
      destruct (Z.compare_spec (2 * R) 100); simpl; [lia|lia|lia]. }
    apply binary_round_aux_tail; [done|lia].
  - assert (Z.pos (digits2_pos Q) = 54) as HdQ.
    { apply digits2_pos_unique. change (54 - 1) with 53.
      change (2 ^ 54) with (2 * 2 ^ 53). lia. }
    unfold binary_round_aux, shr_fexp at 1. cbn [Zdigits2]. rewrite HdQ, fexp_eq.
    replace (Z.max (54 + (e - 1) - 53) (-1074) - (e - 1)) with 1 by lia.
    cbn [shr SpecFloat.iter_pos].
    replace (e - 1 + 1) with e by lia.
    assert (Z.pos Q = 2 * Z.pos m \/ (Z.pos Q = 2 * Z.pos m - 1 /\ 0 < R)) as [HQm|[HQm HR0]]
      by lia.
    + assert (round_nearest_even
                (shr_m (shr_1 (shr_record_of_loc (Z.pos Q)
                   (if R =? 0 then loc_Exact else loc_Inexact (2 * R ?= 100)))))
                (loc_of_shr_record (shr_1 (shr_record_of_loc (Z.pos Q)
                   (if R =? 0 then loc_Exact else loc_Inexact (2 * R ?= 100)))))
              = Z.pos m) as ->.
      { assert (Z.div2 (Z.pos Q) = Z.pos m) as Hdiv
          by (rewrite Z.div2_div; symmetry; apply Z.div_unique with 0; lia).
        assert (Z.odd (Z.pos Q) = false) as Hodd by (rewrite HQm, Z.odd_mul; done).
        destruct (R =? 0); [|destruct (2 * R ?= 100)]; cbn [shr_record_of_loc];
          rewrite shr_1_div2, Hdiv, Hodd by lia; reflexivity. }
      apply binary_round_aux_tail; [done|lia].
    + assert (round_nearest_even
                (shr_m (shr_1 (shr_record_of_loc (Z.pos Q)
                   (if R =? 0 then loc_Exact else loc_Inexact (2 * R ?= 100)))))
                (loc_of_shr_record (shr_1 (shr_record_of_loc (Z.pos Q)
                   (if R =? 0 then loc_Exact else loc_Inexact (2 * R ?= 100)))))
              = Z.pos m) as ->.
      { assert (Z.div2 (Z.pos Q) = Z.pos m - 1) as Hdiv
          by (rewrite Z.div2_div; symmetry; apply Z.div_unique with 1; lia).
        assert (Z.odd (Z.pos Q) = true) as Hodd.
        { rewrite HQm. replace (2 * Z.pos m - 1) with (2 * (Z.pos m - 1) + 1) by lia.
          apply Z.odd_odd. }
        destruct (Z.eqb_spec R 0) as [->|_]; [lia|].
        destruct (2 * R ?= 100); cbn [shr_record_of_loc];
          rewrite shr_1_div2, Hdiv, Hodd by lia;
          cbn [orb shr_m loc_of_shr_record round_nearest_even]; lia. }
      apply binary_round_aux_tail; [done|lia].
Qed.

(** The quotient, exponent and location that the division of an integer
    by 100 starts from. *)
Lemma SFdiv_core_100 (n : positive) :
  let e' := Z.min (Z.max (Z.pos (digits2_pos n) - 60) (-1074)) 0 in
  SFdiv_core_binary prec emax (Z.pos n) 0 100 0 =
  ((Z.pos n * 2 ^ (- e')) / 100, e', new_location 100 ((Z.pos n * 2 ^ (- e')) mod 100)).
Proof.
  intros e'. unfold SFdiv_core_binary. cbn [Zdigits2].
  change (Z.pos (digits2_pos 100)) with 7. rewrite fexp_eq.
  replace (Z.min (Z.max (Z.pos (digits2_pos n) + 0 - (7 + 0) - 53) (-1074)) (0 - 0))
    with e' by (unfold e'; lia).
  assert (e' <= 0) as He' by (unfold e'; lia).
  assert (match 0 - 0 - e' with
          | 0 => Z.pos n
          | Z.pos _ => Z.shiftl (Z.pos n) (0 - 0 - e')
          | Z.neg _ => 0
          end = Z.pos n * 2 ^ (- e')) as ->.
  { replace (0 - 0 - e') with (- e') by lia.
    destruct (- e') as [|s|s] eqn:Es; [simpl; lia| |lia].
    by rewrite Z.shiftl_mul_pow2. }
  by rewrite div_eucl_div_mod.
Qed.

Lemma SFdiv_100_unfold (n : positive) :
  SFdiv prec emax (S754_finite false n 0) (S754_finite false 100 0) =
  let e' := Z.min (Z.max (Z.pos (digits2_pos n) - 60) (-1074)) 0 in
  binary_round_aux prec emax false ((Z.pos n * 2 ^ (- e')) / 100) e'
    (new_location 100 ((Z.pos n * 2 ^ (- e')) mod 100)).
Proof. unfold SFdiv. by rewrite SFdiv_core_100. Qed.

(** From [2^53] hundredths on, the Number nearest to [n / 100] is the
    Number [m * 2^e] that [n] was rounded from: Numbers of that size lie
    more than a hundredth apart. *)
Lemma SFdiv_hundredths_large (m n : positive) (e : Z) :
  valid_binary (S754_finite false m e) = true ->
  Z.pos n = JS.toFixed_n m e -> 2 ^ 53 <= Z.pos n ->
  SFdiv prec emax (S754_finite false n 0) (S754_finite false 100 0) = S754_finite false m e.
Proof.
  intros Hv Hn Hbig.
  pose proof (valid_finite_lt _ _ _ Hv) as Hm53.
  apply valid_finite in Hv as (He & _ & Hd).
  assert (-6 <= e) as He6.
  { destruct (Z.le_gt_cases (-6) e) as [|Hlt]; [done|]. exfalso.
    unfold JS.toFixed_n in Hn.
    destruct (Z.leb_spec 0 e) as [|_]; [lia|].
    assert (2 ^ 7 <= 2 ^ (- e)) as HP by (apply Z.pow_le_mono_r; lia).
    replace (1 - e) with (Z.succ (- e)) in Hn by lia.
    rewrite Z.pow_succ_r in Hn by lia.
    set (P := 2 ^ (- e)) in *. change (2 ^ 7) with 128 in HP.
    pose proof (Z.div_mod (200 * Z.pos m + P) (2 * P) ltac:(lia)) as Hdm.
    pose proof (Z.mod_pos_bound (200 * Z.pos m + P) (2 * P) ltac:(lia)) as Hb.
    rewrite <- Hn in Hdm.
    assert (2 * P * 2 ^ 53 <= 2 * P * Z.pos n) by (apply Z.mul_le_mono_nonneg_l; lia).
    lia. }
  specialize (Hd ltac:(lia)). pose proof (digits_53_bounds m Hd) as Hm.
  pose proof (digits2_pos_lower n) as HlD. pose proof (digits2_pos_upper n) as HuD.
  rewrite SFdiv_100_unfold. cbv zeta.
  set (D := Z.pos (digits2_pos n)) in *.
  assert (0 < D) as HD0 by done.
  destruct (Z.leb_spec 0 e) as [He0|He0].
  - (* the Number is an integer *)
    assert (Z.pos n = Z.pos m * 2 ^ e * 100) as Hn'.
    { rewrite Hn. unfold JS.toFixed_n. by destruct (Z.leb_spec 0 e); [|lia]. }
    assert (0 < 2 ^ e) as Hpe by (apply Z.pow_pos_nonneg; lia).
    assert (59 <= D) as HD.
    { destruct (Z.le_gt_cases 59 D) as [|Hlt]; [done|]. exfalso.
      assert (2 ^ D <= 2 ^ 58) by (apply Z.pow_le_mono_r; lia). nia. }
    destruct (Z.eq_dec D 59) as [HD59|HD59].
    + rewrite HD59. change (Z.min (Z.max (59 - 60) (-1074)) 0) with (-1).
      change (2 ^ (- -1)) with 2.
      assert (Z.pos n * 2 = 100 * (Z.pos m * 2 ^ (e + 1))) as ->
        by (rewrite Z.pow_add_r by lia; lia).
      rewrite Z.mul_comm, Z.div_mul, Z.mod_mul by done.
      replace (-1) with (e - (e + 1)) by lia.
      apply binary_round_aux_exact_shift; [done|lia..].
    + replace (Z.min (Z.max (D - 60) (-1074)) 0) with 0 by lia.
      change (2 ^ (- 0)) with 1. rewrite Z.mul_1_r, Hn'.
      rewrite Z.div_mul, Z.mod_mul by done.
      replace 0 with (e - e) at 1 by lia.
      apply binary_round_aux_exact_shift; [done|lia..].
  - (* the Number has binary digits after the point *)
    assert (e = -6 \/ e = -5 \/ e = -4 \/ e = -3 \/ e = -2 \/ e = -1) as Hcases by lia.
    unfold JS.toFixed_n in Hn.
    replace (0 <=? e) with false in Hn by (symmetry; apply Z.leb_gt; lia).
    destruct Hcases as [->|[->|[->|[->|[->| ->]]]]];
      match type of Hn with _ = ?a / ?b =>
        let b' := eval vm_compute in b in
        let P := eval vm_compute in (b' / 2) in
        change (Z.pos n = (200 * Z.pos m + P) / b') in Hn;
        pose proof (Z.div_mod (200 * Z.pos m + P) b' ltac:(lia)) as Hdm;
        pose proof (Z.mod_pos_bound (200 * Z.pos m + P) b' ltac:(lia)) as Hb;
        rewrite <- Hn in Hdm
      end.
    all: match goal with
         | |- _ = S754_finite false _ ?e0 =>
           assert (D = 60 + e0 \/ D = 59 + e0) as [HD| HD];
             [ destruct (Z.le_gt_cases D (58 + e0));
               [ exfalso;
                 assert (2 ^ D <= 2 ^ (58 + e0)) by (apply Z.pow_le_mono_r; lia);
                 let v := eval vm_compute in (2 ^ (58 + e0)) in
                 change (2 ^ (58 + e0)) with v in *; lia
               | destruct (Z.le_gt_cases (61 + e0) D);
                 [ exfalso;
                   assert (2 ^ (60 + e0) <= 2 ^ (D - 1)) by (apply Z.pow_le_mono_r; lia);
                   let v := eval vm_compute in (2 ^ (60 + e0)) in
                   change (2 ^ (60 + e0)) with v in *; lia
                 | lia ] ]
             | | ]
         end.
    all: rewrite HD.
    all: match goal with
         | |- binary_round_aux _ _ _ ((?N * _) / 100) ?e' _ = S754_finite _ ?mm ?e0 =>
           let e'' := eval vm_compute in e' in
           let s := eval vm_compute in (2 ^ (- e'')) in
           change (binary_round_aux prec emax false ((N * s) / 100) e''
                     (new_location 100 ((N * s) mod 100)) = S754_finite false mm e0);
           pose proof (Z.div_mod (N * s) 100 ltac:(lia)) as HQ;
           pose proof (Z.mod_pos_bound (N * s) 100 ltac:(lia)) as HR;
           set (Q := (N * s) / 100) in *;
           set (R := (N * s) mod 100) in *
         end.
    all: change (2 ^ 53) with 9007199254740992 in *;
         change (2 ^ 52) with 4503599627370496 in *.
    all: try (match goal with
         | HD : _ = 60 + ?e0 |- _ =>
           apply (binary_round_aux_near false _ e0 0 _ _); [done|lia|lia|lia|lia|left; lia]
         end).
    all: match goal with
         | HD : _ = 59 + ?e0 |- _ =>
           apply (binary_round_aux_near false _ e0 1 _ _); [done|lia|lia|lia|lia|right]
         end.
    all: change (2 ^ 52) with 4503599627370496; lia.
Qed.

Lemma Number_of_hundredths_large (q : float) (m : positive) (e : Z) :
  Prim2SF q = S754_finite false m e -> 2 ^ 53 <= JS.toFixed_n m e ->
  JS.Number_of_hundredths false (JS.toFixed_n m e) = q.
Proof.
  intros Hq Hbig. pose proof (Prim2SF_valid q) as Hv. rewrite Hq in Hv.
  destruct (JS.toFixed_n m e) as [|n|n] eqn:Hn; [done| |done].
  unfold JS.Number_of_hundredths.
  rewrite (SFdiv_hundredths_large m n e Hv) by done.
  by rewrite <- Hq, SF2Prim_Prim2SF.
Qed.

End IEEE.


(* ================================================================= *)
(** * Part III: properties of the pipeline *)
(* ================================================================= *)

(** ** The sort *)

Section SortFacts.
Context {A : Type} (key : A -> float) (idx : A -> nat).

Local Abbreviation cmp := (λ a b : A, (key a - key b)%float).
Local Abbreviation not_nan := (λ a : A, is_nan (key a) = false).

(** The strict order "smaller key, or same key and earlier in the input". *)
Definition ranked_before (a b : A) : Prop :=
  (IEEE.float_key (key a) < IEEE.float_key (key b))%Z \/
  (IEEE.float_key (key a) = IEEE.float_key (key b) /\ idx a < idx b).

Lemma sort_insert_perm (x : A) (l : list A) : JS.sort_insert cmp x l ≡ₚ x :: l.
Proof.
  induction l as [|y l IH]; simpl; [done|].
  destruct (0 <? key x - key y)%float; [|done].
  rewrite IH. apply Permutation_swap.
Qed.

Lemma Array_sort_perm (l : list A) : JS.Array_sort cmp l ≡ₚ l.
Proof.
  induction l as [|x l IH]; simpl; [done|].
  by rewrite sort_insert_perm, IH.
Qed.

Lemma ranked_before_key_le (a b : A) :
  ranked_before a b -> (IEEE.float_key (key a) <= IEEE.float_key (key b))%Z.
Proof. unfold ranked_before. lia. Qed.

Lemma sort_insert_sorted (x : A) (l : list A) :
  not_nan x -> Forall not_nan l ->
  StronglySorted ranked_before l ->
  Forall (λ z, idx x < idx z) l ->
  StronglySorted ranked_before (JS.sort_insert cmp x l).
Proof.
  intros Hx. induction l as [|y l IH]; intros Hl Hs Hi; simpl.
  - by repeat constructor.
  - apply Forall_cons in Hl as [Hy Hl]. apply Forall_cons in Hi as [Hxy Hi].
    apply StronglySorted_inv in Hs as [Hs Hyl].
    rewrite IEEE.sub_pos, IEEE.ltb_key by done.
    destruct (Z.ltb_spec (IEEE.float_key (key y)) (IEEE.float_key (key x))) as [Hlt|Hge].
    + constructor; [by apply IH|].
      rewrite sort_insert_perm. constructor; [by left|done].
    + constructor; [by constructor|].
      constructor.
      * unfold ranked_before. lia.
      * rewrite Forall_forall in Hyl, Hi. rewrite Forall_forall. intros z Hz.
        specialize (Hyl z Hz). specialize (Hi z Hz).
        apply ranked_before_key_le in Hyl. unfold ranked_before. lia.
Qed.

Lemma Array_sort_sorted (l : list A) :
  Forall not_nan l ->
  StronglySorted (λ a b, idx a < idx b) l ->
  StronglySorted ranked_before (JS.Array_sort cmp l).
Proof.
  induction l as [|x l IH]; intros Hl Hi; simpl; [constructor|].
  apply Forall_cons in Hl as [Hx Hl].
  apply StronglySorted_inv in Hi as [Hi Hxl].
  apply sort_insert_sorted; [done| |by apply IH|].
  - by rewrite Array_sort_perm.
  - by rewrite Array_sort_perm.
Qed.

Lemma ranked_before_leb (a b : A) :
  not_nan a -> not_nan b -> ranked_before a b ->
  (key a <=? key b)%float = true /\ ((key a =? key b)%float = true -> idx a < idx b).
Proof.
  intros Ha Hb Hr. rewrite IEEE.leb_key, IEEE.eqb_key by done.
  unfold ranked_before in Hr. split; [lia|]. intros He. apply Z.eqb_eq in He. lia.
Qed.

End SortFacts.

Lemma StronglySorted_weaken {A : Type} (R R' : A -> A -> Prop) (l : list A) :
  (forall a b, a ∈ l -> b ∈ l -> R a b -> R' a b) ->
  StronglySorted R l -> StronglySorted R' l.
Proof.
  induction l as [|x l IH]; intros Himp Hs; [constructor|].
  apply StronglySorted_inv in Hs as [Hs Hx]. constructor.
  - apply IH; [|done]. intros a b Ha Hb. apply Himp; by right.
  - rewrite Forall_forall in Hx. rewrite Forall_forall. intros z Hz.
    apply Himp; [by left|by right|by apply Hx].
Qed.

(** ** The scene and the render loop *)

Section Pipeline.
Context `{Host}.
Local Open Scope float_scope.

(** The meshes of a built scene, spelled out. *)
Lemma buildScene_planetMeshes (pd : option ApiResponse.t) (cs : option CameraState.t) :
  planetMeshes (buildScene pd cs) =
  foldl (λ m planet, <[PlanetData.id planet := meshPosition pd planet]> m)
        {["sun" := Vector3.zero]} (drop 1 PLANETS).
Proof. reflexivity. Qed.

(** The scene holds a mesh for every body of the catalog: the sun at the
    origin, every other body where [meshPosition] puts it. *)
Lemma buildScene_lookup (pd : option ApiResponse.t) (cs : option CameraState.t)
    (planet : PlanetData.t) :
  planet ∈ PLANETS ->
  planetMeshes (buildScene pd cs) !! PlanetData.id planet =
  Some (if String.eqb (PlanetData.id planet) "sun" then Vector3.zero
        else meshPosition pd planet).
Proof.
  intros Hin. rewrite buildScene_planetMeshes.
  unfold PLANETS in Hin.
  repeat (apply elem_of_cons in Hin as [->|Hin]); [..|by apply elem_of_nil in Hin];
    cbn [drop PLANETS foldl PlanetData.id String.eqb Ascii.eqb Bool.eqb];
    by simplify_map_eq.
Qed.

(** The entries pushed during one frame, before the sort. *)
Definition pushed (s : Scene) (W Ht : float) (nd : list PlanetDistance.t) : Prop :=
  Forall2 (λ planet e, exists mesh,
             planetMeshes s !! PlanetData.id planet = Some mesh /\
             e = rankEntry s (controls_update (controls s)) W Ht planet mesh)
          PLANETS nd.

Lemma animate_inv (s : Scene) (W Ht : float) (s' : Scene) (out : Published) :
  animate s W Ht = Some (s', out) ->
  exists nd, pushed s W Ht nd /\
    distances out =
      JS.Array_sort (λ a b, PlanetDistance.distance a - PlanetDistance.distance b) nd /\
    planetPositions out =
      foldl (λ m planet, <[PlanetDistance.id planet := PlanetDistance.position planet]> m)
            ∅ (distances out) /\
    s' = mkScene (draggableCube s) (planetMeshes s) (controls_update (controls s)).
Proof.
  unfold animate. intros Ha.
  apply bind_Some in Ha as (nd & Hnd & Ha). injection Ha as <- <-.
  exists nd. split; [|done].
  apply mapM_Some in Hnd. eapply Forall2_impl; [exact Hnd|].
  intros planet e He. apply bind_Some in He as (mesh & Hm & He).
  injection He as <-. eauto.
Qed.

(** The scene after a frame is the scene after its [controls.update()]. *)
Lemma animate_scene (s : Scene) (W Ht : float) (s' : Scene) (out : Published) :
  animate s W Ht = Some (s', out) -> s' = animateScene s.
Proof. intros Ha. by apply animate_inv in Ha as (nd & _ & _ & _ & ->). Qed.

Lemma animate_is_Some (s : Scene) (W Ht : float) :
  (forall planet, planet ∈ PLANETS -> is_Some (planetMeshes s !! PlanetData.id planet)) ->
  is_Some (animate s W Ht).
Proof.
  intros Hall. unfold animate.
  destruct (mapM _ PLANETS) as [nd|] eqn:E; [by eexists|].
  exfalso. apply eq_None_not_Some in E. apply E.
  apply mapM_is_Some. apply Forall_forall. intros planet Hin.
  destruct (Hall planet Hin) as [mesh Hm]. unfold compose. rewrite Hm. by eexists.
Qed.

Lemma pushed_ids (s : Scene) (W Ht : float) (nd : list PlanetDistance.t) :
  pushed s W Ht nd -> PlanetDistance.id <$> nd = PlanetData.id <$> PLANETS.
Proof.
  unfold pushed. generalize PLANETS. intros l Hf.
  induction Hf as [|planet e l nd (mesh & _ & ->) _ IH]; [done|].
  by rewrite !fmap_cons, IH.
Qed.

(** Position in the catalog of the body that an entry stands for. *)
Definition entry_index (e : PlanetDistance.t) : nat :=
  default 0%nat (catalog_index (PlanetDistance.id e)).

Lemma catalog_ids_index (i : string) :
  i ∈ PlanetData.id <$> PLANETS -> exists n, catalog_index i = Some n.
Proof.
  intros Hin. cbn in Hin.
  repeat (apply elem_of_cons in Hin as [->|Hin]); [..|by apply elem_of_nil in Hin];
    by eexists.
Qed.

Lemma pushed_in_catalog_order (nd : list PlanetDistance.t) :
  PlanetDistance.id <$> nd = PlanetData.id <$> PLANETS ->
  StronglySorted (λ a b, (entry_index a < entry_index b)%nat) nd.
Proof.
  intros Hids. cbn in Hids.
  do 9 (destruct nd as [|? nd]; [discriminate|]).
  destruct nd; [|discriminate].
  injection Hids as H1 H2 H3 H4 H5 H6 H7 H8 H9.
  unfold entry_index.
  repeat (constructor; [|repeat constructor]);
    rewrite ?H1, ?H2, ?H3, ?H4, ?H5, ?H6, ?H7, ?H8, ?H9; try (vm_compute; lia).
  all: constructor.
Qed.


Lemma Forall2_elem_of_l {A B : Type} (P : A -> B -> Prop) (l : list A) (k : list B) (x : A) :
  Forall2 P l k -> x ∈ l -> exists y, y ∈ k /\ P x y.
Proof.
  induction 1 as [|a b l k Hab _ IH]; intros Hin; [by apply elem_of_nil in Hin|].
  apply elem_of_cons in Hin as [->|Hin].
  - exists b. split; [by left|done].
  - destruct (IH Hin) as (y & Hy & HP). exists y. split; [by right|done].
Qed.

Lemma Forall2_elem_of_r {A B : Type} (P : A -> B -> Prop) (l : list A) (k : list B) (y : B) :
  Forall2 P l k -> y ∈ k -> exists x, x ∈ l /\ P x y.
Proof.
  induction 1 as [|a b l k Hab _ IH]; intros Hin; [by apply elem_of_nil in Hin|].
  apply elem_of_cons in Hin as [->|Hin].
  - exists a. split; [by left|done].
  - destruct (IH Hin) as (x & Hx & HP). exists x. split; [by right|done].
Qed.

(** ** The distance ranking *)

(** When no published distance is NaN, the comparator
    [a.distance - b.distance] is consistent and the ranking is sorted, ties
    standing in catalog order. *)
Lemma ranking_sorted_when_no_nan
    (s : Scene) (W Ht : float) (s' : Scene) (out : Published) :
  animate s W Ht = Some (s', out) ->
  Forall (λ e, is_nan (PlanetDistance.distance e) = false) (distances out) ->
  StronglySorted ascending_then_catalog (distances out).
Proof.
  intros Ha Hnn.
  apply animate_inv in Ha as (nd & Hnd & Hd & _ & _).
  pose proof (pushed_ids _ _ _ _ Hnd) as Hids.
  rewrite Hd in Hnn |- *.
  assert (Forall (λ e, is_nan (PlanetDistance.distance e) = false) nd) as Hnn'.
  { by rewrite <- (Array_sort_perm PlanetDistance.distance nd). }
  pose proof (Array_sort_sorted PlanetDistance.distance entry_index nd Hnn'
                (pushed_in_catalog_order nd Hids)) as Hs.
  eapply StronglySorted_weaken; [|exact Hs].
  intros a b Hain Hbin Hr.
  rewrite Forall_forall in Hnn.
  destruct (ranked_before_leb _ _ a b (Hnn a Hain) (Hnn b Hbin) Hr) as [Hle Hidx].
  split; [done|]. intros He. specialize (Hidx He).
  assert (forall e, e ∈ JS.Array_sort
            (λ a b, PlanetDistance.distance a - PlanetDistance.distance b) nd ->
          catalog_index (PlanetDistance.id e) = Some (entry_index e)) as Hci.
  { intros e He'. rewrite Array_sort_perm in He'.
    destruct (catalog_ids_index (PlanetDistance.id e)) as [n Hn].
    - rewrite <- Hids. by apply list_elem_of_fmap_2.
    - unfold entry_index. by rewrite Hn. }
  exists (entry_index a), (entry_index b). auto.
Qed.

(** The published distance is a number as soon as the reference point is
    finite and the mesh position has no NaN component. *)
Lemma published_distance_not_nan (cube mesh : Vector3.t) :
  Vector3.finite cube = true -> Vector3.no_nan mesh = true ->
  is_nan (JS.Number_toFixed2 (Vector3.distanceTo cube mesh / SCALE_FACTOR)) = false.
Proof.
  unfold Vector3.finite, Vector3.no_nan.
  rewrite !andb_true_iff, negb_true_iff, !orb_false_iff.
  intros [[Hx Hy] Hz] [[Mx My] Mz].
  apply IEEE.Number_toFixed2_not_nan, IEEE.nonneg_not_nan.
  unfold SCALE_FACTOR. apply IEEE.div_10_nonneg.
  unfold Vector3.distanceTo, Vector3.distanceToSquared.
  apply IEEE.sqrt_nonneg.
  repeat apply IEEE.add_nonneg; apply IEEE.square_nonneg; by apply IEEE.sub_not_nan.
Qed.

Lemma distances_not_nan (s : Scene) (W Ht : float) (s' : Scene) (out : Published) :
  animate s W Ht = Some (s', out) ->
  Vector3.finite (draggableCube s) = true ->
  map_Forall (λ _ mesh, Vector3.no_nan mesh = true) (planetMeshes s) ->
  Forall (λ e, is_nan (PlanetDistance.distance e) = false) (distances out).
Proof.
  intros Ha Hc Hm. apply Forall_forall. intros e He.
  apply animate_inv in Ha as (nd & Hnd & Hd & _ & _).
  rewrite Hd, Array_sort_perm in He.
  destruct (Forall2_elem_of_r _ _ _ _ Hnd He) as (planet & _ & mesh & Hl & ->).
  apply published_distance_not_nan; [done|]. by apply (Hm _ _ Hl).
Qed.

(** C1 (amended).  The ranking published by a frame is sorted ascending by
    the rounded distance, and two bodies with equal rounded distances appear
    in the order of the catalog [PLANETS]: the sort is stable and has no
    tie-break of its own.  This holds whenever the reference point is finite
    and no mesh position has a NaN component, so that every distance is a
    number. *)
Theorem ranking_sorted_ties_in_catalog_order
    (s : Scene) (W Ht : float) (s' : Scene) (out : Published) :
  animate s W Ht = Some (s', out) ->
  Vector3.finite (draggableCube s) = true ->
  map_Forall (λ _ mesh, Vector3.no_nan mesh = true) (planetMeshes s) ->
  StronglySorted ascending_then_catalog (distances out).
Proof.
  intros Ha Hc Hm. eapply ranking_sorted_when_no_nan; [exact Ha|].
  by eapply distances_not_nan.
Qed.

Lemma meshPosition_no_nan (pd : option ApiResponse.t) (planet : PlanetData.t) :
  data_no_nan pd -> Vector3.no_nan (meshPosition pd planet) = true.
Proof.
  intros Hpd. unfold meshPosition.
  destruct (pd ≫= _) as [coords|] eqn:E; [|done].
  apply bind_Some in E as (r & -> & Hl).
  destruct (Hpd r _ coords eq_refl Hl) as (Hx & Hy & Hz).
  unfold Vector3.no_nan, SCALE_FACTOR. simpl.
  by rewrite !IEEE.mul_10_not_nan.
Qed.

Lemma foldl_insert_map_Forall (P : Vector3.t -> Prop) (f : PlanetData.t -> Vector3.t)
    (l : list PlanetData.t) (m : gmap string Vector3.t) :
  (forall planet, P (f planet)) -> map_Forall (λ _, P) m ->
  map_Forall (λ _, P) (foldl (λ m planet, <[PlanetData.id planet := f planet]> m) m l).
Proof.
  intros Hf. revert m. induction l as [|a l IH]; intros m Hm; simpl; [done|].
  apply IH. by apply map_Forall_insert_2.
Qed.

Lemma buildScene_no_nan (pd : option ApiResponse.t) (cs : option CameraState.t) :
  data_no_nan pd ->
  map_Forall (λ _ mesh, Vector3.no_nan mesh = true) (planetMeshes (buildScene pd cs)).
Proof.
  intros Hpd. rewrite buildScene_planetMeshes.
  apply (foldl_insert_map_Forall (λ mesh, Vector3.no_nan mesh = true)).
  - intros planet. by apply meshPosition_no_nan.
  - by apply map_Forall_singleton.
Qed.


(** Every body has its entry in the ranking, built by [rankEntry] from the
    body's mesh. *)
Lemma animate_entry_of_planet
    (s : Scene) (W Ht : float) (s' : Scene) (out : Published) (planet : PlanetData.t) :
  animate s W Ht = Some (s', out) -> planet ∈ PLANETS ->
  exists mesh,
    planetMeshes s !! PlanetData.id planet = Some mesh /\
    rankEntry s (controls_update (controls s)) W Ht planet mesh ∈ distances out.
Proof.
  intros Ha Hin. apply animate_inv in Ha as (nd & Hnd & -> & _ & _).
  destruct (Forall2_elem_of_l _ _ _ _ Hnd Hin) as (e & He & mesh & Hm & ->).
  exists mesh. split; [done|]. by rewrite Array_sort_perm.
Qed.

(** Every entry of the ranking is the entry of some body. *)
Lemma animate_planet_of_entry
    (s : Scene) (W Ht : float) (s' : Scene) (out : Published) (e : PlanetDistance.t) :
  animate s W Ht = Some (s', out) -> e ∈ distances out ->
  exists planet mesh,
    planet ∈ PLANETS /\
    planetMeshes s !! PlanetData.id planet = Some mesh /\
    e = rankEntry s (controls_update (controls s)) W Ht planet mesh.
Proof.
  intros Ha Hin. apply animate_inv in Ha as (nd & Hnd & Hd & _ & _).
  rewrite Hd, Array_sort_perm in Hin.
  destruct (Forall2_elem_of_r _ _ _ _ Hnd Hin) as (planet & Hp & mesh & Hm & ->).
  eauto.
Qed.

(** ** Rounding of the published distance *)

Lemma toFixed_n_nearest (m : positive) (e : Z) : nearest_hundredth m e (JS.toFixed_n m e).
Proof.
  unfold nearest_hundredth, JS.toFixed_n.
  destruct (0 <=? e)%Z eqn:He; [lia|].
  apply Z.leb_gt in He.
  assert (0 < 2 ^ (- e))%Z as HP by (apply Z.pow_pos_nonneg; lia).
  replace (1 - e)%Z with (Z.succ (- e)) by lia.
  rewrite Z.pow_succ_r by lia.
  pose proof (Z.div_mod (200 * Z.pos m + 2 ^ (- e)) (2 * 2 ^ (- e))) as Hdm.
  pose proof (Z.mod_pos_bound (200 * Z.pos m + 2 ^ (- e)) (2 * 2 ^ (- e))) as Hb.
  nia.
Qed.

Lemma nearest_hundredth_unique (m : positive) (e n : Z) :
  nearest_hundredth m e n -> n = JS.toFixed_n m e.
Proof.
  intros Hn. pose proof (toFixed_n_nearest m e) as Ht.
  unfold nearest_hundredth in *.
  destruct (0 <=? e)%Z eqn:He; [unfold JS.toFixed_n in *; rewrite He in *; lia|].
  apply Z.leb_gt in He.
  assert (0 < 2 ^ (- e))%Z as HP by (apply Z.pow_pos_nonneg; lia).
  nia.
Qed.

Lemma Number_toFixed2_rounded (q : float) : rounded_to_2_decimals q (JS.Number_toFixed2 q).
Proof.
  unfold rounded_to_2_decimals, JS.Number_toFixed2.
  destruct (Prim2SF q) as [s|s| |s m e]; try done.
  destruct (10 ^ 21 <=? Z.pos m * 2 ^ e)%Z; [done|].
  exists (JS.toFixed_n m e). split; [apply toFixed_n_nearest|done].
Qed.

Lemma Number_toFixed2_binary64 (a : float) :
  rounded_in_binary64 (sqrt a / 10) (JS.Number_toFixed2 (sqrt a / 10)).
Proof.
  unfold rounded_in_binary64, JS.Number_toFixed2.
  destruct (Prim2SF (sqrt a / 10)) as [sg|sg| |sg m e] eqn:E; try done.
  - by apply IEEE.sqrt_div_10_infinity in E.
  - pose proof (IEEE.sqrt_div_10_sign a sg m e E) as ->. split; [done|].
    exists (JS.toFixed_n m e). split; [apply toFixed_n_nearest|].
    pose proof (IEEE.toFixed_n_nonneg m e) as Hn.
    destruct (Z.ltb_spec (JS.toFixed_n m e) (2 ^ 53)) as [Hlt|Hge].
    + assert ((10 ^ 21 <=? Z.pos m * 2 ^ e)%Z = false) as ->.
      { apply Z.leb_gt. unfold JS.toFixed_n in Hlt.
        destruct (0 <=? e)%Z eqn:He.
        - eapply Z.le_lt_trans; [|eapply Z.lt_trans; [exact Hlt|done]]. lia.
        - apply Z.leb_gt in He. rewrite Z.pow_neg_r by done. lia. }
      destruct (JS.toFixed_n m e) as [|p|p]; [done| |lia].
      by apply IEEE.Number_of_hundredths_div.
    + destruct (10 ^ 21 <=? Z.pos m * 2 ^ e)%Z; [done|].
      by apply IEEE.Number_of_hundredths_large.
Qed.

(** C3 (amended).  For every body, the published distance is
    [Number(q.toFixed(2))] of the Number
    [q = Math.sqrt(dx*dx + dy*dy + dz*dz) / 10], where [dx], [dy], [dz] are
    the differences of the components of the reference point and of the
    body's scene position and every operation is the binary64 one.  [q] is
    never negative, and it is rounded in its exact binary value [m * 2^e]:
    with [n] the integer nearest to [100 * m * 2^e], the larger one on a
    tie, the published value is the Number nearest to [n / 100], which is
    [n / 100] in binary64 for [n] below [2^53] and [q] itself from there
    on.  NaN, infinity and zero are published as NaN, infinity and 0.
    This is not the rounding of the real quotient half away from zero: a
    norm of 0.75 gives the Number just below 0.075, and 0.07 is published. *)
Theorem published_distance_rounded
    (s : Scene) (W Ht : float) (s' : Scene) (out : Published) (planet : PlanetData.t) :
  animate s W Ht = Some (s', out) -> planet ∈ PLANETS ->
  exists mesh e,
    planetMeshes s !! PlanetData.id planet = Some mesh /\
    e ∈ distances out /\
    PlanetDistance.id e = PlanetData.id planet /\
    let dx := Vector3.x (draggableCube s) - Vector3.x mesh in
    let dy := Vector3.y (draggableCube s) - Vector3.y mesh in
    let dz := Vector3.z (draggableCube s) - Vector3.z mesh in
    let q := sqrt (dx * dx + dy * dy + dz * dz) / 10 in
    PlanetDistance.distance e = JS.Number_toFixed2 q /\
    rounded_to_2_decimals q (PlanetDistance.distance e) /\
    rounded_in_binary64 q (PlanetDistance.distance e).
Proof.
  intros Ha Hin.
  destruct (animate_entry_of_planet _ _ _ _ _ _ Ha Hin) as (mesh & Hm & He).
  exists mesh, (rankEntry s (controls_update (controls s)) W Ht planet mesh).
  split; [done|]. split; [done|]. split; [done|]. cbv zeta.
  split; [reflexivity|]. split.
  - apply Number_toFixed2_rounded.
  - apply Number_toFixed2_binary64.
Qed.

(** ** Which bodies are ranked *)

Lemma NoDup_catalog_ids : NoDup (PlanetData.id <$> PLANETS).
Proof. apply (bool_decide_unpack _). by vm_compute. Qed.

Lemma animate_ids (s : Scene) (W Ht : float) (s' : Scene) (out : Published) :
  animate s W Ht = Some (s', out) ->
  PlanetDistance.id <$> distances out ≡ₚ PlanetData.id <$> PLANETS.
Proof.
  intros Ha. apply animate_inv in Ha as (nd & Hnd & -> & _ & _).
  rewrite Array_sort_perm. by rewrite (pushed_ids _ _ _ _ Hnd).
Qed.

Lemma animate_built_scene (pd : option ApiResponse.t) (cs : option CameraState.t)
    (cube : Vector3.t) (W Ht : float) :
  is_Some (animate (dragCube cube (buildScene pd cs)) W Ht).
Proof.
  apply animate_is_Some. intros planet Hin.
  change (planetMeshes (dragCube cube (buildScene pd cs)))
    with (planetMeshes (buildScene pd cs)).
  rewrite buildScene_lookup by done. by eexists.
Qed.

(** X5.  For the scenes that the component builds from data without NaN,
    with the cube dragged to any finite position, every frame succeeds and
    its ranking is sorted, ties standing in catalog order. *)
Corollary built_scene_ranking_sorted (pd : option ApiResponse.t) (cs : option CameraState.t)
    (cube : Vector3.t) (W Ht : float) :
  data_no_nan pd -> Vector3.finite cube = true ->
  exists s' out,
    animate (dragCube cube (buildScene pd cs)) W Ht = Some (s', out) /\
    StronglySorted ascending_then_catalog (distances out).
Proof.
  intros Hpd Hc.
  destruct (animate_built_scene pd cs cube W Ht) as [[s' out] Ha].
  exists s', out. split; [done|].
  eapply ranking_sorted_when_no_nan; [exact Ha|].
  eapply distances_not_nan; [exact Ha|exact Hc|].
  by apply buildScene_no_nan.
Qed.



(** ** Label positions *)

Lemma foldl_insert_lookup_notin (l : list PlanetDistance.t)
    (m : gmap string PlanetPosition.t) (i : string) :
  i ∉ PlanetDistance.id <$> l ->
  foldl (λ m planet, <[PlanetDistance.id planet := PlanetDistance.position planet]> m) m l
    !! i = m !! i.
Proof.
  revert m. induction l as [|a l IH]; intros m Hni; [done|].
  rewrite fmap_cons in Hni. apply not_elem_of_cons in Hni as [Hne Hni].
  simpl. rewrite IH by done. by rewrite lookup_insert_ne.
Qed.

Lemma foldl_insert_lookup (l : list PlanetDistance.t)
    (m : gmap string PlanetPosition.t) (e : PlanetDistance.t) :
  NoDup (PlanetDistance.id <$> l) -> e ∈ l ->
  foldl (λ m planet, <[PlanetDistance.id planet := PlanetDistance.position planet]> m) m l
    !! PlanetDistance.id e = Some (PlanetDistance.position e).
Proof.
  revert m. induction l as [|a l IH]; intros m Hnd Hin; [by apply elem_of_nil in Hin|].
  rewrite fmap_cons in Hnd. apply NoDup_cons in Hnd as [Hna Hnd].
  apply elem_of_cons in Hin as [->|Hin]; simpl.
  - rewrite foldl_insert_lookup_notin by done. apply lookup_insert_eq.
  - by apply IH.
Qed.

(** C9.  The pixel position published for a body is obtained from its
    normalized device coordinates by
    [x = (ndcX * 0.5 + 0.5) * innerWidth] and
    [y = (-ndcY * 0.5 + 0.5) * innerHeight]. *)
Theorem label_pixel_position
    (s : Scene) (W Ht : float) (s' : Scene) (out : Published)
    (planet : PlanetData.t) (mesh : Vector3.t) :
  animate s W Ht = Some (s', out) -> planet ∈ PLANETS ->
  planetMeshes s !! PlanetData.id planet = Some mesh ->
  let ndc := project (controls_update (controls s)) mesh in
  planetPositions out !! PlanetData.id planet =
  Some (PlanetPosition.mk ((Vector3.x ndc * 0.5 + 0.5) * W)
                          ((- Vector3.y ndc * 0.5 + 0.5) * Ht)).
Proof.
  intros Ha Hin Hm ndc.
  destruct (animate_entry_of_planet _ _ _ _ _ _ Ha Hin) as (mesh' & Hm' & He).
  rewrite Hm in Hm'. injection Hm' as <-.
  pose proof (animate_ids _ _ _ _ _ Ha) as Hids.
  apply animate_inv in Ha as (nd & _ & _ & -> & _).
  apply (foldl_insert_lookup _ ∅) in He; [exact He|].
  rewrite Hids. apply NoDup_catalog_ids.
Qed.

(** ** The reference point *)

(** C10 (amended).  The reference cube of a freshly built scene is at
    (20,20,20), so before any drag the distance published for every body is
    the norm of ((20,20,20) - scene position) divided by 10, rounded to 2
    decimal places. *)
Theorem initial_reference_point (pd : option ApiResponse.t) (cs : option CameraState.t)
    (W Ht : float) :
  draggableCube (buildScene pd cs) = Vector3.mk 20 20 20 /\
  exists s' out,
    animate (buildScene pd cs) W Ht = Some (s', out) /\
    forall planet, planet ∈ PLANETS ->
      exists mesh e,
        planetMeshes (buildScene pd cs) !! PlanetData.id planet = Some mesh /\
        e ∈ distances out /\
        PlanetDistance.id e = PlanetData.id planet /\
        PlanetDistance.distance e =
          JS.Number_toFixed2 (Vector3.distanceTo (Vector3.mk 20 20 20) mesh / 10).
Proof.
  split; [done|].
  destruct (animate_built_scene pd cs (Vector3.mk 20 20 20) W Ht) as [[s' out] Ha].
  change (dragCube (Vector3.mk 20 20 20) (buildScene pd cs)) with (buildScene pd cs) in Ha.
  exists s', out. split; [done|]. intros planet Hin.
  destruct (animate_entry_of_planet _ _ _ _ _ _ Ha Hin) as (mesh & Hm & He).
  exists mesh, (rankEntry (buildScene pd cs) (controls_update (controls (buildScene pd cs)))
                  W Ht planet mesh).
  done.
Qed.

(** ** Scene positions *)

(** C8 (amended).  For every body other than the sun: with a coordinate in
    the refresh data the scene position is the coordinate multiplied
    componentwise by 10, and without one it is the fallback (10,0,0); the
    construction is total.  The sun is always at the origin. *)
Theorem scene_position_of_body (pd : option ApiResponse.t) (cs : option CameraState.t)
    (planet : PlanetData.t) :
  planet ∈ PLANETS ->
  planetMeshes (buildScene pd cs) !! PlanetData.id planet =
  Some (if String.eqb (PlanetData.id planet) "sun" then Vector3.mk 0 0 0
        else match pd ≫= (λ r, ApiResponse.data r !! PlanetData.id planet) with
             | Some coords => scaled coords
             | None => Vector3.mk 10 0 0
             end).
Proof. intros Hin. by rewrite buildScene_lookup. Qed.

Lemma mul_SCALE_FACTOR_not_finite (c : float) :
  is_finite c = false -> is_finite (c * SCALE_FACTOR) = false.
Proof.
  unfold is_finite. rewrite !negb_false_iff, !orb_true_iff. intros [Hn|Hi].
  - left. by apply IEEE.mul_nan_l.
  - right. unfold SCALE_FACTOR. by rewrite IEEE.mul_infinity_10.
Qed.

(** C7 (amended).  A coordinate with a NaN or infinite component is not
    rejected: the scene position of the body is still the coordinate times
    10, and each non-finite component stays non-finite.  The fallback
    position is used only for a body without a coordinate. *)
Theorem non_finite_coordinate_propagates
    (pd : option ApiResponse.t) (cs : option CameraState.t)
    (planet : PlanetData.t) (coords : CoordinateData.t) :
  planet ∈ PLANETS -> PlanetData.id planet <> "sun" ->
  pd ≫= (λ r, ApiResponse.data r !! PlanetData.id planet) = Some coords ->
  planetMeshes (buildScene pd cs) !! PlanetData.id planet = Some (scaled coords) /\
  (is_finite (CoordinateData.x coords) = false -> is_finite (Vector3.x (scaled coords)) = false) /\
  (is_finite (CoordinateData.y coords) = false -> is_finite (Vector3.y (scaled coords)) = false) /\
  (is_finite (CoordinateData.z coords) = false -> is_finite (Vector3.z (scaled coords)) = false).
Proof.
  intros Hin Hsun Hc. rewrite buildScene_lookup by done.
  apply String.eqb_neq in Hsun. rewrite Hsun. unfold meshPosition. rewrite Hc.
  repeat split; apply mul_SCALE_FACTOR_not_finite.
Qed.

(** ** Camera flights *)

Lemma leb_not_nan (a b : float) :
  (a <=? b) = true -> is_nan a = false /\ is_nan b = false.
Proof.
  rewrite FloatAxioms.leb_spec, !IEEE.not_nan_Prim2SF. unfold SFleb.
  destruct (Prim2SF a), (Prim2SF b); done.
Qed.

(** [Math.min(q, 1)] is exactly [1] as soon as [q >= 1]. *)
Lemma Math_min_ge_1 (q : float) : (1 <=? q) = true -> JS.Math_min q 1 = 1.
Proof.
  intros Hq. destruct (leb_not_nan _ _ Hq) as [H1 Hn].
  rewrite IEEE.leb_key in Hq by done. apply Z.leb_le in Hq.
  assert (0 < IEEE.float_key 1)%Z as HK by (by vm_compute).
  unfold JS.Math_min. rewrite Hn. change (is_nan 1) with false. cbn [orb].
  rewrite !IEEE.ltb_key by done.
  destruct (Z.ltb_spec (IEEE.float_key q) (IEEE.float_key 1)); [lia|].
  destruct (Z.ltb_spec (IEEE.float_key 1) (IEEE.float_key q)); [done|].
  unfold get_sign, is_zero.
  rewrite IEEE.eqb_key by done. change (IEEE.float_key zero) with 0%Z.
  destruct (Z.eqb_spec (IEEE.float_key q) 0); [lia|].
  rewrite IEEE.ltb_key by done. change (IEEE.float_key zero) with 0%Z.
  destruct (Z.ltb_spec (IEEE.float_key q) 0); [lia|done].
Qed.

(** A flight evaluated at its own start time has progress [0]. *)
Lemma progress_at_start (f : Flight) :
  is_finite (startTime f) = true -> progress f (startTime f) = 0.
Proof. intros Hf. unfold progress. by rewrite IEEE.sub_diag. Qed.

Lemma lerp_component_0 (a b : float) :
  is_finite (b - a) = true -> (a + (b - a) * 0 =? a) = true.
Proof.
  intros Hd. apply IEEE.add_zero_r; [|by apply IEEE.mul_zero_r].
  apply IEEE.is_finite_not_nan. by apply IEEE.sub_finite_operands in Hd as [_ ?].
Qed.

Lemma lerpVectors_0 (v1 v2 : Vector3.t) :
  finite_span v1 v2 = true -> Vector3.eqb (Vector3.lerpVectors v1 v2 0) v1 = true.
Proof.
  unfold finite_span, Vector3.eqb, Vector3.lerpVectors. simpl.
  rewrite !andb_true_iff. intros [[Hx Hy] Hz].
  by rewrite !lerp_component_0.
Qed.

Lemma easeProgress_0 (f : Flight) (now : float) :
  Math_pow 1 3 = 1 -> is_zero (progress f now) = true -> easeProgress f now = 0.
Proof.
  intros Hpow Hp. unfold easeProgress.
  rewrite (IEEE.sub_zero_r 1 (progress f now)); [|reflexivity|reflexivity|exact Hp].
  by rewrite Hpow.
Qed.

Lemma easeProgress_1 (f : Flight) (now : float) :
  Math_pow 0 3 = 0 -> (1 <=? (now - startTime f) / duration) = true ->
  progress f now = 1 /\ easeProgress f now = 1.
Proof.
  intros Hpow Hq. unfold easeProgress, progress.
  rewrite Math_min_ge_1 by done. split; [done|].
  change (1 - 1) with 0%float. by rewrite Hpow.
Qed.


(** *** Several flights at once *)


Lemma runCallbacks_app (q1 q2 : list Flight) (n : nat) (c : OrbitControls.t ControlsState) :
  runCallbacks (q1 ++ q2) n c =
  let '(r1, n1, c1) := runCallbacks q1 n c in
  let '(r2, n2, c2) := runCallbacks q2 n1 c1 in
  (r1 ++ r2, n2, c2).
Proof.
  revert n c. induction q1 as [|g q1 IH]; intros n c; cbn [runCallbacks app].
  - by destruct (runCallbacks q2 n c) as [[r2 n2] c2].
  - destruct (animateCamera g (Date_now n) c) as [c1 again].
    rewrite IH.
    destruct (runCallbacks q1 (S n) c1) as [[r1 n1] c1'].
    destruct (runCallbacks q2 n1 c1') as [[r2 n2] c2].
    by rewrite app_assoc.
Qed.

Lemma runCallbacks_ticks (q : list Flight) (n : nat) (c : OrbitControls.t ControlsState) :
  (runCallbacks q n c).1.2 = (n + length q)%nat.
Proof.
  revert n c. induction q as [|g q IH]; intros n c; cbn [runCallbacks length]; [simpl; lia|].
  destruct (animateCamera g (Date_now n) c) as [c1 again].
  specialize (IH (S n) c1).
  destruct (runCallbacks q (S n) c1) as [[r n'] c2]. simpl in *. lia.
Qed.

(** Flights leave the queue only by finishing; the others keep their order. *)
Lemma runCallbacks_sublist (q : list Flight) (n : nat) (c : OrbitControls.t ControlsState) :
  sublist (runCallbacks q n c).1.1 q.
Proof.
  revert n c. induction q as [|g q IH]; intros n c; cbn [runCallbacks]; [done|].
  destruct (animateCamera g (Date_now n) c) as [c1 again].
  specialize (IH (S n) c1).
  destruct (runCallbacks q (S n) c1) as [[r n'] c2]. simpl in *.
  destruct again; simpl; by constructor.
Qed.

(** The flight that runs last in a frame decides the camera state. *)
Lemma runCallbacks_last (q : list Flight) (g : Flight) (n : nat)
    (c : OrbitControls.t ControlsState) :
  exists st,
    (runCallbacks (q ++ [g]) n c).2 =
    controls_update
      (OrbitControls.mk
         (CameraState.position (flightState g (Date_now (n + length q))))
         (CameraState.target (flightState g (Date_now (n + length q)))) st).
Proof.
  rewrite runCallbacks_app.
  pose proof (runCallbacks_ticks q n c) as Hn.
  destruct (runCallbacks q n c) as [[r1 n1] c1]. simpl in Hn. subst n1.
  simpl. by eexists.
Qed.






(** ** Data refresh *)

(** C6 (amended).  A refresh snapshots position and target of the camera
    when the request is issued, and every rebuild of the scene, the one that
    follows the snapshot and the one that follows the response, starts from
    that snapshot, whatever happened to the mounted scene in between: the
    new camera is put at the snapshot position, [new OrbitControls] runs
    [update()] with the target at the origin, the target of the snapshot is
    copied, and the first run of the render loop runs [update()] again.  So
    the restored state is the snapshot passed through these two updates; it
    is the snapshot itself when [update()] leaves position and target
    alone.  When there is no scene yet and no snapshot, the same holds of
    the position (0,50,100) and the origin as target. *)
Theorem refresh_restores_camera
    (data : ApiResponse.t) (c : Component) (during : option Scene) :
  let requested := sceneEffect (storeCameraState c) in
  let answered :=
    sceneEffect (setPlanetData data
      (mkComponent (planetData requested) (cameraState requested) during)) in
  let update_keeps :=
    forall k, OrbitControls.object_position (controls_update k) =
                OrbitControls.object_position k /\
              OrbitControls.target (controls_update k) = OrbitControls.target k in
  planetData answered = Some data /\
  (forall s, scene c = Some s ->
     let p := OrbitControls.object_position (controls s) in
     let t := OrbitControls.target (controls s) in
     let built := controls_update (OrbitControls.mk p Vector3.zero controls_init) in
     let restored :=
       controls_update
         (OrbitControls.mk (OrbitControls.object_position built) t
            (controls_configure (OrbitControls.state built))) in
     cameraState answered = Some (CameraState.mk p t) /\
     (exists s1, scene requested = Some s1 /\ controls s1 = restored) /\
     (exists s2, scene answered = Some s2 /\ controls s2 = restored) /\
     (update_keeps ->
      OrbitControls.object_position restored = p /\ OrbitControls.target restored = t)) /\
  (scene c = None -> cameraState c = None ->
     let built :=
       controls_update (OrbitControls.mk (Vector3.mk 0 50 100) Vector3.zero controls_init) in
     let mounted :=
       controls_update
         (OrbitControls.mk (OrbitControls.object_position built) (OrbitControls.target built)
            (controls_configure (OrbitControls.state built))) in
     (exists s2, scene answered = Some s2 /\ controls s2 = mounted) /\
     (update_keeps ->
      OrbitControls.object_position mounted = Vector3.mk 0 50 100 /\
      OrbitControls.target mounted = Vector3.mk 0 0 0)).
Proof.
  intros requested answered update_keeps. split; [done|]. split.
  - intros s Hs p t built restored.
    assert (cameraState requested = Some (CameraState.mk p t)) as Hcs.
    { unfold requested, storeCameraState. by rewrite Hs. }
    split; [exact Hcs|]. split; [|split].
    + unfold requested, storeCameraState. rewrite Hs. by eexists.
    + unfold answered, sceneEffect at 1, setPlanetData. cbn [scene cameraState planetData].
      rewrite Hcs. by eexists.
    + intros Hk. subst restored.
      destruct (Hk (OrbitControls.mk (OrbitControls.object_position built) t
                      (controls_configure (OrbitControls.state built)))) as [-> ->].
      cbn [OrbitControls.object_position OrbitControls.target].
      subst built. by destruct (Hk (OrbitControls.mk p Vector3.zero controls_init)) as [-> _].
  - intros Hs Hcs built mounted.
    assert (cameraState requested = None) as Hr.
    { unfold requested, storeCameraState. by rewrite Hs. }
    split.
    + unfold answered, sceneEffect at 1, setPlanetData. cbn [scene cameraState planetData].
      rewrite Hr. by eexists.
    + intros Hk. subst mounted.
      destruct (Hk (OrbitControls.mk (OrbitControls.object_position built)
                      (OrbitControls.target built)
                      (controls_configure (OrbitControls.state built)))) as [-> ->].
      cbn [OrbitControls.object_position OrbitControls.target].
      subst built.
      by destruct (Hk (OrbitControls.mk (Vector3.mk 0 50 100) Vector3.zero controls_init))
        as [-> ->].
Qed.

End Pipeline.

(** ** Lists *)

Lemma sort_insert_fmap {A B : Type} (g : A -> B) (cmp : A -> A -> float)
    (cmp' : B -> B -> float) (x : A) (l : list A) :
  (forall a b, cmp' (g a) (g b) = cmp a b) ->
  g <$> JS.sort_insert cmp x l = JS.sort_insert cmp' (g x) (g <$> l).
Proof.
  intros Hc. induction l as [|y l IH]; [done|].
  cbn [JS.sort_insert fmap list_fmap]. rewrite Hc.
  destruct (0 <? cmp x y)%float; cbn [fmap list_fmap]; [|done].
  f_equal. exact IH.
Qed.

(** Sorting commutes with a projection that the comparator factors
    through. *)
Lemma Array_sort_fmap {A B : Type} (g : A -> B) (cmp : A -> A -> float)
    (cmp' : B -> B -> float) (l : list A) :
  (forall a b, cmp' (g a) (g b) = cmp a b) ->
  g <$> JS.Array_sort cmp l = JS.Array_sort cmp' (g <$> l).
Proof.
  intros Hc. induction l as [|x l IH]; [done|].
  cbn [JS.Array_sort foldr fmap list_fmap].
  rewrite (sort_insert_fmap g cmp cmp') by done. f_equal. exact IH.
Qed.

Lemma StronglySorted_filter {A : Type} (R : A -> A -> Prop) (P : A -> Prop)
    `{!forall x, Decision (P x)} (l : list A) :
  StronglySorted R l -> StronglySorted R (filter P l).
Proof.
  induction 1 as [|x l Hs IH Hx]; [constructor|].
  rewrite filter_cons. destruct (decide (P x)); [|done].
  constructor; [done|].
  rewrite Forall_forall in Hx. apply Forall_forall. intros y Hy.
  apply list_elem_of_filter in Hy as [_ Hy]. by apply Hx.
Qed.

Lemma length_filter_fmap {A B : Type} (f : A -> B) (P : B -> Prop)
    `{!forall y, Decision (P y)} (l : list A) :
  length (filter (λ a, P (f a)) l) = length (filter P (f <$> l)).
Proof.
  induction l as [|a l IH]; [done|].
  rewrite fmap_cons, !filter_cons. destruct (decide (P (f a))); simpl; by rewrite IH.
Qed.

Lemma NoDup_fmap_eq {A B : Type} (f : A -> B) (l : list A) (x y : A) :
  NoDup (f <$> l) -> x ∈ l -> y ∈ l -> f x = f y -> x = y.
Proof.
  intros Hnd Hx Hy Hxy.
  apply list_elem_of_lookup in Hx as [i Hi]. apply list_elem_of_lookup in Hy as [j Hj].
  assert (i = j) as ->; [|congruence].
  eapply NoDup_lookup; [exact Hnd| |]; rewrite list_lookup_fmap.
  - by rewrite Hi.
  - rewrite Hj. simpl. by rewrite Hxy.
Qed.

(** ** The published ranking *)

Section Ranking.
Context `{Host}.
Local Open Scope float_scope.

Lemma distanceTo_nonneg (cube mesh : Vector3.t) :
  Vector3.finite cube = true -> Vector3.no_nan mesh = true ->
  (0 <=? Vector3.distanceTo cube mesh / SCALE_FACTOR) = true.
Proof.
  unfold Vector3.finite, Vector3.no_nan.
  rewrite !andb_true_iff, negb_true_iff, !orb_false_iff.
  intros [[Hx Hy] Hz] [[Mx My] Mz].
  unfold SCALE_FACTOR. apply IEEE.div_10_nonneg.
  unfold Vector3.distanceTo, Vector3.distanceToSquared.
  apply IEEE.sqrt_nonneg.
  repeat apply IEEE.add_nonneg; apply IEEE.square_nonneg; by apply IEEE.sub_not_nan.
Qed.

Lemma published_distance_nonneg (cube mesh : Vector3.t) :
  Vector3.finite cube = true -> Vector3.no_nan mesh = true ->
  (0 <=? JS.Number_toFixed2 (Vector3.distanceTo cube mesh / SCALE_FACTOR)) = true.
Proof. intros Hc Hm. by apply IEEE.Number_toFixed2_nonneg, distanceTo_nonneg. Qed.

(** X1.  When the reference point is finite and no mesh position has a NaN
    component, every published distance is a number that is not negative. *)
Theorem published_distances_nonnegative
    (s : Scene) (W Ht : float) (s' : Scene) (out : Published) :
  animate s W Ht = Some (s', out) ->
  Vector3.finite (draggableCube s) = true ->
  map_Forall (λ _ mesh, Vector3.no_nan mesh = true) (planetMeshes s) ->
  Forall (λ e, (0 <=? PlanetDistance.distance e) = true) (distances out).
Proof.
  intros Ha Hc Hm. apply Forall_forall. intros e He.
  destruct (animate_planet_of_entry _ _ _ _ _ _ Ha He) as (planet & mesh & _ & Hl & ->).
  apply published_distance_nonneg; [done|]. by apply (Hm _ _ Hl).
Qed.

Lemma square_sub_infinite (c m : float) :
  is_finite c = true -> is_nan m = false -> is_finite m = false ->
  ((c - m) * (c - m)) = infinity.
Proof.
  intros Hc Hn Hf. destruct (IEEE.not_finite_cases m Hn Hf) as [s Hs].
  eapply IEEE.square_infinite. by apply IEEE.sub_infinite.
Qed.

Lemma square_sub_nonneg (c m : float) :
  is_finite c = true -> is_nan m = false -> (0 <=? (c - m) * (c - m)) = true.
Proof. intros Hc Hm. by apply IEEE.square_nonneg, IEEE.sub_not_nan. Qed.

Lemma published_distance_infinite (cube mesh : Vector3.t) :
  Vector3.finite cube = true -> Vector3.no_nan mesh = true ->
  Vector3.finite mesh = false ->
  JS.Number_toFixed2 (Vector3.distanceTo cube mesh / SCALE_FACTOR) = infinity.
Proof.
  unfold Vector3.finite at 1, Vector3.no_nan.
  rewrite !andb_true_iff, negb_true_iff, !orb_false_iff.
  intros [[Hx Hy] Hz] [[Mx My] Mz] Hf.
  assert (Vector3.distanceToSquared cube mesh = infinity) as Hsq.
  { unfold Vector3.distanceToSquared. cbv zeta.
    pose proof (square_sub_nonneg _ _ Hx Mx) as Nx.
    pose proof (square_sub_nonneg _ _ Hy My) as Ny.
    pose proof (square_sub_nonneg _ _ Hz Mz) as Nz.
    unfold Vector3.finite in Hf. rewrite !andb_false_iff in Hf.
    destruct Hf as [[Hf|Hf]|Hf].
    - rewrite (square_sub_infinite _ _ Hx Mx Hf).
      rewrite (IEEE.add_infinity_l _ Ny). by rewrite (IEEE.add_infinity_l _ Nz).
    - rewrite (square_sub_infinite _ _ Hy My Hf).
      rewrite (IEEE.add_infinity_r _ Nx). by rewrite (IEEE.add_infinity_l _ Nz).
    - rewrite (square_sub_infinite _ _ Hz Mz Hf).
      apply IEEE.add_infinity_r. by apply IEEE.add_nonneg. }
  unfold Vector3.distanceTo. rewrite Hsq. reflexivity.
Qed.

(** X2.  A body whose mesh has an infinite component (and no NaN
    component) is published at distance [Infinity], for every finite
    position of the cube. *)
Theorem infinite_position_ranked_at_infinity
    (s : Scene) (W Ht : float) (s' : Scene) (out : Published)
    (planet : PlanetData.t) (mesh : Vector3.t) :
  animate s W Ht = Some (s', out) -> planet ∈ PLANETS ->
  planetMeshes s !! PlanetData.id planet = Some mesh ->
  Vector3.finite (draggableCube s) = true ->
  Vector3.no_nan mesh = true -> Vector3.finite mesh = false ->
  exists e, e ∈ distances out /\
    PlanetDistance.id e = PlanetData.id planet /\
    PlanetDistance.distance e = infinity.
Proof.
  intros Ha Hin Hm Hc Hn Hf.
  destruct (animate_entry_of_planet _ _ _ _ _ _ Ha Hin) as (mesh' & Hm' & He).
  rewrite Hm in Hm'. injection Hm' as <-.
  eexists. split; [exact He|]. split; [done|].
  by apply published_distance_infinite.
Qed.

Lemma distance_to_itself (p : Vector3.t) :
  Vector3.finite p = true ->
  JS.Number_toFixed2 (Vector3.distanceTo p p / SCALE_FACTOR) = 0.
Proof.
  unfold Vector3.finite. rewrite !andb_true_iff. intros [[Hx Hy] Hz].
  unfold Vector3.distanceTo, Vector3.distanceToSquared. cbv zeta.
  by rewrite !IEEE.sub_diag.
Qed.

(** X3.  A body on whose mesh the cube sits is published at distance 0. *)
Theorem cube_on_body_distance_zero
    (s : Scene) (W Ht : float) (s' : Scene) (out : Published) (planet : PlanetData.t) :
  animate s W Ht = Some (s', out) -> planet ∈ PLANETS ->
  planetMeshes s !! PlanetData.id planet = Some (draggableCube s) ->
  Vector3.finite (draggableCube s) = true ->
  exists e, e ∈ distances out /\
    PlanetDistance.id e = PlanetData.id planet /\ PlanetDistance.distance e = 0.
Proof.
  intros Ha Hin Hm Hc.
  destruct (animate_entry_of_planet _ _ _ _ _ _ Ha Hin) as (mesh' & Hm' & He).
  rewrite Hm in Hm'. injection Hm' as <-.
  eexists. split; [exact He|]. split; [done|].
  by apply distance_to_itself.
Qed.

(** *** The ranking does not depend on the camera *)

Lemma pushed_panelRow (s1 s2 : Scene) (W1 H1 W2 H2 : float)
    (nd1 nd2 : list PlanetDistance.t) :
  draggableCube s1 = draggableCube s2 -> planetMeshes s1 = planetMeshes s2 ->
  pushed s1 W1 H1 nd1 -> pushed s2 W2 H2 nd2 ->
  View.panelRow <$> nd1 = View.panelRow <$> nd2.
Proof.
  unfold pushed. intros Hc Hm. generalize PLANETS. intros l Hp1. revert nd2.
  induction Hp1 as [|planet e1 l nd1 (m1 & Hl1 & ->) _ IH]; intros nd2 Hp2.
  - by apply Forall2_nil_inv_l in Hp2 as ->.
  - apply Forall2_cons_inv_l in Hp2 as (e2 & nd2' & (m2 & Hl2 & ->) & Hp2 & ->).
    rewrite !fmap_cons. f_equal; [|by apply IH].
    rewrite Hm, Hl2 in Hl1. injection Hl1 as ->.
    unfold View.panelRow, rankEntry. simpl. by rewrite Hc.
Qed.

Lemma animate_distancesPanel (s1 s2 : Scene) (W1 H1 W2 H2 : float) (s1' s2' : Scene)
    (out1 out2 : Published) :
  animate s1 W1 H1 = Some (s1', out1) -> animate s2 W2 H2 = Some (s2', out2) ->
  draggableCube s1 = draggableCube s2 -> planetMeshes s1 = planetMeshes s2 ->
  View.distancesPanel (distances out1) = View.distancesPanel (distances out2).
Proof.
  intros Ha1 Ha2 Hc Hm. unfold View.distancesPanel.
  apply animate_inv in Ha1 as (nd1 & Hp1 & -> & _ & _).
  apply animate_inv in Ha2 as (nd2 & Hp2 & -> & _ & _).
  set (cmp' := λ a b : string * string * float, a.2 - b.2).
  rewrite !(Array_sort_fmap View.panelRow _ cmp') by done.
  by rewrite (pushed_panelRow _ _ _ _ _ _ _ _ Hc Hm Hp1 Hp2).
Qed.

(** X4.  After a frame, whatever the camera does and whatever the size of
    the window becomes, the next frame succeeds and the distances panel
    shows the same ids, names and distances in the same order: the ranking
    changes only with the cube and the meshes. *)
Theorem ranking_independent_of_camera
    (s : Scene) (W Ht : float) (s' : Scene) (out : Published)
    (camera : OrbitControls.t ControlsState) (W' Ht' : float) :
  animate s W Ht = Some (s', out) ->
  exists s'' out',
    animate (mkScene (draggableCube s') (planetMeshes s') camera) W' Ht' = Some (s'', out') /\
    View.distancesPanel (distances out') = View.distancesPanel (distances out).
Proof.
  intros Ha. pose proof Ha as Ha0.
  apply animate_inv in Ha as (nd & Hp & _ & _ & ->). cbn [draggableCube planetMeshes].
  destruct (animate_is_Some (mkScene (draggableCube s) (planetMeshes s) camera) W' Ht')
    as [[s'' out'] Ha'].
  { intros planet Hin. cbn [planetMeshes].
    destruct (Forall2_elem_of_l _ _ _ _ Hp Hin) as (e & _ & mesh & Hm & _). by eexists. }
  exists s'', out'. split; [done|].
  by apply (animate_distancesPanel _ _ _ _ _ _ _ _ _ _ Ha' Ha0).
Qed.

(** *** Labels *)

Lemma animate_NoDup (s : Scene) (W Ht : float) (s' : Scene) (out : Published) :
  animate s W Ht = Some (s', out) -> NoDup (PlanetDistance.id <$> distances out).
Proof. intros Ha. rewrite (animate_ids _ _ _ _ _ Ha). apply NoDup_catalog_ids. Qed.

Lemma animate_length (s : Scene) (W Ht : float) (s' : Scene) (out : Published) :
  animate s W Ht = Some (s', out) -> length (distances out) = 9%nat.
Proof.
  intros Ha. by rewrite <- (length_fmap PlanetDistance.id), (animate_ids _ _ _ _ _ Ha).
Qed.

Lemma omap_labels (l : list PlanetDistance.t) (m : gmap string PlanetPosition.t) :
  (forall e, e ∈ l -> m !! PlanetDistance.id e = Some (PlanetDistance.position e)) ->
  View.labels l m = (λ e, (PlanetDistance.name e, PlanetDistance.position e)) <$> l.
Proof.
  unfold View.labels. induction l as [|a l IH]; intros Hl; [done|].
  csimpl. rewrite (Hl a) by apply list_elem_of_here. csimpl. f_equal.
  apply IH. intros e He. apply Hl. by apply list_elem_of_further.
Qed.

(** X6.  Every ranked body gets a label, drawn at the pixel position
    computed for it in the same frame: there are nine labels, and
    [planetPositions] has a key for the ids of the catalog and for nothing
    else. *)
Theorem labels_follow_ranking
    (s : Scene) (W Ht : float) (s' : Scene) (out : Published) :
  animate s W Ht = Some (s', out) ->
  View.labels (distances out) (planetPositions out) =
    (λ e, (PlanetDistance.name e, PlanetDistance.position e)) <$> distances out /\
  length (View.labels (distances out) (planetPositions out)) = 9%nat /\
  forall i, is_Some (planetPositions out !! i) <-> i ∈ PlanetData.id <$> PLANETS.
Proof.
  intros Ha.
  pose proof (animate_NoDup _ _ _ _ _ Ha) as Hnd.
  pose proof (animate_ids _ _ _ _ _ Ha) as Hids.
  pose proof Ha as Hinv. apply animate_inv in Hinv as (nd & _ & _ & Hpp & _).
  assert (View.labels (distances out) (planetPositions out) =
    (λ e, (PlanetDistance.name e, PlanetDistance.position e)) <$> distances out) as Hl.
  { apply omap_labels. intros e He. rewrite Hpp. by apply foldl_insert_lookup. }
  split; [exact Hl|]. split.
  - rewrite Hl, length_fmap. by eapply animate_length.
  - intros i. rewrite <- Hids. split.
    + intros Hs. destruct (decide (i ∈ PlanetDistance.id <$> distances out)) as [|Hni]; [done|].
      rewrite Hpp, foldl_insert_lookup_notin in Hs by done.
      rewrite lookup_empty in Hs. by destruct Hs.
    + intros Hi. apply list_elem_of_fmap in Hi as (e & -> & He).
      rewrite Hpp, foldl_insert_lookup by done. by eexists.
Qed.

(** *** Selections from the ranking *)

(** Entries of a ranking selected by their id: there are as many as there
    are catalog ids with the property. *)
Lemma length_filter_ranking (P : string -> Prop) `{!forall i, Decision (P i)}
    (s : Scene) (W Ht : float) (s' : Scene) (out : Published) :
  animate s W Ht = Some (s', out) ->
  length (filter (λ e, P (PlanetDistance.id e)) (distances out)) =
  length (filter P (PlanetData.id <$> PLANETS)).
Proof.
  intros Ha. rewrite (length_filter_fmap PlanetDistance.id P).
  by rewrite (animate_ids _ _ _ _ _ Ha).
Qed.

(** Leaving out two ids leaves at least seven of the nine. *)
Lemma catalog_without_two (a b : string) :
  7 <= length (filter (λ i, i ≠ a ∧ i ≠ b) (PlanetData.id <$> PLANETS)).
Proof.
  pose proof NoDup_catalog_ids as Hnd.
  pose proof (filter_app_complement (λ i, i ≠ a ∧ i ≠ b) (PlanetData.id <$> PLANETS)) as Hp.
  apply Permutation_length in Hp. rewrite length_app in Hp.
  change (length (PlanetData.id <$> PLANETS)) with 9%nat in Hp.
  assert (length (filter (λ i, ¬ (i ≠ a ∧ i ≠ b)) (PlanetData.id <$> PLANETS)) <= 2); [|lia].
  assert (NoDup (filter (λ i, ¬ (i ≠ a ∧ i ≠ b)) (PlanetData.id <$> PLANETS))) as Hnd'
    by (by apply NoDup_filter).
  assert (filter (λ i, ¬ (i ≠ a ∧ i ≠ b)) (PlanetData.id <$> PLANETS) ⊆ [a; b]) as Hsub.
  { intros i Hi. apply list_elem_of_filter in Hi as [Hi _].
    destruct (decide (i = a)) as [->|Ha]; [by left|].
    destruct (decide (i = b)) as [->|Hb]; [right; by left|]. by destruct Hi. }
  destruct (decide (a = b)) as [->|Hab].
  - assert (filter (λ i, ¬ (i ≠ b ∧ i ≠ b)) (PlanetData.id <$> PLANETS) ⊆ [b]) as Hsub'.
    { intros i Hi. apply Hsub in Hi. apply elem_of_cons in Hi as [->|Hi]; [by left|done]. }
    pose proof (submseteq_length _ _ (NoDup_submseteq _ _ Hnd' Hsub')). simpl in *. lia.
  - pose proof (submseteq_length _ _ (NoDup_submseteq _ _ Hnd' Hsub)). simpl in *. lia.
Qed.

(** The first two of a selection from a ranking are two different bodies,
    and the two nearest selected bodies when the ranking is sorted. *)
Lemma selection_two_nearest (P : string -> Prop) `{!forall i, Decision (P i)}
    (s : Scene) (W Ht : float) (s' : Scene) (out : Published) :
  animate s W Ht = Some (s', out) ->
  2 <= length (filter P (PlanetData.id <$> PLANETS)) ->
  exists a b rest,
    filter (λ e, P (PlanetDistance.id e)) (distances out) = a :: b :: rest /\
    a ∈ distances out /\ b ∈ distances out /\
    P (PlanetDistance.id a) /\ P (PlanetDistance.id b) /\
    PlanetDistance.id a ≠ PlanetDistance.id b /\
    (Vector3.finite (draggableCube s) = true ->
     map_Forall (λ _ mesh, Vector3.no_nan mesh = true) (planetMeshes s) ->
     ascending_then_catalog a b /\
     forall e, e ∈ distances out -> P (PlanetDistance.id e) ->
       e = a \/ e = b \/ ascending_then_catalog b e).
Proof.
  intros Ha Hlen.
  rewrite <- (length_filter_ranking P _ _ _ _ _ Ha) in Hlen.
  pose proof (animate_NoDup _ _ _ _ _ Ha) as Hnd.
  apply NoDup_fmap_1 in Hnd as Hnd0.
  pose proof (NoDup_filter (λ e, P (PlanetDistance.id e)) _ Hnd0) as Hndf.
  assert (forall e, e ∈ filter (λ e, P (PlanetDistance.id e)) (distances out) <->
            P (PlanetDistance.id e) /\ e ∈ distances out) as Hel
    by (intros e; apply (list_elem_of_filter (λ e, P (PlanetDistance.id e)))).
  assert (Vector3.finite (draggableCube s) = true ->
          map_Forall (λ _ mesh, Vector3.no_nan mesh = true) (planetMeshes s) ->
          StronglySorted ascending_then_catalog
            (filter (λ e, P (PlanetDistance.id e)) (distances out))) as Hsorted.
  { intros Hc Hm. apply StronglySorted_filter.
    eapply ranking_sorted_when_no_nan; [exact Ha|]. by eapply distances_not_nan. }
  destruct (filter (λ e, P (PlanetDistance.id e)) (distances out)) as [|a [|b rest]];
    [simpl in Hlen; lia..|].
  exists a, b, rest. split; [done|].
  destruct (proj1 (Hel a)) as [Pa Ia]; [by left|].
  destruct (proj1 (Hel b)) as [Pb Ib]; [right; by left|].
  split; [exact Ia|]. split; [exact Ib|]. split; [exact Pa|]. split; [exact Pb|]. split.
  - intros Hab. apply NoDup_cons in Hndf as [Hna _]. apply Hna.
    rewrite (NoDup_fmap_eq PlanetDistance.id (distances out) a b Hnd Ia Ib Hab). by left.
  - intros Hc Hm. specialize (Hsorted Hc Hm). split.
    + apply StronglySorted_inv in Hsorted as [_ Hs].
      apply Forall_cons in Hs as [Hs _]. exact Hs.
    + apply StronglySorted_inv in Hsorted as [Hs _].
      apply StronglySorted_inv in Hs as [_ Hs].
      intros e He Pe. pose proof (proj2 (Hel e) (conj Pe He)) as Hin.
      apply elem_of_cons in Hin as [->|Hin]; [by left|].
      apply elem_of_cons in Hin as [->|Hin]; [right; by left|].
      right; right. rewrite Forall_forall in Hs. by apply Hs.
Qed.

(** X7.  The bottom info bar never reads past the end of the ranking: it is
    not rendered before the first frame, and for every published ranking it
    shows two different bodies other than the sun.  When the reference point
    is finite and no mesh position has a NaN component, these are the two
    nearest bodies other than the sun. *)
Theorem info_bar_shows_two_nearest
    (s : Scene) (W Ht : float) (s' : Scene) (out : Published) :
  animate s W Ht = Some (s', out) ->
  View.infoBar [] = Some None /\
  exists a b,
    View.infoBar (distances out) = Some (Some (a, b)) /\
    a ∈ distances out /\ b ∈ distances out /\
    PlanetDistance.id a ≠ "sun" /\ PlanetDistance.id b ≠ "sun" /\
    PlanetDistance.id a ≠ PlanetDistance.id b /\
    (Vector3.finite (draggableCube s) = true ->
     map_Forall (λ _ mesh, Vector3.no_nan mesh = true) (planetMeshes s) ->
     ascending_then_catalog a b /\
     forall e, e ∈ distances out -> PlanetDistance.id e ≠ "sun" ->
       e = a \/ e = b \/ ascending_then_catalog b e).
Proof.
  intros Ha. split; [reflexivity|].
  destruct (selection_two_nearest (λ i, i ≠ "sun") _ _ _ _ _ Ha)
    as (a & b & rest & Hf & Hrest); [vm_compute; lia|].
  exists a, b. split; [|exact Hrest].
  unfold View.infoBar, View.withoutSun.
  rewrite (animate_length _ _ _ _ _ Ha), Hf. reflexivity.
Qed.

(** X8.  The label of the focused body lists exactly two bodies, different
    from the focused body, from the sun and from each other.  When the
    reference point is finite and no mesh position has a NaN component,
    these are the two nearest such bodies. *)
Theorem focused_label_lists_two_nearest_others
    (s : Scene) (W Ht : float) (s' : Scene) (out : Published) (planetId : string) :
  animate s W Ht = Some (s', out) ->
  exists a b,
    View.nearestOthers (distances out) planetId = [a; b] /\
    a ∈ distances out /\ b ∈ distances out /\
    (PlanetDistance.id a ≠ planetId /\ PlanetDistance.id a ≠ "sun") /\
    (PlanetDistance.id b ≠ planetId /\ PlanetDistance.id b ≠ "sun") /\
    PlanetDistance.id a ≠ PlanetDistance.id b /\
    (Vector3.finite (draggableCube s) = true ->
     map_Forall (λ _ mesh, Vector3.no_nan mesh = true) (planetMeshes s) ->
     ascending_then_catalog a b /\
     forall e, e ∈ distances out ->
       PlanetDistance.id e ≠ planetId /\ PlanetDistance.id e ≠ "sun" ->
       e = a \/ e = b \/ ascending_then_catalog b e).
Proof.
  intros Ha.
  destruct (selection_two_nearest (λ i, i ≠ planetId ∧ i ≠ "sun") _ _ _ _ _ Ha)
    as (a & b & rest & Hf & Hrest).
  { pose proof (catalog_without_two planetId "sun"). lia. }
  exists a, b. split; [|exact Hrest].
  unfold View.nearestOthers. by rewrite Hf.
Qed.

Lemma sun_in_catalog :
  PlanetData.mk "sun" "Sun" (109 / 50) 0xffff00 (Some 0) "/textures/2k_sun.jpg" ∈ PLANETS.
Proof. apply list_elem_of_here. Qed.

(** X9.  The "Sun" line is always there: every published ranking has an
    entry for the sun, [find] returns it, and it carries the rounded
    distance between the cube and the mesh of the sun. *)
Theorem sun_line_always_present
    (s : Scene) (W Ht : float) (s' : Scene) (out : Published) :
  animate s W Ht = Some (s', out) ->
  exists e mesh,
    View.sunEntry (distances out) = Some e /\
    PlanetDistance.id e = "sun" /\ PlanetDistance.name e = "Sun" /\
    planetMeshes s !! "sun" = Some mesh /\
    PlanetDistance.distance e =
      JS.Number_toFixed2 (Vector3.distanceTo (draggableCube s) mesh / SCALE_FACTOR).
Proof.
  intros Ha.
  destruct (animate_entry_of_planet _ _ _ _ _ _ Ha sun_in_catalog) as (mesh & Hm & He).
  cbn [PlanetData.id] in Hm.
  set (e0 := rankEntry _ _ _ _ _ _) in He.
  unfold View.sunEntry.
  destruct (List.find _ (distances out)) as [e|] eqn:Hfind.
  - apply find_some in Hfind as [Hin Hid]. apply String.eqb_eq in Hid.
    assert (e = e0) as ->.
    { apply (NoDup_fmap_eq PlanetDistance.id (distances out)); try done.
      - by eapply animate_NoDup.
      - by apply list_elem_of_In. }
    exists e0, mesh. done.
  - apply list_elem_of_In in He.
    by pose proof (find_none _ _ Hfind _ He).
Qed.

End Ranking.

(** ** Focus commands and flights *)

Section Flights.
Context `{Host}.
Local Open Scope float_scope.

(** X10.  A click changes nothing exactly when the refresh data has no
    coordinate for the body or no scene is mounted. *)
Theorem focusOnPlanet_ignored_iff
    (pd : option ApiResponse.t) (planetId : string) (w : World) :
  focusOnPlanet pd planetId w = w <->
  pd ≫= (λ r, ApiResponse.data r !! planetId) = None \/ controlsRef w = None.
Proof.
  unfold focusOnPlanet.
  destruct (pd ≫= _) as [coords|]; [|by split; [left|]].
  destruct (controlsRef w) as [c|] eqn:Hc; [|by split; [right|]].
  unfold animateCamera. split.
  - intros Hw. apply (f_equal ticks) in Hw. cbn [ticks] in Hw. lia.
  - by intros [|].
Qed.

Lemma find_catalog (planet : PlanetData.t) :
  planet ∈ PLANETS ->
  List.find (λ p, String.eqb (PlanetData.id p) (PlanetData.id planet)) PLANETS = Some planet /\
  JS.or_default (Some (PlanetData.size planet)) 1 = PlanetData.size planet.
Proof.
  intros Hin. unfold PLANETS in Hin.
  repeat (apply elem_of_cons in Hin as [->|Hin]); [..|by apply elem_of_nil in Hin];
    split; vm_compute; reflexivity.
Qed.

(** X11.  A click on a catalog body that has a coordinate starts a flight
    from the current camera state to the coordinate times 10; the camera is
    to end at that point plus [(d, d/2, d)], with [d] three times the radius
    of the drawn sphere (the default size 1 is never used); the flight runs
    its first step at once and the body becomes the focused one.  For every
    body but the sun the flight's target is where the body is drawn; the sun
    is drawn at the origin. *)
Theorem focus_on_catalog_body
    (pd : option ApiResponse.t) (cs : option CameraState.t) (planet : PlanetData.t)
    (w : World) (coords : CoordinateData.t) (c : OrbitControls.t ControlsState) :
  planet ∈ PLANETS ->
  pd ≫= (λ r, ApiResponse.data r !! PlanetData.id planet) = Some coords ->
  controlsRef w = Some c ->
  let d := PlanetData.size planet * SIZE_SCALE * 3 in
  let f := mkFlight (OrbitControls.object_position c)
             (Vector3.add (scaled coords) (Vector3.mk d (d / 2) d))
             (OrbitControls.target c) (scaled coords) (Date_now (ticks w)) in
  let now := Date_now (S (ticks w)) in
  focusOnPlanet pd (PlanetData.id planet) w =
    mkWorld (Some (animateCamera f now c).1)
            (raf w ++ (if (animateCamera f now c).2 then [f] else []))
            (Some (PlanetData.id planet)) (S (S (ticks w))) /\
  planetMeshes (buildScene pd cs) !! PlanetData.id planet =
    Some (if String.eqb (PlanetData.id planet) "sun" then Vector3.zero
          else targetPosition f).
Proof.
  intros Hin Hc Hw d f now. split.
  - unfold focusOnPlanet. rewrite Hc, Hw.
    destruct (find_catalog planet Hin) as [-> Hsize].
    cbn [fmap option_fmap option_map]. rewrite Hsize. reflexivity.
  - rewrite buildScene_lookup by done. unfold meshPosition. by rewrite Hc.
Qed.

(** *** Progress of a flight *)

Lemma Math_min_1_cases (q : float) :
  is_nan q = false ->
  (JS.Math_min q 1 = q /\ (q <? 1) = true) \/ (JS.Math_min q 1 = 1 /\ (q <? 1) = false).
Proof.
  intros Hq. unfold JS.Math_min. rewrite Hq. change (is_nan 1) with false. cbn [orb].
  assert (0 < IEEE.float_key 1)%Z as HK by (by vm_compute).
  destruct (q <? 1) eqn:Hlt; [by left|]. right. split; [|done].
  rewrite IEEE.ltb_key in Hlt by done. apply Z.ltb_ge in Hlt.
  destruct (1 <? q); [done|].
  unfold get_sign, is_zero.
  rewrite IEEE.eqb_key by done. change (IEEE.float_key zero) with 0%Z.
  destruct (Z.eqb_spec (IEEE.float_key q) 0); [lia|].
  rewrite IEEE.ltb_key by done. change (IEEE.float_key zero) with 0%Z.
  destruct (Z.ltb_spec (IEEE.float_key q) 0); [lia|done].
Qed.

(** X12.  Unless the elapsed time is not a number, the progress of a flight
    is a number that never exceeds 1, and a flight stops asking for frames
    only when its progress is exactly 1. *)
Theorem progress_never_exceeds_1 (f : Flight) (now : float) :
  is_nan ((now - startTime f) / duration) = false ->
  is_nan (progress f now) = false /\
  (progress f now <=? 1) = true /\
  ((progress f now <? 1) = false -> progress f now = 1).
Proof.
  intros Hq. unfold progress.
  destruct (Math_min_1_cases _ Hq) as [[-> Hlt]|[-> Hge]].
  - split; [done|]. split; [|by rewrite Hlt].
    rewrite IEEE.ltb_key in Hlt by done. rewrite IEEE.leb_key by done.
    apply Z.ltb_lt in Hlt. apply Z.leb_le. lia.
  - done.
Qed.

(** *** Flights that are due *)

Lemma animateCamera_due (f : Flight) (now : float) (c : OrbitControls.t ControlsState) :
  (1 <=? (now - startTime f) / duration) = true ->
  (animateCamera f now c).2 = false.
Proof.
  intros Hq. unfold animateCamera, progress. cbn [snd].
  by rewrite Math_min_ge_1.
Qed.

Lemma runCallbacks_all_due (q : list Flight) (n : nat) (c : OrbitControls.t ControlsState) :
  (forall i f, q !! i = Some f ->
     (1 <=? (Date_now (n + i) - startTime f) / duration) = true) ->
  (runCallbacks q n c).1.1 = [].
Proof.
  revert n c. induction q as [|g q IH]; intros n c Hall; [done|].
  cbn [runCallbacks].
  pose proof (animateCamera_due g (Date_now n) c) as Hg.
  rewrite <- (Nat.add_0_r n) in Hg at 1. specialize (Hg (Hall 0%nat g eq_refl)).
  destruct (animateCamera g (Date_now n) c) as [c1 again]. cbn [snd] in Hg. subst again.
  specialize (IH (S n) c1).
  destruct (runCallbacks q (S n) c1) as [[r n'] c2]. cbn [fst snd app] in *.
  apply IH. intros i f Hi. replace (S n + i)%nat with (n + S i)%nat by lia.
  by apply Hall.
Qed.

(** X13.  When every queued flight is due at its own clock reading (at
    least 1000 ms after its start), one frame empties the queue, reading the
    clock once per flight, and leaves the focused body alone; the camera
    comes to rest at the end state of the flight that was queued last. *)
Theorem flights_finish_when_due (w : World) (c : OrbitControls.t ControlsState) :
  controlsRef w = Some c ->
  (forall i f, raf w !! i = Some f ->
     (1 <=? (Date_now (ticks w + i) - startTime f) / duration) = true) ->
  raf (frame w) = [] /\
  ticks (frame w) = (ticks w + length (raf w))%nat /\
  focusedPlanet (frame w) = focusedPlanet w /\
  (Math_pow 0 3 = 0 -> forall q g, raf w = q ++ [g] ->
   exists st,
     controlsRef (frame w) =
     Some (controls_update
             (OrbitControls.mk
                (Vector3.lerpVectors (startPosition g) (cameraTargetPosition g) 1)
                (Vector3.lerpVectors (startTarget g) (targetPosition g) 1) st))).
Proof.
  intros Hc Hall. unfold frame. rewrite Hc.
  pose proof (runCallbacks_all_due (raf w) (ticks w) (controls_update c) Hall) as Hq.
  pose proof (runCallbacks_ticks (raf w) (ticks w) (controls_update c)) as Hn.
  destruct (runCallbacks (raf w) (ticks w) (controls_update c)) as [[r n'] c2] eqn:E.
  cbn [fst snd] in Hq, Hn. subst r n'. cbn [raf ticks focusedPlanet controlsRef].
  repeat split.
  intros Hpow q g Hraf.
  destruct (runCallbacks_last q g (ticks w) (controls_update c)) as [st Hlast].
  rewrite <- Hraf, E in Hlast. cbn [snd] in Hlast. subst c2.
  assert ((1 <=? (Date_now (ticks w + length q) - startTime g) / duration) = true) as Hdue.
  { apply Hall. rewrite Hraf. by rewrite lookup_app_r, Nat.sub_diag by lia. }
  destruct (easeProgress_1 g _ Hpow Hdue) as [_ He].
  exists st. unfold flightState. by rewrite He.
Qed.

(** *** The first step of a flight *)

(** X22.  A click does not make the camera jump.  When the first step of
    the new flight reads the same clock value as its start (the usual case:
    both readings fall in the same millisecond), the flight is queued, and
    position and target written by that step are numerically equal to the
    ones the camera had, provided the differences between the end state and
    the start state are finite. *)
Theorem focus_in_same_millisecond_keeps_camera
    (pd : option ApiResponse.t) (planetId : string) (w : World)
    (coords : CoordinateData.t) (c : OrbitControls.t ControlsState) :
  pd ≫= (λ r, ApiResponse.data r !! planetId) = Some coords ->
  controlsRef w = Some c ->
  Date_now (S (ticks w)) = Date_now (ticks w) ->
  is_finite (Date_now (ticks w)) = true ->
  Math_pow 1 3 = 1 ->
  exists f,
    raf (focusOnPlanet pd planetId w) = raf w ++ [f] /\
    startPosition f = OrbitControls.object_position c /\
    startTarget f = OrbitControls.target c /\
    targetPosition f = scaled coords /\
    (finite_span (startPosition f) (cameraTargetPosition f) = true ->
     finite_span (startTarget f) (targetPosition f) = true ->
     exists p t,
       controlsRef (focusOnPlanet pd planetId w) =
         Some (controls_update (OrbitControls.mk p t (OrbitControls.state c))) /\
       Vector3.eqb p (OrbitControls.object_position c) = true /\
       Vector3.eqb t (OrbitControls.target c) = true).
Proof.
  intros Hc Hw Hsame Hfin Hpow. unfold focusOnPlanet. rewrite Hc, Hw, Hsame.
  set (f := mkFlight _ _ _ _ _).
  assert (progress f (Date_now (ticks w)) = 0) as Hp
    by (by apply (progress_at_start f)).
  exists f. unfold animateCamera. rewrite Hp. cbn [raf controlsRef].
  split; [reflexivity|]. repeat (split; [reflexivity|]).
  intros Hs1 Hs2. unfold flightState.
  rewrite easeProgress_0 by (by rewrite ?Hp).
  eexists _, _. split; [reflexivity|].
  cbn [CameraState.position CameraState.target]. by rewrite !lerpVectors_0.
Qed.

End Flights.

(** ** The page *)

Section PageFacts.
Context `{Host}.
Local Open Scope float_scope.

(** A started and answered request is a [refresh]. *)
Lemma pageStep_refresh (data : ApiResponse.t) (p : Page) :
  component (pageStep (FetchSucceeded data) (pageStep FetchStarted p)) =
  refresh data (component p).
Proof. reflexivity. Qed.

(** X15.  A refresh forgets where the cube was dragged: the rebuilt scene
    is the same as if the cube had not been dragged, with the cube back at
    (20,20,20) and the bodies where the new data puts them. *)
Theorem refresh_discards_drag (data : ApiResponse.t) (q : Vector3.t) (c : Component) :
  refresh data (dragMounted q c) = refresh data c /\
  exists s',
    scene (refresh data c) = Some s' /\
    draggableCube s' = Vector3.mk 20 20 20 /\
    planetMeshes s' = planetMeshes (buildScene (Some data) None).
Proof.
  split; [|by eexists].
  unfold refresh, dragMounted.
  destruct (scene c) as [s|] eqn:E; [|done].
  unfold storeCameraState. cbn [scene planetData cameraState]. by rewrite E.
Qed.

Lemma pageStep_user_input (ev : PageEvent) (p : Page) :
  isFetchEvent ev = false ->
  planetData (component (pageStep ev p)) = planetData (component p) /\
  cameraState (component (pageStep ev p)) = cameraState (component p).
Proof.
  destruct ev; try discriminate; intros _; cbn [pageStep component].
  - unfold dragMounted. by destruct (scene (component p)).
  - unfold moveCamera. by destruct (scene (component p)).
Qed.

Lemma pageRun_user_input (evs : list PageEvent) (p : Page) :
  Forall (λ ev, isFetchEvent ev = false) evs ->
  planetData (component (pageRun evs p)) = planetData (component p) /\
  cameraState (component (pageRun evs p)) = cameraState (component p).
Proof.
  intros Hevs. revert p. induction Hevs as [|ev evs Hev _ IH]; intros p; [done|].
  cbn [pageRun foldl]. fold (pageRun evs (pageStep ev p)).
  destruct (IH (pageStep ev p)) as [-> ->]. by apply pageStep_user_input.
Qed.

(** X14.  What the user does to the camera or to the cube while a request
    is under way is overwritten when the response arrives: the component is
    then the same as if nothing had been done in between, so the camera
    comes from the snapshot taken when the request was issued. *)
Theorem refresh_restores_request_time_snapshot
    (data : ApiResponse.t) (evs : list PageEvent) (p : Page) :
  Forall (λ ev, isFetchEvent ev = false) evs ->
  component (pageStep (FetchSucceeded data) (pageRun evs (pageStep FetchStarted p))) =
  refresh data (component p).
Proof.
  intros Hevs.
  destruct (pageRun_user_input evs (pageStep FetchStarted p) Hevs) as [Hd Hc].
  remember (pageRun evs (pageStep FetchStarted p)) as P eqn:HP. clear HP.
  change (component (pageStep (FetchSucceeded data) P))
    with (sceneEffect (setPlanetData data (component P))).
  unfold sceneEffect at 1, setPlanetData. cbn [planetData cameraState].
  rewrite Hc. reflexivity.
Qed.

(** X16.  The two banners.  The error message is never cleared: it is
    shown from the first failed request on, whatever succeeds afterwards.
    The loading banner follows the last thing a request did: it is shown
    after a request has started and hidden as soon as any request has
    ended, also while another one is still under way. *)
Theorem banners_after_events (evs : list PageEvent) (p : Page) :
  error (pageRun evs p) =
    (if existsb isFetchFailed evs then Some "Failed to fetch planet data" else error p) /\
  loading (pageRun evs p) =
    match last (List.filter isFetchEvent evs) with
    | Some FetchStarted => true
    | Some _ => false
    | None => loading p
    end.
Proof.
  revert p. induction evs as [|ev evs IH]; intros p; [done|].
  cbn [pageRun foldl existsb List.filter]. fold (pageRun evs (pageStep ev p)).
  destruct (IH (pageStep ev p)) as [-> ->]. split.
  - destruct ev; cbn [isFetchFailed orb pageStep error]; try done.
    by destruct (existsb isFetchFailed evs).
  - destruct ev; cbn [isFetchEvent pageStep loading]; rewrite ?last_cons;
      by destruct (last (List.filter isFetchEvent evs)) as [[]|].
Qed.

Lemma planetData_storeCameraState (c : Component) :
  planetData (storeCameraState c) = planetData c.
Proof. unfold storeCameraState. by destruct (scene c). Qed.

Lemma planetData_pageRun (evs : list PageEvent) (p : Page) :
  planetData (component (pageRun evs p)) =
  match last (omap responseOf evs) with
  | Some data => Some data
  | None => planetData (component p)
  end.
Proof.
  revert p. induction evs as [|ev evs IH]; intros p; [done|].
  cbn [pageRun foldl]. fold (pageRun evs (pageStep ev p)). rewrite IH.
  destruct ev; csimpl; try done.
  - by rewrite planetData_storeCameraState.
  - rewrite last_cons. by destruct (last (omap responseOf evs)).
  - unfold dragMounted. by destruct (scene (component p)).
  - unfold moveCamera. by destruct (scene (component p)).
Qed.

(** The bodies of the mounted scene stand where the current [planetData]
    puts them. *)
Definition bodies_follow_data (c : Component) : Prop :=
  forall s, scene c = Some s ->
    planetMeshes s = planetMeshes (buildScene (planetData c) None).

Lemma bodies_follow_data_step (ev : PageEvent) (p : Page) :
  bodies_follow_data (component p) -> bodies_follow_data (component (pageStep ev p)).
Proof.
  intros Hp. destruct ev; cbn [pageStep component].
  - intros s Hs. unfold sceneEffect in Hs. cbn [scene] in Hs. injection Hs as <-.
    cbn [sceneEffect planetData animateScene planetMeshes].
    by rewrite planetData_storeCameraState.
  - intros s Hs. unfold sceneEffect in Hs. cbn [scene] in Hs. by injection Hs as <-.
  - done.
  - unfold dragMounted. destruct (scene (component p)) as [s0|] eqn:E; [|done].
    intros s Hs. cbn [scene] in Hs. injection Hs as <-.
    cbn [planetData planetMeshes dragCube]. by apply Hp.
  - unfold moveCamera. destruct (scene (component p)) as [s0|] eqn:E; [|done].
    intros s Hs. cbn [scene] in Hs. injection Hs as <-.
    cbn [planetData planetMeshes dragCube]. by apply Hp.
Qed.

Lemma bodies_follow_data_run (evs : list PageEvent) (p : Page) :
  bodies_follow_data (component p) -> bodies_follow_data (component (pageRun evs p)).
Proof.
  revert p. induction evs as [|ev evs IH]; intros p Hp; [done|].
  apply IH. by apply bodies_follow_data_step.
Qed.

(** X17.  Whatever happens to the page, the data in use is the response
    that arrived last (a failed request, a drag or a camera movement does
    not change it, and a response that arrives late replaces a newer one),
    and the bodies of the mounted scene stand where that data puts them. *)
Theorem bodies_follow_last_response (evs : list PageEvent) :
  planetData (component (pageRun evs initialPage)) = last (omap responseOf evs) /\
  forall s, scene (component (pageRun evs initialPage)) = Some s ->
    planetMeshes s = planetMeshes (buildScene (last (omap responseOf evs)) None).
Proof.
  assert (planetData (component (pageRun evs initialPage)) = last (omap responseOf evs)) as Hd.
  { rewrite planetData_pageRun. by destruct (last _). }
  split; [exact Hd|]. rewrite <- Hd.
  by apply (bodies_follow_data_run evs initialPage).
Qed.

End PageFacts.

(** ** Orbit rings *)

Section OrbitFacts.
Context `{Host}.
Local Open Scope float_scope.

Lemma drop_1_PLANETS (planet : PlanetData.t) :
  planet ∈ drop 1 PLANETS <-> planet ∈ PLANETS /\ PlanetData.id planet ≠ "sun".
Proof.
  split.
  - intros Hin. split.
    + apply (list_elem_of_further _ _ _ Hin).
    + cbn [drop PLANETS] in Hin.
      repeat (apply elem_of_cons in Hin as [->|Hin]); [..|by apply elem_of_nil in Hin];
        discriminate.
  - intros [Hin Hne]. unfold PLANETS in Hin.
    apply elem_of_cons in Hin as [->|Hin]; [done|exact Hin].
Qed.

Lemma orbits_elem_of (pd : option ApiResponse.t) (i : string) (o : Orbit) :
  (i, o) ∈ orbits pd <->
  exists planet coords,
    planet ∈ PLANETS /\ PlanetData.id planet ≠ "sun" /\ PlanetData.id planet = i /\
    pd ≫= (λ r, ApiResponse.data r !! i) = Some coords /\
    o = mkOrbit
          (sqrt (Math_pow (CoordinateData.x coords * SCALE_FACTOR) 2 +
                 Math_pow (CoordinateData.y coords * SCALE_FACTOR) 2 +
                 Math_pow (CoordinateData.z coords * SCALE_FACTOR) 2) - 0.1)
          (sqrt (Math_pow (CoordinateData.x coords * SCALE_FACTOR) 2 +
                 Math_pow (CoordinateData.y coords * SCALE_FACTOR) 2 +
                 Math_pow (CoordinateData.z coords * SCALE_FACTOR) 2) + 0.1)
          (Math_PI / 2 + totalInclination planet).
Proof.
  unfold orbits. rewrite list_elem_of_omap. split.
  - intros (planet & Hin & Hf). apply drop_1_PLANETS in Hin as [Hin Hne].
    destruct (pd ≫= _) as [coords|] eqn:E; [|discriminate].
    injection Hf as <- <-. by exists planet, coords.
  - intros (planet & coords & Hin & Hne & <- & Hc & ->).
    exists planet. split; [by apply drop_1_PLANETS|]. by rewrite Hc.
Qed.

Lemma meshRotations_lookup (pd : option ApiResponse.t) (planet : PlanetData.t) :
  planet ∈ PLANETS ->
  meshRotations pd !! PlanetData.id planet =
  Some (if String.eqb (PlanetData.id planet) "sun" then 0
        else match pd ≫= (λ r, ApiResponse.data r !! PlanetData.id planet) with
             | Some _ => totalInclination planet
             | None => 0
             end).
Proof.
  intros Hin. unfold meshRotations, PLANETS in *.
  repeat (apply elem_of_cons in Hin as [->|Hin]); [..|by apply elem_of_nil in Hin];
    cbn [drop foldl PlanetData.id String.eqb Ascii.eqb Bool.eqb];
    by simplify_map_eq.
Qed.

(** X18.  A ring is drawn exactly for the bodies other than the sun that
    have a coordinate; the sun never gets one, also when the data holds a
    coordinate for it.  When [Math.pow(b, 2)] is [b * b], the ring lies 0.1
    to either side of the distance between the body's mesh and the origin,
    where the sun is drawn. *)
Theorem orbit_ring_through_body (pd : option ApiResponse.t) (cs : option CameraState.t) :
  (forall b, Math_pow b 2 = b * b) ->
  (forall o, ("sun", o) ∉ orbits pd) /\
  (forall planet, planet ∈ PLANETS -> PlanetData.id planet ≠ "sun" ->
     (exists o, (PlanetData.id planet, o) ∈ orbits pd) <->
     is_Some (pd ≫= (λ r, ApiResponse.data r !! PlanetData.id planet))) /\
  (forall i o, (i, o) ∈ orbits pd ->
     exists mesh,
       planetMeshes (buildScene pd cs) !! i = Some mesh /\
       planetMeshes (buildScene pd cs) !! "sun" = Some Vector3.zero /\
       innerRadius o = Vector3.distanceTo mesh Vector3.zero - 0.1 /\
       outerRadius o = Vector3.distanceTo mesh Vector3.zero + 0.1).
Proof.
  intros Hpow. split; [|split].
  - intros o Ho. apply orbits_elem_of in Ho as (planet & coords & _ & Hne & Hid & _).
    by apply Hne.
  - intros planet Hin Hne. split.
    + intros [o Ho]. apply orbits_elem_of in Ho as (planet' & coords & _ & _ & _ & Hc & _).
      by eexists.
    + intros [coords Hc]. eexists. apply orbits_elem_of. by exists planet, coords.
  - intros i o Ho. apply orbits_elem_of in Ho as (planet & coords & Hin & Hne & <- & Hc & ->).
    exists (scaled coords). rewrite buildScene_lookup by done.
    apply String.eqb_neq in Hne. rewrite Hne. unfold meshPosition. rewrite Hc.
    split; [done|]. split; [done|]. cbn [innerRadius outerRadius].
    unfold Vector3.distanceTo, Vector3.distanceToSquared, Vector3.zero, scaled. cbv zeta.
    cbn [Vector3.x Vector3.y Vector3.z].
    by rewrite !Hpow, !IEEE.sub_zero_exact.
Qed.

(** X19.  Tilt.  The sun is never tilted and never gets a ring, whatever
    the data holds for it.  Another body without a coordinate gets no ring
    and is not tilted either.  Another body with a coordinate whose
    inclination is missing, zero or NaN is tilted by the global inclination
    alone, and its ring is turned a quarter turn further. *)
Theorem body_tilt (pd : option ApiResponse.t) (planet : PlanetData.t) :
  planet ∈ PLANETS ->
  (PlanetData.id planet = "sun" ->
   meshRotations pd !! "sun" = Some 0 /\ forall o, ("sun", o) ∉ orbits pd) /\
  (PlanetData.id planet ≠ "sun" ->
   pd ≫= (λ r, ApiResponse.data r !! PlanetData.id planet) = None ->
   meshRotations pd !! PlanetData.id planet = Some 0 /\
   forall o, (PlanetData.id planet, o) ∉ orbits pd) /\
  (PlanetData.id planet ≠ "sun" ->
   is_Some (pd ≫= (λ r, ApiResponse.data r !! PlanetData.id planet)) ->
   from_option JS.truthy false (PlanetData.inclination planet) = false ->
   meshRotations pd !! PlanetData.id planet = Some ORBIT_INCLINATION /\
   exists o, (PlanetData.id planet, o) ∈ orbits pd /\
     orbit_rotation_x o = Math_PI / 2 + ORBIT_INCLINATION).
Proof.
  intros Hin. pose proof (meshRotations_lookup pd planet Hin) as Hrot.
  split; [|split].
  - intros Hsun. rewrite Hsun in Hrot. split; [exact Hrot|].
    intros o Ho. apply orbits_elem_of in Ho as (planet' & coords & _ & Hne & Hid & _).
    by apply Hne.
  - intros Hne Hc. apply String.eqb_neq in Hne. rewrite Hne, Hc in Hrot.
    split; [exact Hrot|].
    intros o Ho. apply orbits_elem_of in Ho as (planet' & coords & _ & _ & _ & Hc' & _).
    by rewrite Hc in Hc'.
  - intros Hne [coords Hc] Hinc.
    assert (totalInclination planet = ORBIT_INCLINATION) as Htilt.
    { unfold totalInclination, JS.or_default.
      destruct (PlanetData.inclination planet) as [v|]; cbn [from_option] in Hinc.
      - by rewrite Hinc.
      - reflexivity. }
    pose proof Hne as Hne'. apply String.eqb_neq in Hne'. rewrite Hne', Hc, Htilt in Hrot.
    split; [exact Hrot|].
    eexists. split; [apply orbits_elem_of; by exists planet, coords|].
    cbn [orbit_rotation_x]. by rewrite Htilt.
Qed.

End OrbitFacts.

(** ** The earlier revision *)

Section EarlierFacts.
Context `{Host}.
Local Open Scope float_scope.

(** X20.  In the earlier revision a click on a body with a coordinate puts
    the camera at once at the coordinate times 10 plus (15,10,15), looking
    at the body and keeping the private state of the controls, whatever was
    clicked before. *)
Theorem earlier_focus_moves_at_once
    (pd : option ApiResponse.t) (a b : string) (coords : CoordinateData.t)
    (c : OrbitControls.t ControlsState) :
  pd ≫= (λ r, ApiResponse.data r !! b) = Some coords ->
  Earlier.focusOnPlanet pd b (Earlier.focusOnPlanet pd a (Some c)) =
    Some (OrbitControls.mk (Vector3.add (scaled coords) (Vector3.mk 15 10 15))
            (scaled coords) (OrbitControls.state c)) /\
  Earlier.focusOnPlanet pd b (Some c) =
    Earlier.focusOnPlanet pd b (Earlier.focusOnPlanet pd a (Some c)).
Proof.
  intros Hb. unfold Earlier.focusOnPlanet. rewrite Hb.
  by destruct (pd ≫= (λ r, ApiResponse.data r !! a)).
Qed.

Lemma publishLabels_lookup (camera : OrbitControls.t ControlsState)
    (meshes : gmap string Vector3.t) (W Ht : float) (l : list PlanetData.t)
    (prev : gmap string PlanetPosition.t) :
  NoDup (PlanetData.id <$> l) ->
  (forall planet, planet ∈ l -> is_Some (meshes !! PlanetData.id planet)) ->
  exists m,
    Earlier.publishLabels camera meshes W Ht l prev = (m, true) /\
    (forall planet mesh, planet ∈ l -> meshes !! PlanetData.id planet = Some mesh ->
       m !! PlanetData.id planet =
       Some (PlanetDistance.position
               (rankEntry (mkScene Vector3.zero meshes camera) camera W Ht planet mesh))) /\
    (forall i, i ∉ PlanetData.id <$> l -> m !! i = prev !! i).
Proof.
  revert prev. induction l as [|planet l IH]; intros prev Hnd Hall.
  - exists prev. split; [done|]. split; [|done].
    intros planet mesh Hin. by apply elem_of_nil in Hin.
  - rewrite fmap_cons in Hnd. apply NoDup_cons in Hnd as [Hni Hnd].
    destruct (Hall planet) as [mesh Hm]; [by left|].
    cbn [Earlier.publishLabels]. rewrite Hm.
    destruct (IH (<[PlanetData.id planet :=
                      PlanetPosition.mk ((Vector3.x (project camera mesh) * 0.5 + 0.5) * W)
                        ((- Vector3.y (project camera mesh) * 0.5 + 0.5) * Ht)]> prev) Hnd)
      as (m & Hrun & Hin & Hout).
    { intros p Hp. apply Hall. by right. }
    exists m. split; [exact Hrun|]. split.
    + intros p mesh' Hp Hm'. apply elem_of_cons in Hp as [->|Hp]; [|by apply Hin].
      rewrite Hm in Hm'. injection Hm' as <-.
      rewrite Hout by done. by rewrite lookup_insert_eq.
    + intros i Hi. rewrite fmap_cons in Hi. apply not_elem_of_cons in Hi as [Hne Hi].
      rewrite Hout by done. by rewrite lookup_insert_ne.
Qed.

(** X21.  On a scene on which the current render loop succeeds, the render
    loop of the earlier revision completes and publishes the same label
    positions, merged over the positions it had before: the two revisions
    draw the labels at the same places. *)
Theorem earlier_labels_agree
    (s : Scene) (W Ht : float) (s' : Scene) (out : Published)
    (prev : gmap string PlanetPosition.t) :
  animate s W Ht = Some (s', out) ->
  Earlier.animate s W Ht prev = (s', (planetPositions out ∪ prev, true)).
Proof.
  intros Ha. unfold Earlier.animate.
  pose proof (animate_ids _ _ _ _ _ Ha) as Hids.
  pose proof (animate_NoDup _ _ _ _ _ Ha) as Hnd.
  pose proof Ha as Hinv. apply animate_inv in Hinv as (nd & Hp & _ & Hpp & ->).
  destruct (publishLabels_lookup (controls_update (controls s)) (planetMeshes s) W Ht
              PLANETS prev NoDup_catalog_ids) as (m & -> & Hin & Hout).
  { intros planet Hpl.
    destruct (Forall2_elem_of_l _ _ _ _ Hp Hpl) as (e & _ & mesh & Hm & _). by eexists. }
  do 3 f_equal. apply map_eq. intros i.
  rewrite lookup_union.
  destruct (decide (i ∈ PlanetData.id <$> PLANETS)) as [Hi|Hi].
  - apply list_elem_of_fmap in Hi as (planet & -> & Hpl).
    destruct (animate_entry_of_planet _ _ _ _ _ _ Ha Hpl) as (mesh & Hm & He).
    rewrite (Hin planet mesh Hpl Hm).
    apply (foldl_insert_lookup _ ∅) in He; [|exact Hnd].
    rewrite <- Hpp in He. cbn [rankEntry PlanetDistance.id] in He. rewrite He.
    by destruct (prev !! PlanetData.id planet).
  - rewrite (Hout i Hi).
    rewrite Hpp, foldl_insert_lookup_notin, lookup_empty by (by rewrite Hids).
    by destruct (prev !! i).
Qed.

End EarlierFacts.


(* ================================================================= *)
(** * Part IV: the model evaluated on concrete inputs *)
(* ================================================================= *)

Local Open Scope float_scope.

Lemma earth_in_catalog : earth ∈ PLANETS.
Proof. do 3 apply list_elem_of_further. apply list_elem_of_here. Qed.

Lemma mercury_in_catalog : mercury ∈ PLANETS.
Proof. apply list_elem_of_further. apply list_elem_of_here. Qed.

(** ** The distance ranking *)

(** C1, counterexample.  Before any data has arrived every planet sits at
    the fallback position, so eight distances tie; "venus" is published
    before "earth" although "earth" is the lexicographically smaller id. *)
Lemma ranking_ties_not_lexicographic :
  ranking (H := sampleHost) (buildScene None None) 1920 1080 =
    Some [("mercury", 3); ("venus", 3); ("earth", 3); ("mars", 3); ("jupiter", 3);
          ("saturn", 3); ("uranus", 3); ("neptune", 3); ("sun", 3.46)] /\
  String.ltb "earth" "venus" = true.
Proof. split; vm_compute; reflexivity. Qed.

(** C1, witness: the frame of [sampleScene]. *)
Lemma ranking_sorted_witness :
  animate sampleScene 1920 1080 =
    Some ((frameResult sampleScene 1920 1080).1, (frameResult sampleScene 1920 1080).2) /\
  Vector3.finite (draggableCube sampleScene) = true /\
  map_Forall (λ _ mesh, Vector3.no_nan mesh = true) (planetMeshes sampleScene) /\
  StronglySorted ascending_then_catalog (distances (frameResult sampleScene 1920 1080).2).
Proof.
  assert (animate sampleScene 1920 1080 =
    Some ((frameResult sampleScene 1920 1080).1, (frameResult sampleScene 1920 1080).2)) as E
    by (vm_compute; reflexivity).
  assert (Vector3.finite (draggableCube sampleScene) = true) as Hc by reflexivity.
  assert (map_Forall (λ _ mesh, Vector3.no_nan mesh = true) (planetMeshes sampleScene)) as Hm
    by (apply (bool_decide_unpack _); vm_compute; exact I).
  split; [exact E|]. split; [exact Hc|]. split; [exact Hm|].
  exact (ranking_sorted_ties_in_catalog_order _ _ _ _ _ E Hc Hm).
Defined.

(** C3, witness: the distance published for Earth in [sampleScene]. *)
Lemma published_distance_witness :
  animate sampleScene 1920 1080 =
    Some ((frameResult sampleScene 1920 1080).1, (frameResult sampleScene 1920 1080).2) /\
  earth ∈ PLANETS /\
  exists mesh e,
    planetMeshes sampleScene !! "earth" = Some mesh /\
    e ∈ distances (frameResult sampleScene 1920 1080).2 /\
    PlanetDistance.id e = "earth" /\
    let dx := Vector3.x (draggableCube sampleScene) - Vector3.x mesh in
    let dy := Vector3.y (draggableCube sampleScene) - Vector3.y mesh in
    let dz := Vector3.z (draggableCube sampleScene) - Vector3.z mesh in
    let q := sqrt (dx * dx + dy * dy + dz * dz) / 10 in
    PlanetDistance.distance e = JS.Number_toFixed2 q /\
    rounded_to_2_decimals q (PlanetDistance.distance e) /\
    rounded_in_binary64 q (PlanetDistance.distance e).
Proof.
  assert (animate sampleScene 1920 1080 =
    Some ((frameResult sampleScene 1920 1080).1, (frameResult sampleScene 1920 1080).2)) as E
    by (vm_compute; reflexivity).
  split; [exact E|]. split; [exact earth_in_catalog|].
  exact (published_distance_rounded _ _ _ _ _ earth E earth_in_catalog).
Defined.

(** C3, counterexample.  With Earth at (2.075, 2, 2) its mesh is at
    (20.75, 20, 20), at a distance of exactly 0.75 from the cube at
    (20, 20, 20).  The real quotient 0.075 lies half way between 0.07 and
    0.08 and rounds half away from zero to 0.08; the Number [0.75 / 10] lies
    below 0.075, and 0.07 is published. *)
Lemma half_hundredth_is_published_below :
  draggableCube tieScene = Vector3.mk 20 20 20 /\
  planetMeshes tieScene !! "earth" = Some (Vector3.mk 20.75 20 20) /\
  Vector3.distanceTo (Vector3.mk 20 20 20) (Vector3.mk 20.75 20 20) = 0.75%float /\
  Prim2SF 0.75 = S754_finite false 6755399441055744 (-53) /\
  (4 * 6755399441055744 = 3 * 2 ^ 53)%Z /\
  exact_hundredths 0.75 = Some 8%Z /\
  (of_uint63 (Uint63.of_Z 8) / 100)%float = 0.08%float /\
  ranking tieScene 1920 1080 =
    Some [("earth", 0.07); ("mercury", 3); ("venus", 3); ("mars", 3); ("jupiter", 3);
          ("saturn", 3); ("uranus", 3); ("neptune", 3); ("sun", 3.46)]%float /\
  (0.07 <? 0.08)%float = true.
Proof. repeat split; vm_compute; reflexivity. Qed.


(** C6, counterexample.  In [driftHost] the camera is at (0.1, 0, 0),
    looking at (3, 0, 0), when a refresh starts.  The snapshot holds this
    position, and the rebuilt scene has been through [controls.update()],
    which puts the camera at [3 + (0.1 - 3)]: the restored position is
    0.10000000000000009, not the 0.1 of the snapshot. *)
Lemma restored_position_is_not_the_snapshot :
  cameraState (storeCameraState driftComponent) =
    Some (CameraState.mk (Vector3.mk 0.1 0 0) (Vector3.mk 3 0 0)) /\
  (λ s, OrbitControls.object_position (controls s)) <$>
    scene (sceneEffect (setPlanetData sunData (sceneEffect (storeCameraState driftComponent))))
    = Some (Vector3.mk 0.10000000000000009 0 0) /\
  (λ s, OrbitControls.target (controls s)) <$>
    scene (sceneEffect (setPlanetData sunData (sceneEffect (storeCameraState driftComponent))))
    = Some (Vector3.mk 3 0 0) /\
  (0.1 <? 0.10000000000000009)%float = true.
Proof. repeat split; vm_compute; reflexivity. Qed.

(** C9, witness: the label of Earth in [sampleScene], where the sample
    projection returns the mesh position (-9, 3, 0.1) itself. *)
Lemma label_pixel_witness :
  animate sampleScene 1920 1080 =
    Some ((frameResult sampleScene 1920 1080).1, (frameResult sampleScene 1920 1080).2) /\
  earth ∈ PLANETS /\
  planetMeshes sampleScene !! "earth" = Some (Vector3.mk (-9) 3 0.1) /\
  planetPositions (frameResult sampleScene 1920 1080).2 !! "earth" =
    Some (PlanetPosition.mk (-7680) (-1080)).
Proof.
  assert (animate sampleScene 1920 1080 =
    Some ((frameResult sampleScene 1920 1080).1, (frameResult sampleScene 1920 1080).2)) as E
    by (vm_compute; reflexivity).
  assert (planetMeshes sampleScene !! "earth" = Some (Vector3.mk (-9) 3 0.1)) as Hm
    by (vm_compute; reflexivity).
  split; [exact E|]. split; [exact earth_in_catalog|]. split; [exact Hm|].
  exact (label_pixel_position _ _ _ _ _ earth _ E earth_in_catalog Hm).
Defined.

(** C10, counterexample.  Before any drag the sun is published at 3.46,
    while the norm of ((20,20,20) - (0,0,0)) divided by 10 is
    3.4641016151377548: the published value is the rounded one. *)
Lemma initial_distance_is_rounded :
  ranking (H := sampleHost) (buildScene None None) 1920 1080 =
    Some [("mercury", 3); ("venus", 3); ("earth", 3); ("mars", 3); ("jupiter", 3);
          ("saturn", 3); ("uranus", 3); ("neptune", 3); ("sun", 3.46)] /\
  planetMeshes (H := sampleHost) (buildScene None None) !! "sun" = Some (Vector3.mk 0 0 0) /\
  Vector3.distanceTo (Vector3.mk 20 20 20) (Vector3.mk 0 0 0) / 10 = 3.4641016151377548 /\
  (3.46 =? 3.4641016151377548) = false.
Proof. repeat split; vm_compute; reflexivity. Qed.

(** ** Scene positions *)

(** C8, counterexample.  The sun is at the origin both when the refresh
    data has no coordinate for it (the claim gives (10,0,0)) and when it has
    one (here (0.5, 0.25, 0); the claim gives (5, 2.5, 0)). *)
Lemma sun_stays_at_origin :
  planetMeshes (H := sampleHost) (buildScene None None) !! "sun" = Some (Vector3.mk 0 0 0) /\
  ApiResponse.data sunData !! "sun" =
    Some (CoordinateData.mk "2024-03-01T12:00:00.000Z" 0.5 0.25 0) /\
  planetMeshes (H := sampleHost) (buildScene (Some sunData) None) !! "sun" =
    Some (Vector3.mk 0 0 0).
Proof. repeat split; vm_compute; reflexivity. Qed.

(** C8, witness: Earth in [sampleScene]. *)
Lemma scene_position_witness :
  earth ∈ PLANETS /\
  planetMeshes sampleScene !! "earth" = Some (Vector3.mk (-9) 3 0.1).
Proof.
  split; [exact earth_in_catalog|].
  exact (scene_position_of_body (H := sampleHost) (Some sampleData) None earth
           earth_in_catalog).
Defined.

(** C7, counterexample.  Mercury's coordinate (NaN, 0.1, Infinity) is not
    replaced by the fallback (10,0,0): the mesh is placed at
    (NaN, 1, Infinity). *)
Lemma non_finite_coordinate_reaches_scene :
  planetMeshes (H := sampleHost) (buildScene (Some brokenData) None) !! "mercury" =
    Some (Vector3.mk nan 1 infinity).
Proof. vm_compute; reflexivity. Qed.

(** C7, witness: the same coordinate. *)
Lemma non_finite_coordinate_witness :
  mercury ∈ PLANETS /\
  Some brokenData ≫= (λ r, ApiResponse.data r !! "mercury") = Some brokenCoords /\
  planetMeshes (H := sampleHost) (buildScene (Some brokenData) None) !! "mercury" =
    Some (scaled brokenCoords) /\
  is_finite (Vector3.x (scaled brokenCoords)) = false /\
  is_finite (Vector3.z (scaled brokenCoords)) = false.
Proof.
  assert (Some brokenData ≫= (λ r, ApiResponse.data r !! "mercury") = Some brokenCoords)
    as Hc by (vm_compute; reflexivity).
  assert (PlanetData.id mercury <> "sun") as Hs by discriminate.
  destruct (non_finite_coordinate_propagates (H := sampleHost) (Some brokenData) None
              mercury brokenCoords mercury_in_catalog Hs Hc) as (Hm & Hx & _ & Hz).
  split; [exact mercury_in_catalog|]. split; [exact Hc|]. split; [exact Hm|].
  split; [apply Hx|apply Hz]; reflexivity.
Defined.

(** ** Camera flights *)

(** The click on Earth starts [earthFlight]. *)
Example afterEarth_raf : raf afterEarth = [earthFlight].
Proof. vm_compute; reflexivity. Qed.





(** ** Further properties, on the sample inputs *)

Lemma sampleScene_frame :
  animate sampleScene 1920 1080 =
    Some ((frameResult sampleScene 1920 1080).1, (frameResult sampleScene 1920 1080).2).
Proof. vm_compute; reflexivity. Qed.

Lemma sampleScene_cube_finite : Vector3.finite (draggableCube sampleScene) = true.
Proof. reflexivity. Qed.

Lemma sampleScene_no_nan :
  map_Forall (λ _ mesh, Vector3.no_nan mesh = true) (planetMeshes sampleScene).
Proof. apply (bool_decide_unpack _). vm_compute. exact I. Qed.

Lemma sampleData_no_nan : data_no_nan (Some sampleData).
Proof.
  intros r i coords [= <-] Hl. cbn [ApiResponse.data sampleData] in Hl.
  apply lookup_insert_Some in Hl as [[_ <-]|[_ Hl]]; [by vm_compute|].
  apply lookup_singleton_Some in Hl as [_ <-]. by vm_compute.
Qed.

(** X1, witness: the frame of [sampleScene]. *)
Lemma published_distances_nonnegative_witness :
  animate sampleScene 1920 1080 =
    Some ((frameResult sampleScene 1920 1080).1, (frameResult sampleScene 1920 1080).2) /\
  Vector3.finite (draggableCube sampleScene) = true /\
  map_Forall (λ _ mesh, Vector3.no_nan mesh = true) (planetMeshes sampleScene) /\
  Forall (λ e, (0 <=? PlanetDistance.distance e) = true)
    (distances (frameResult sampleScene 1920 1080).2).
Proof.
  split; [exact sampleScene_frame|]. split; [exact sampleScene_cube_finite|].
  split; [exact sampleScene_no_nan|].
  exact (published_distances_nonnegative _ _ _ _ _ sampleScene_frame
           sampleScene_cube_finite sampleScene_no_nan).
Defined.

(** X2, witness: Mercury at (Infinity, 1, 2) in [farScene]. *)
Lemma infinite_position_witness :
  animate farScene 1920 1080 =
    Some ((frameResult farScene 1920 1080).1, (frameResult farScene 1920 1080).2) /\
  mercury ∈ PLANETS /\
  planetMeshes farScene !! "mercury" = Some (Vector3.mk infinity 1 2) /\
  Vector3.finite (draggableCube farScene) = true /\
  Vector3.no_nan (Vector3.mk infinity 1 2) = true /\
  Vector3.finite (Vector3.mk infinity 1 2) = false /\
  exists e, e ∈ distances (frameResult farScene 1920 1080).2 /\
    PlanetDistance.id e = "mercury" /\ PlanetDistance.distance e = infinity.
Proof.
  assert (animate farScene 1920 1080 =
    Some ((frameResult farScene 1920 1080).1, (frameResult farScene 1920 1080).2)) as E
    by (vm_compute; reflexivity).
  assert (planetMeshes farScene !! "mercury" = Some (Vector3.mk infinity 1 2)) as Hm
    by (vm_compute; reflexivity).
  split; [exact E|]. split; [exact mercury_in_catalog|]. split; [exact Hm|].
  split; [reflexivity|]. split; [reflexivity|]. split; [reflexivity|].
  exact (infinite_position_ranked_at_infinity _ _ _ _ _ mercury _ E mercury_in_catalog Hm
           eq_refl eq_refl eq_refl).
Defined.

(** X3, witness: the cube dragged onto Earth. *)
Lemma cube_on_body_witness :
  animate cubeOnEarth 1920 1080 =
    Some ((frameResult cubeOnEarth 1920 1080).1, (frameResult cubeOnEarth 1920 1080).2) /\
  earth ∈ PLANETS /\
  planetMeshes cubeOnEarth !! "earth" = Some (draggableCube cubeOnEarth) /\
  Vector3.finite (draggableCube cubeOnEarth) = true /\
  exists e, e ∈ distances (frameResult cubeOnEarth 1920 1080).2 /\
    PlanetDistance.id e = "earth" /\ PlanetDistance.distance e = 0.
Proof.
  assert (animate cubeOnEarth 1920 1080 =
    Some ((frameResult cubeOnEarth 1920 1080).1, (frameResult cubeOnEarth 1920 1080).2)) as E
    by (vm_compute; reflexivity).
  assert (planetMeshes cubeOnEarth !! "earth" = Some (draggableCube cubeOnEarth)) as Hm
    by (vm_compute; reflexivity).
  split; [exact E|]. split; [exact earth_in_catalog|]. split; [exact Hm|].
  split; [reflexivity|].
  exact (cube_on_body_distance_zero _ _ _ _ _ earth E earth_in_catalog Hm eq_refl).
Defined.

(** X4, witness: after the frame of [sampleScene], with the camera moved to
    (1,2,3) and the window resized to 800 x 600. *)
Lemma ranking_independent_of_camera_witness :
  animate sampleScene 1920 1080 =
    Some ((frameResult sampleScene 1920 1080).1, (frameResult sampleScene 1920 1080).2) /\
  exists s'' out',
    animate (mkScene (H := sampleHost) (draggableCube (frameResult sampleScene 1920 1080).1)
               (planetMeshes (frameResult sampleScene 1920 1080).1)
               (OrbitControls.mk (Vector3.mk 1 2 3) Vector3.zero tt)) 800 600 =
      Some (s'', out') /\
    View.distancesPanel (distances out') =
    View.distancesPanel (distances (frameResult sampleScene 1920 1080).2).
Proof.
  split; [exact sampleScene_frame|].
  exact (ranking_independent_of_camera (H := sampleHost) _ _ _ _ _
           (OrbitControls.mk (Vector3.mk 1 2 3) Vector3.zero tt) 800 600 sampleScene_frame).
Defined.

(** X5, witness: the scene built from [sampleData], the cube dragged to
    (1,2,3). *)
Lemma built_scene_ranking_sorted_witness :
  data_no_nan (Some sampleData) /\
  Vector3.finite (Vector3.mk 1 2 3) = true /\
  exists s' out,
    animate (H := sampleHost) (dragCube (Vector3.mk 1 2 3) (buildScene (Some sampleData) None))
      1920 1080 = Some (s', out) /\
    StronglySorted ascending_then_catalog (distances out).
Proof.
  split; [exact sampleData_no_nan|]. split; [reflexivity|].
  exact (built_scene_ranking_sorted (H := sampleHost) (Some sampleData) None
           (Vector3.mk 1 2 3) 1920 1080 sampleData_no_nan eq_refl).
Defined.

(** X6, witness: the labels of [sampleScene]. *)
Lemma labels_follow_ranking_witness :
  animate sampleScene 1920 1080 =
    Some ((frameResult sampleScene 1920 1080).1, (frameResult sampleScene 1920 1080).2) /\
  length (View.labels (distances (frameResult sampleScene 1920 1080).2)
            (planetPositions (frameResult sampleScene 1920 1080).2)) = 9%nat.
Proof.
  split; [exact sampleScene_frame|].
  exact (proj1 (proj2 (labels_follow_ranking _ _ _ _ _ sampleScene_frame))).
Defined.

(** X7, witness: the info bar of [sampleScene]. *)
Lemma info_bar_witness :
  animate sampleScene 1920 1080 =
    Some ((frameResult sampleScene 1920 1080).1, (frameResult sampleScene 1920 1080).2) /\
  exists a b,
    View.infoBar (distances (frameResult sampleScene 1920 1080).2) = Some (Some (a, b)) /\
    PlanetDistance.id a ≠ "sun" /\ PlanetDistance.id b ≠ "sun".
Proof.
  split; [exact sampleScene_frame|].
  destruct (info_bar_shows_two_nearest _ _ _ _ _ sampleScene_frame)
    as (_ & a & b & Hbar & _ & _ & Ha & Hb & _).
  exists a, b. split; [exact Hbar|]. split; [exact Ha|exact Hb].
Defined.

(** X8, witness: the label of Earth when it is the focused body. *)
Lemma focused_label_witness :
  animate sampleScene 1920 1080 =
    Some ((frameResult sampleScene 1920 1080).1, (frameResult sampleScene 1920 1080).2) /\
  exists a b,
    View.nearestOthers (distances (frameResult sampleScene 1920 1080).2) "earth" = [a; b] /\
    PlanetDistance.id a ≠ PlanetDistance.id b.
Proof.
  split; [exact sampleScene_frame|].
  destruct (focused_label_lists_two_nearest_others _ _ _ _ _ "earth" sampleScene_frame)
    as (a & b & Hl & _ & _ & _ & _ & Hab & _).
  exists a, b. split; [exact Hl|exact Hab].
Defined.

(** X9, witness: the "Sun" line of [sampleScene]. *)
Lemma sun_line_witness :
  animate sampleScene 1920 1080 =
    Some ((frameResult sampleScene 1920 1080).1, (frameResult sampleScene 1920 1080).2) /\
  exists e mesh,
    View.sunEntry (distances (frameResult sampleScene 1920 1080).2) = Some e /\
    PlanetDistance.id e = "sun" /\ PlanetDistance.name e = "Sun" /\
    planetMeshes sampleScene !! "sun" = Some mesh /\
    PlanetDistance.distance e =
      JS.Number_toFixed2 (Vector3.distanceTo (draggableCube sampleScene) mesh / SCALE_FACTOR).
Proof.
  split; [exact sampleScene_frame|].
  exact (sun_line_always_present _ _ _ _ _ sampleScene_frame).
Defined.

(** X11, witness: the click on Earth in [sampleWorld]. *)
Lemma focus_on_catalog_body_witness :
  earth ∈ PLANETS /\
  Some sampleData ≫= (λ r, ApiResponse.data r !! "earth") = Some earthCoords /\
  controlsRef sampleWorld = Some (controls sampleScene) /\
  focusedPlanet afterEarth = Some "earth" /\
  ticks afterEarth = 2%nat /\
  planetMeshes sampleScene !! "earth" = Some (scaled earthCoords).
Proof.
  assert (Some sampleData ≫= (λ r, ApiResponse.data r !! "earth") = Some earthCoords)
    as Hc by (vm_compute; reflexivity).
  assert (controlsRef sampleWorld = Some (controls sampleScene)) as Hw by reflexivity.
  destruct (focus_on_catalog_body (H := sampleHost) (Some sampleData) None earth sampleWorld
              earthCoords (controls sampleScene) earth_in_catalog Hc Hw) as [Hf Hm].
  split; [exact earth_in_catalog|]. split; [exact Hc|]. split; [exact Hw|].
  unfold afterEarth. change "earth" with (PlanetData.id earth). rewrite Hf.
  split; [reflexivity|]. split; [reflexivity|]. exact Hm.
Defined.

(** X12, witness: [earthFlight] half a second after its start. *)
Lemma progress_witness :
  is_nan ((startTime earthFlight + 500 - startTime earthFlight) / duration) = false /\
  is_nan (progress earthFlight (startTime earthFlight + 500)) = false /\
  (progress earthFlight (startTime earthFlight + 500) <=? 1) = true.
Proof.
  assert (is_nan ((startTime earthFlight + 500 - startTime earthFlight) / duration) = false)
    as Hq by reflexivity.
  destruct (progress_never_exceeds_1 earthFlight (startTime earthFlight + 500) Hq)
    as (Hn & Hle & _).
  split; [exact Hq|]. split; [exact Hn|exact Hle].
Defined.

Lemma dueWorld_due (i : nat) (f : Flight) :
  raf dueWorld !! i = Some f ->
  (1 <=? (Date_now (Host := sampleHost) (ticks dueWorld + i) - startTime f) / duration) = true.
Proof.
  destruct i as [|i]; [|discriminate]. intros [= <-]. vm_compute. reflexivity.
Qed.

(** X13, witness: [earthFlight], 1.6 s after its start. *)
Lemma flights_finish_witness :
  controlsRef dueWorld = Some (controls sampleScene) /\
  (forall i f, raf dueWorld !! i = Some f ->
     (1 <=? (Date_now (Host := sampleHost) (ticks dueWorld + i) - startTime f) / duration)
     = true) /\
  raf (frame dueWorld) = [] /\
  ticks (frame dueWorld) = 101%nat /\
  focusedPlanet (frame dueWorld) = Some "earth".
Proof.
  split; [reflexivity|]. split; [exact dueWorld_due|].
  destruct (flights_finish_when_due (H := sampleHost) dueWorld (controls sampleScene)
              eq_refl dueWorld_due) as (Hq & Hn & Hf & _).
  split; [exact Hq|]. split; [exact Hn|exact Hf].
Defined.

(** X22, witness: a click on Earth while the clock stands still. *)
Lemma focus_in_same_millisecond_witness :
  Some sampleData ≫= (λ r, ApiResponse.data r !! "earth") = Some earthCoords /\
  controlsRef frozenWorld = Some frozenControls /\
  Date_now (Host := frozenHost) 1 = Date_now (Host := frozenHost) 0 /\
  is_finite (Date_now (Host := frozenHost) 0) = true /\
  Math_pow (Host := frozenHost) 1 3 = 1 /\
  exists p t,
    controlsRef (focusOnPlanet (Some sampleData) "earth" frozenWorld) =
      Some (OrbitControls.mk p t tt) /\
    Vector3.eqb p (Vector3.mk 0 50 100) = true /\
    Vector3.eqb t Vector3.zero = true.
Proof.
  assert (Some sampleData ≫= (λ r, ApiResponse.data r !! "earth") = Some earthCoords)
    as Hc by (vm_compute; reflexivity).
  split; [exact Hc|]. split; [reflexivity|]. split; [reflexivity|].
  split; [reflexivity|]. split; [reflexivity|].
  destruct (focus_in_same_millisecond_keeps_camera (H := frozenHost) (Some sampleData)
              "earth" frozenWorld earthCoords frozenControls
              Hc eq_refl eq_refl eq_refl eq_refl)
    as (f & Hq & Hsp & Hst & Htp & Hstep).
  assert (raf (focusOnPlanet (Some sampleData) "earth" frozenWorld) = [earthFlight]) as Hr
    by (vm_compute; reflexivity).
  rewrite Hr in Hq. injection Hq as <-.
  destruct Hstep as (p & t & Hctl & Hp & Ht); [reflexivity..|].
  exists p, t. split; [exact Hctl|]. split; [exact Hp|exact Ht].
Defined.

(** X14, witness: the camera is moved to (1,2,3) and the cube dragged
    to (7,8,9) while the request for [sunData] is under way. *)
Lemma request_time_snapshot_witness :
  Forall (λ ev, isFetchEvent ev = false)
    [CameraMoved (Vector3.mk 1 2 3) (Vector3.mk 4 5 6); CubeDragged (Vector3.mk 7 8 9)] /\
  component
    (pageStep (FetchSucceeded sunData)
       (pageRun [CameraMoved (Vector3.mk 1 2 3) (Vector3.mk 4 5 6);
                 CubeDragged (Vector3.mk 7 8 9)]
          (pageStep FetchStarted (mkPage sampleComponent false None)))) =
  refresh sunData sampleComponent.
Proof.
  assert (Forall (λ ev, isFetchEvent ev = false)
            [CameraMoved (Vector3.mk 1 2 3) (Vector3.mk 4 5 6);
             CubeDragged (Vector3.mk 7 8 9)]) as Hevs
    by (repeat constructor).
  split; [exact Hevs|].
  exact (refresh_restores_request_time_snapshot (H := sampleHost) sunData _
           (mkPage sampleComponent false None) Hevs).
Defined.

(** X18, witness: the rings for [sampleData], with the ring of Earth. *)
Lemma orbit_ring_witness :
  (forall b, Math_pow (Host := squareHost) b 2 = b * b) /\
  (forall o, ("sun", o) ∉ orbits (H := squareHost) (Some sampleData)) /\
  exists o mesh,
    ("earth", o) ∈ orbits (H := squareHost) (Some sampleData) /\
    planetMeshes (buildScene (H := squareHost) (Some sampleData) None) !! "earth" =
      Some mesh /\
    innerRadius o = Vector3.distanceTo mesh Vector3.zero - 0.1 /\
    outerRadius o = Vector3.distanceTo mesh Vector3.zero + 0.1.
Proof.
  assert (forall b, Math_pow (Host := squareHost) b 2 = b * b) as Hpow by reflexivity.
  split; [exact Hpow|].
  destruct (orbit_ring_through_body (H := squareHost) (Some sampleData) None Hpow)
    as (Hsun & Hiff & Hring).
  split; [exact Hsun|].
  assert (earth ∈ PLANETS) as Hin by (do 3 apply list_elem_of_further; apply list_elem_of_here).
  assert (PlanetData.id earth ≠ "sun") as Hne by discriminate.
  assert (is_Some (Some sampleData ≫= (λ r, ApiResponse.data r !! PlanetData.id earth)))
    as Hc by (exists earthCoords; vm_compute; reflexivity).
  destruct (proj2 (Hiff earth Hin Hne) Hc) as [o Ho].
  destruct (Hring _ _ Ho) as (mesh & Hm & _ & Hi & Hout).
  exists o, mesh. split; [exact Ho|]. split; [exact Hm|]. split; [exact Hi|exact Hout].
Defined.

(** X19, witness: Earth, whose own inclination is 0, for [sampleData]. *)
Lemma body_tilt_witness :
  earth ∈ PLANETS /\
  meshRotations (Some sampleData) !! "earth" = Some ORBIT_INCLINATION /\
  exists o,
    ("earth", o) ∈ orbits (H := sampleHost) (Some sampleData) /\
    orbit_rotation_x o = (Math_PI / 2 + ORBIT_INCLINATION)%float.
Proof.
  assert (earth ∈ PLANETS) as Hin by (do 3 apply list_elem_of_further; apply list_elem_of_here).
  split; [exact Hin|].
  destruct (body_tilt (H := sampleHost) (Some sampleData) earth Hin) as (_ & _ & Htilt).
  apply Htilt.
  - discriminate.
  - exists earthCoords. vm_compute. reflexivity.
  - reflexivity.
Defined.

(** X20, witness: a click on Earth after a click on Mars. *)
Lemma earlier_focus_witness :
  Some sampleData ≫= (λ r, ApiResponse.data r !! "earth") = Some earthCoords /\
  Earlier.focusOnPlanet (H := sampleHost) (Some sampleData) "earth"
    (Earlier.focusOnPlanet (Some sampleData) "mars" (Some (controls sampleScene))) =
    Some (OrbitControls.mk (Vector3.mk 6 13 15.1) (Vector3.mk (-9) 3 0.1) tt).
Proof.
  assert (Some sampleData ≫= (λ r, ApiResponse.data r !! "earth") = Some earthCoords)
    as Hc by (vm_compute; reflexivity).
  split; [exact Hc|].
  destruct (earlier_focus_moves_at_once (H := sampleHost) (Some sampleData) "mars" "earth"
              earthCoords (controls sampleScene) Hc) as [Hf _].
  rewrite Hf. vm_compute. reflexivity.
Defined.

(** X21, witness: the labels of [sampleScene], merged over a stale entry. *)
Lemma earlier_labels_witness :
  animate sampleScene 1920 1080 =
    Some ((frameResult sampleScene 1920 1080).1, (frameResult sampleScene 1920 1080).2) /\
  Earlier.animate sampleScene 1920 1080 {[ "pluto" := PlanetPosition.mk 1 2 ]} =
    ((frameResult sampleScene 1920 1080).1,
     (planetPositions (frameResult sampleScene 1920 1080).2
        ∪ {[ "pluto" := PlanetPosition.mk 1 2 ]}, true)).
Proof.
  split; [exact sampleScene_frame|].
  exact (earlier_labels_agree _ _ _ _ _ {[ "pluto" := PlanetPosition.mk 1 2 ]}
           sampleScene_frame).
Defined.
